(** * Form-Builder: the question list of [AddQuestionForm.tsx]

    A shallow embedding of the one stateful component of the repository,
    [src/components/AddQuestionForm.tsx]: its [useState] cells, its event
    handlers, its [useEffect], and the two persistence helpers
    [saveToLocalStorage] / [loadFromLocalStorage], together with the parts
    of the JavaScript run time they rest on ([String.prototype.trim],
    object literals and spreads, [JSON.stringify], [JSON.parse],
    [localStorage]).

    Conventions.
    - A JavaScript string is its sequence of UTF-16 code units
      ([jsstring := list N], the units being the numbers below 65536);
      [js "..."] writes an ASCII literal.
    - A question is the object the program holds: its own properties, in
      the order JavaScript enumerates them.  The interfaces [Question] and
      [AdditionalFields] of the source are predicates on such objects.
    - The Number type is a parameter ([number], [Numbers]): its values,
      how [Number::toString] prints one and which one a JSON numeral
      denotes.  What the development uses of it are the laws of
      [lawful].
    - The handlers read the questions at their declared type.  The
      component starts in a state of the declared types and stays in
      one ([mount_typed], [run_typed]), and its objects stay objects
      of the language ([mount_objects], [run_objects]).
    - [uuidv4()] is an input of the handler that calls it. *)

From Stdlib Require Import List NArith ZArith Bool Ascii String Lia.
Import ListNotations.

Set Implicit Arguments.
Set Warnings "-register-all".

(* ================================================================= *)
(** * JavaScript strings *)

Definition jsstring := list N.

Definition ch (a : ascii) : N := N_of_ascii a.
Arguments ch a%_char.

Definition js (s : string) : jsstring := map N_of_ascii (list_ascii_of_string s).
Arguments js s%_string.

(** The code unit of the double quote. *)
Definition quotation_mark : N := 34.

(** [a === b] on strings. *)
Fixpoint str_eqb (a b : jsstring) : bool :=
  match a, b with
  | [], [] => true
  | x :: a', y :: b' => N.eqb x y && str_eqb a' b'
  | _, _ => false
  end.

(** ECMAScript WhiteSpace and LineTerminator code points, the ones
    [String.prototype.trim] strips. *)
Definition is_white_space (c : N) : bool :=
  ((9 <=? c) && (c <=? 13) || (c =? 32) || (c =? 160) || (c =? 5760)
   || (8192 <=? c) && (c <=? 8202) || (c =? 8232) || (c =? 8233)
   || (c =? 8239) || (c =? 8287) || (c =? 12288) || (c =? 65279))%N.

Fixpoint trimStart (s : jsstring) : jsstring :=
  match s with
  | c :: t => if is_white_space c then trimStart t else s
  | [] => []
  end.

Definition trimEnd (s : jsstring) : jsstring := rev (trimStart (rev s)).

Definition trim (s : jsstring) : jsstring := trimEnd (trimStart s).

(** ToBoolean on a string: the empty string is falsy. *)
Definition truthy (s : jsstring) : bool :=
  match s with [] => false | _ :: _ => true end.

(** ToBoolean on [string | null] and on [string | false]. *)
Definition truthy_opt (o : option jsstring) : bool :=
  match o with Some s => truthy s | None => false end.

(* ================================================================= *)
(** * Numbers

    ** JSON numerals

    An optional minus, an integer part without leading zero, an optional
    fraction and an optional exponent.  [scan_number] splits a text into
    the longest numeral at its head and the rest. *)

Definition is_digit (c : N) : bool := ((48 <=? c) && (c <=? 57))%N.

(** The longest run of decimal digits at the head of [s]. *)
Fixpoint span_digits (s : jsstring) : jsstring * jsstring :=
  match s with
  | c :: t =>
    if is_digit c then let (d, r) := span_digits t in (c :: d, r)
    else ([], s)
  | [] => ([], [])
  end.

Definition scan_minus (s : jsstring) : jsstring * jsstring :=
  match s with
  | c :: t => if (c =? ch "-")%N then ([c], t) else ([], s)
  | [] => ([], [])
  end.

(** The fraction [. digits], when there is one. *)
Definition scan_fraction (s : jsstring) : option (jsstring * jsstring) :=
  match s with
  | c :: t =>
    if (c =? ch ".")%N then
      match span_digits t with
      | ([], _) => None
      | (f, r) => Some (c :: f, r)
      end
    else Some ([], s)
  | [] => Some ([], [])
  end.

Definition scan_sign (s : jsstring) : jsstring * jsstring :=
  match s with
  | c :: t => if ((c =? ch "-") || (c =? ch "+"))%N then ([c], t) else ([], s)
  | [] => ([], [])
  end.

(** The exponent [e digits], [e+digits] or [e-digits], when there is one. *)
Definition scan_exponent (s : jsstring) : option (jsstring * jsstring) :=
  match s with
  | c :: t =>
    if ((c =? ch "e") || (c =? ch "E"))%N then
      let (sign, t') := scan_sign t in
      match span_digits t' with
      | ([], _) => None
      | (x, r) => Some (c :: sign ++ x, r)
      end
    else Some ([], s)
  | [] => Some ([], [])
  end.

Definition scan_number (s : jsstring) : option (jsstring * jsstring) :=
  let (minus, s1) := scan_minus s in
  let (i, s2) := span_digits s1 in
  match i with
  | [] => None
  | d :: i' =>
    if ((d =? ch "0")%N && match i' with [] => false | _ :: _ => true end)
    then None
    else
      match scan_fraction s2 with
      | None => None
      | Some (f, s3) =>
        match scan_exponent s3 with
        | None => None
        | Some (x, s4) => Some (minus ++ i ++ f ++ x, s4)
        end
      end
  end.

(** The whole of [s] is one numeral. *)
Definition is_numeral (s : jsstring) : bool :=
  match scan_number s with
  | Some (_, []) => true
  | _ => false
  end.

(** ** The Number type

    The program takes its numbers from [Number(e.target.value)], hands
    them to [JSON.stringify] and gets them back from [JSON.parse]; it does
    no arithmetic.  What it needs of the Number type is kept as a
    parameter: the values, the two tests [JSON.stringify] and the round
    trip turn on, [Number::toString], and the value of a numeral. *)
Class Numbers (number : Type) := {
  NaN : number;
  (** neither NaN nor an infinity *)
  is_finite : number -> bool;
  (** the zero with the sign bit set *)
  is_negative_zero : number -> bool;
  (** Number::toString, radix 10 *)
  Number_toString : number -> jsstring;
  (** the Number value of a JSON numeral *)
  numeral_value : jsstring -> number
}.

(** What ECMAScript says of them: a finite number prints as a numeral,
    and the numeral denotes the number again, the negative zero, which
    prints as [0], being the one exception; NaN is not finite. *)
Definition lawful {number : Type} (NUM : Numbers number) : Prop :=
  (forall x : number, is_finite x = true -> is_numeral (Number_toString x) = true)
  /\ (forall x : number, is_finite x = true -> is_negative_zero x = false ->
      numeral_value (Number_toString x) = x)
  /\ is_finite NaN = false.

(** ** An instance for the examples

    A number is known here by the numeral that denotes it, which
    [Number::toString] gives back; a text that is no numeral, as [NaN],
    stands for a number that is not finite.  The instance agrees with
    JavaScript on the numerals [Number::toString] writes; it tells apart
    two numerals of one number, such as [1.0] and [1]. *)

Inductive example_number := Numeral (text : jsstring).

Definition example_numbers : Numbers example_number :=
  {| NaN := Numeral (js "NaN");
     is_finite := fun x => let 'Numeral text := x in is_numeral text;
     is_negative_zero := fun x => let 'Numeral text := x in str_eqb text (js "-0");
     Number_toString :=
       fun x => let 'Numeral text := x in
                if str_eqb text (js "-0") then js "0" else text;
     numeral_value := Numeral |}.

Section FormBuilder.

Context {number : Type} {NUM : Numbers number}.

(* ================================================================= *)
(** * Values and objects *)

(** The values the program holds in its list: what [JSON.parse] builds
    and what the handlers put together from strings, booleans, numbers
    and objects.  A property absent from an object reads as [undefined]
    ([None] below); no property holds [undefined]. *)
Inductive value :=
| JNull
| JBool (b : bool)
| JNum (x : number)
| JStr (s : jsstring)
| JArr (elements : list value)
| JObj (properties : list (jsstring * value)).

(** The own properties of an object, in the order of
    OrdinaryOwnPropertyKeys. *)
Definition object := list (jsstring * value).

(** [o.k], or [o[k]]. *)
Fixpoint get (k : jsstring) (o : object) : option value :=
  match o with
  | [] => None
  | (k', v) :: t => if str_eqb k' k then Some v else get k t
  end.

Definition has_key (k : jsstring) (o : object) : bool :=
  match get k o with Some _ => true | None => false end.

(** [v === s], [s] a string. *)
Definition same_string (v : option value) (s : jsstring) : bool :=
  match v with
  | Some (JStr s') => str_eqb s' s
  | _ => false
  end.

(** ** Property order

    An own property key that is an array index (the canonical numeral of
    an integer below 2^32 - 1) comes before the other keys, in ascending
    order; the other keys come in the order of their creation. *)

Fixpoint print_uint (u : Decimal.uint) : jsstring :=
  match u with
  | Decimal.Nil => []
  | Decimal.D0 u => 48%N :: print_uint u
  | Decimal.D1 u => 49%N :: print_uint u
  | Decimal.D2 u => 50%N :: print_uint u
  | Decimal.D3 u => 51%N :: print_uint u
  | Decimal.D4 u => 52%N :: print_uint u
  | Decimal.D5 u => 53%N :: print_uint u
  | Decimal.D6 u => 54%N :: print_uint u
  | Decimal.D7 u => 55%N :: print_uint u
  | Decimal.D8 u => 56%N :: print_uint u
  | Decimal.D9 u => 57%N :: print_uint u
  end.

Definition digit_unit (c : N) : option (Decimal.uint -> Decimal.uint) :=
  (if c =? 48 then Some Decimal.D0 else if c =? 49 then Some Decimal.D1
   else if c =? 50 then Some Decimal.D2 else if c =? 51 then Some Decimal.D3
   else if c =? 52 then Some Decimal.D4 else if c =? 53 then Some Decimal.D5
   else if c =? 54 then Some Decimal.D6 else if c =? 55 then Some Decimal.D7
   else if c =? 56 then Some Decimal.D8 else if c =? 57 then Some Decimal.D9
   else None)%N.

(** The digits at the head of [s]. *)
Fixpoint read_uint (s : jsstring) : Decimal.uint :=
  match s with
  | c :: t =>
    match digit_unit c with
    | Some d => d (read_uint t)
    | None => Decimal.Nil
    end
  | [] => Decimal.Nil
  end.

(** ToString of a natural number. *)
Definition print_N (n : N) : jsstring := print_uint (N.to_uint n).

(** The integer of which [k] is the array index, if [k] is one: [k] is
    what ToString gives for the integer its digits denote, and that
    integer is below 2^32 - 1. *)
Definition array_index (k : jsstring) : option N :=
  let n := N.of_uint (read_uint k) in
  if str_eqb (print_N n) k && (n <? 4294967295)%N then Some n else None.

Fixpoint overwrite (k : jsstring) (v : value) (o : object) : object :=
  match o with
  | [] => []
  | (k', v') :: t =>
    if str_eqb k' k then (k', v) :: t else (k', v') :: overwrite k v t
  end.

Fixpoint insert_index (n : N) (k : jsstring) (v : value) (o : object) : object :=
  match o with
  | [] => [(k, v)]
  | (k', v') :: t =>
    match array_index k' with
    | Some n' =>
      if (n' <? n)%N then (k', v') :: insert_index n k v t
      else (k, v) :: o
    | None => (k, v) :: o
    end
  end.

(** CreateDataProperty: the value of an existing property is replaced
    where the property stands, a new property takes its place in the
    order. *)
Definition define (k : jsstring) (v : value) (o : object) : object :=
  if has_key k o then overwrite k v o
  else
    match array_index k with
    | Some n => insert_index n k v o
    | None => o ++ [(k, v)]
    end.

(** [{...o, k1: v1, ..., kn: vn}]: the properties written after the
    spread are defined one by one on a copy of [o]. *)
Definition spread (o : object) (properties : list (jsstring * value)) : object :=
  fold_left (fun o' p => define (fst p) (snd p) o') properties o.

(** [k] may stand before [k'] in an object. *)
Definition comes_before (k k' : jsstring) : bool :=
  match array_index k, array_index k' with
  | Some n, Some n' => (n <? n')%N
  | Some _, None => true
  | None, Some _ => false
  | None, None => true
  end.

(** The list is the list of properties of an object: no key twice, the
    keys in order.  Every JavaScript object is one. *)
Fixpoint ordered (o : object) : bool :=
  match o with
  | [] => true
  | (k, _) :: t =>
    negb (has_key k t) && forallb (fun p => comes_before k (fst p)) t && ordered t
  end.

(* ================================================================= *)
(** * The data model (the two interfaces of the source) *)

Inductive NumberType := integer | decimal.

Definition NumberType_string (t : NumberType) : jsstring :=
  match t with integer => js "integer" | decimal => js "decimal" end.

Definition is_string (v : option value) : bool :=
  match v with Some (JStr _) => true | _ => false end.

Definition is_boolean (v : option value) : bool :=
  match v with Some (JBool _) => true | _ => false end.

Definition is_number (v : option value) : bool :=
  match v with Some (JNum _) => true | _ => false end.

Definition is_NumberType (v : option value) : bool :=
  same_string v (js "integer") || same_string v (js "decimal").

(** A property marked [?]: absent, or of its type. *)
Definition is_optional (is_type : option value -> bool) (v : option value) : bool :=
  match v with None => true | Some _ => is_type v end.

(** Lines 26-30. *)
Definition is_AdditionalFields (o : object) : bool :=
  is_optional is_NumberType (get (js "numberType") o)
  && is_optional is_number (get (js "min") o)
  && is_optional is_number (get (js "max") o).

Definition is_AdditionalFields_value (v : option value) : bool :=
  match v with Some (JObj o) => is_AdditionalFields o | _ => false end.

(** Lines 32-39. *)
Definition is_Question (q : object) : bool :=
  is_string (get (js "id") q)
  && is_string (get (js "title") q)
  && is_string (get (js "type") q)
  && is_boolean (get (js "required") q)
  && is_optional is_string (get (js "helperText") q)
  && is_optional is_AdditionalFields_value (get (js "additionalFields") q).

(** [q.id]. *)
Definition Question_id (q : object) : option value := get (js "id") q.

Definition ids (qs : list object) : list (option value) := map Question_id qs.

(** The id of a question that has the string [id] for id. *)
Definition id_string (id : jsstring) : option value := Some (JStr id).

(** The reads of [handleAccordionChange] on [questionToEdit], an object
    of type [Question]: [.title] and [.type] are strings, [.required] is
    a boolean, [.helperText] or else the empty string is the string when
    there is one, and [.additionalFields] or else [{}] the object when
    there is one. *)
Definition string_of (v : option value) : jsstring :=
  match v with Some (JStr s) => s | _ => [] end.

Definition boolean_of (v : option value) : bool :=
  match v with Some (JBool b) => b | _ => false end.

Definition object_of (v : option value) : object :=
  match v with Some (JObj o) => o | _ => [] end.

Definition Question_title (q : object) : jsstring := string_of (get (js "title") q).
Definition Question_type (q : object) : jsstring := string_of (get (js "type") q).
Definition Question_required (q : object) : bool := boolean_of (get (js "required") q).
Definition Question_helperText (q : object) : jsstring :=
  string_of (get (js "helperText") q).
Definition Question_additionalFields (q : object) : object :=
  object_of (get (js "additionalFields") q).

(** The array [questions] as a value. *)
Definition array (questions : list object) : value := JArr (map JObj questions).

(* ================================================================= *)
(** * JSON text *)

Inductive parsed (A : Type) :=
| Parsed (a : A) (rest : jsstring)
| SyntaxError
| OutOfFuel.
Arguments SyntaxError {A}.
Arguments OutOfFuel {A}.

Definition parsed_map {A B} (f : A -> B) (p : parsed A) : parsed B :=
  match p with
  | Parsed a r => Parsed (f a) r
  | SyntaxError => SyntaxError
  | OutOfFuel => OutOfFuel
  end.

Definition parsed_of_option {A} (o : option (A * jsstring)) : parsed A :=
  match o with Some (a, r) => Parsed a r | None => SyntaxError end.

(** JSON white space: space, tab, line feed, carriage return. *)
Definition is_json_ws (c : N) : bool :=
  ((c =? 32) || (c =? 9) || (c =? 10) || (c =? 13))%N.

Fixpoint skip_ws (s : jsstring) : jsstring :=
  match s with
  | c :: t => if is_json_ws c then skip_ws t else s
  | [] => []
  end.

(** ** Strings *)

Definition is_high_surrogate (c : N) : bool := ((55296 <=? c) && (c <=? 56319))%N.
Definition is_low_surrogate (c : N) : bool := ((56320 <=? c) && (c <=? 57343))%N.

Definition hex_digit (d : N) : N :=
  (if d <? 10 then 48 + d else 87 + d)%N.

(** UnicodeEscape: a backslash, [u] and four lower-case hex digits. *)
Definition UnicodeEscape (c : N) : jsstring :=
  [ch "\"; ch "u";
   hex_digit ((c / 4096) mod 16); hex_digit ((c / 256) mod 16);
   hex_digit ((c / 16) mod 16); hex_digit (c mod 16)]%N.

(** One code unit that is not the first half of a surrogate pair. *)
Definition quote_unit (c : N) : jsstring :=
  (if c =? 8 then [ch "\"; ch "b"]
   else if c =? 9 then [ch "\"; ch "t"]
   else if c =? 10 then [ch "\"; ch "n"]
   else if c =? 12 then [ch "\"; ch "f"]
   else if c =? 13 then [ch "\"; ch "r"]
   else if c =? quotation_mark then [ch "\"; quotation_mark]
   else if c =? ch "\" then [ch "\"; ch "\"]
   else if (c <? 32) || is_high_surrogate c || is_low_surrogate c
        then UnicodeEscape c
   else [c])%N.

(** The body of QuoteJSONString: the string is read code point by code
    point, so a well-formed surrogate pair goes through unchanged and a
    lone surrogate is escaped. *)
Fixpoint quote_units (s : jsstring) : jsstring :=
  match s with
  | [] => []
  | c :: t =>
    if is_high_surrogate c then
      match t with
      | d :: t' =>
        if is_low_surrogate d then c :: d :: quote_units t'
        else UnicodeEscape c ++ quote_units t
      | [] => UnicodeEscape c
      end
    else quote_unit c ++ quote_units t
  end.

Definition QuoteJSONString (s : jsstring) : jsstring :=
  quotation_mark :: quote_units s ++ [quotation_mark].

Definition hex_value (c : N) : option N :=
  (if (48 <=? c) && (c <=? 57) then Some (c - 48)
   else if (97 <=? c) && (c <=? 102) then Some (c - 87)
   else if (65 <=? c) && (c <=? 70) then Some (c - 55)
   else None)%N.

Definition hex4 (a b c d : N) : option N :=
  match hex_value a, hex_value b, hex_value c, hex_value d with
  | Some x, Some y, Some z, Some w => Some (x * 4096 + y * 256 + z * 16 + w)%N
  | _, _, _, _ => None
  end.

Definition simple_escape (e : N) : option N :=
  (if e =? quotation_mark then Some quotation_mark
   else if e =? ch "\" then Some (ch "\")
   else if e =? ch "/" then Some (ch "/")
   else if e =? ch "b" then Some 8
   else if e =? ch "f" then Some 12
   else if e =? ch "n" then Some 10
   else if e =? ch "r" then Some 13
   else if e =? ch "t" then Some 9
   else None)%N.

Definition cons_fst {A B} (a : A) (p : option (list A * B)) : option (list A * B) :=
  match p with Some (l, r) => Some (a :: l, r) | None => None end.

(** The characters of a JSON string, after its opening quote, up to and
    including the closing one. *)
Fixpoint parse_chars (s : jsstring) : option (jsstring * jsstring) :=
  match s with
  | [] => None
  | c :: t =>
    if (c =? quotation_mark)%N then Some ([], t)
    else if (c =? ch "\")%N then
      match t with
      | [] => None
      | e :: t' =>
        if (e =? ch "u")%N then
          match t' with
          | h1 :: h2 :: h3 :: h4 :: t'' =>
            match hex4 h1 h2 h3 h4 with
            | Some u => cons_fst u (parse_chars t'')
            | None => None
            end
          | _ => None
          end
        else
          match simple_escape e with
          | Some u => cons_fst u (parse_chars t')
          | None => None
          end
      end
    else if (c <? 32)%N then None
    else cons_fst c (parse_chars t)
  end.

(** ** Numbers *)

Definition parse_number (s : jsstring) : option (value * jsstring) :=
  match scan_number s with
  | Some (lexeme, rest) => Some (JNum (numeral_value lexeme), rest)
  | None => None
  end.

(** ** The three literal names *)

Fixpoint strip_prefix (p s : jsstring) : option jsstring :=
  match p, s with
  | [], _ => Some s
  | x :: p', y :: s' => if (x =? y)%N then strip_prefix p' s' else None
  | _ :: _, [] => None
  end.

Definition parse_literal (s : jsstring) : parsed value :=
  match strip_prefix (js "true") s with
  | Some r => Parsed (JBool true) r
  | None =>
    match strip_prefix (js "false") s with
    | Some r => Parsed (JBool false) r
    | None =>
      match strip_prefix (js "null") s with
      | Some r => Parsed JNull r
      | None => SyntaxError
      end
    end
  end.

(** ** Values *)

(** The object of a list of members: each is defined in turn, so of two
    members with one key the second gives the value and the first the
    place. *)
Definition object_of_members (members : list (jsstring * value)) : object :=
  spread [] members.

Fixpoint parse_value (fuel : nat) (s : jsstring) {struct fuel} : parsed value :=
  match fuel with
  | O => OutOfFuel
  | S fuel' =>
    match skip_ws s with
    | [] => SyntaxError
    | c :: t =>
      if (c =? ch "[")%N then
        match skip_ws t with
        | [] => SyntaxError
        | c' :: t' =>
          if (c' =? ch "]")%N then Parsed (JArr []) t'
          else parsed_map JArr (parse_elements fuel' (c' :: t'))
        end
      else if (c =? ch "{")%N then
        match skip_ws t with
        | [] => SyntaxError
        | c' :: t' =>
          if (c' =? ch "}")%N then Parsed (JObj []) t'
          else parsed_map (fun members => JObj (object_of_members members))
                 (parse_members fuel' (c' :: t'))
        end
      else if (c =? quotation_mark)%N then
        parsed_of_option
          (match parse_chars t with
           | Some (str, r) => Some (JStr str, r)
           | None => None
           end)
      else if ((c =? ch "-")%N || is_digit c) then
        parsed_of_option (parse_number (c :: t))
      else parse_literal (c :: t)
    end
  end

with parse_elements (fuel : nat) (s : jsstring) {struct fuel} : parsed (list value) :=
  match fuel with
  | O => OutOfFuel
  | S fuel' =>
    match parse_value fuel' s with
    | Parsed v r =>
      match skip_ws r with
      | [] => SyntaxError
      | c :: t =>
        if (c =? ch ",")%N then parsed_map (cons v) (parse_elements fuel' t)
        else if (c =? ch "]")%N then Parsed [v] t
        else SyntaxError
      end
    | SyntaxError => SyntaxError
    | OutOfFuel => OutOfFuel
    end
  end

with parse_members (fuel : nat) (s : jsstring) {struct fuel}
  : parsed (list (jsstring * value)) :=
  match fuel with
  | O => OutOfFuel
  | S fuel' =>
    match skip_ws s with
    | [] => SyntaxError
    | c :: t =>
      if (c =? quotation_mark)%N then
        match parse_chars t with
        | None => SyntaxError
        | Some (k, r) =>
          match skip_ws r with
          | [] => SyntaxError
          | c2 :: t2 =>
            if (c2 =? ch ":")%N then
              match parse_value fuel' t2 with
              | Parsed v r2 =>
                match skip_ws r2 with
                | [] => SyntaxError
                | c3 :: t3 =>
                  if (c3 =? ch ",")%N
                  then parsed_map (cons (k, v)) (parse_members fuel' t3)
                  else if (c3 =? ch "}")%N then Parsed [(k, v)] t3
                  else SyntaxError
                end
              | SyntaxError => SyntaxError
              | OutOfFuel => OutOfFuel
              end
            else SyntaxError
          end
        end
      else SyntaxError
    end
  end.

(** [JSON.parse text]: one value, white space around it, nothing else.
    [None] stands for the SyntaxError the call throws.  The fuel is
    enough for every text ([parse_text_total] below). *)
Definition parse_text (s : jsstring) : parsed value :=
  match parse_value (2 * List.length s + 1) s with
  | Parsed v r => match skip_ws r with [] => Parsed v [] | _ :: _ => SyntaxError end
  | SyntaxError => SyntaxError
  | OutOfFuel => OutOfFuel
  end.

Definition JSON_parse (s : jsstring) : option value :=
  match parse_text s with
  | Parsed v _ => Some v
  | _ => None
  end.

(** ** [JSON.stringify]

    SerializeJSONProperty on a value: a number that is not finite is
    written [null]; an array writes its elements and an object its
    properties in their order. *)

Fixpoint join_comma (parts : list jsstring) : jsstring :=
  match parts with
  | [] => []
  | p :: ps =>
    match ps with
    | [] => p
    | _ :: _ => p ++ ch "," :: join_comma ps
    end
  end.

Definition SerializeJSONObject (properties : list jsstring) : jsstring :=
  ch "{" :: join_comma properties ++ [ch "}"].

Definition SerializeJSONArray (elements : list jsstring) : jsstring :=
  ch "[" :: join_comma elements ++ [ch "]"].

Definition stringify_bool (b : bool) : jsstring :=
  if b then js "true" else js "false".

Definition stringify_number (x : number) : jsstring :=
  if is_finite x then Number_toString x else js "null".

Fixpoint JSON_stringify (v : value) : jsstring :=
  match v with
  | JNull => js "null"
  | JBool b => stringify_bool b
  | JNum x => stringify_number x
  | JStr s => QuoteJSONString s
  | JArr elements => SerializeJSONArray (map JSON_stringify elements)
  | JObj properties =>
    SerializeJSONObject
      (map (fun p => QuoteJSONString (fst p) ++ ch ":" :: JSON_stringify (snd p))
         properties)
  end.

(** ** What a value comes back as

    [JSON.parse (JSON.stringify v)] ([JSON_parse_stringify] below): a
    number that is not finite comes back as [null], a finite one as the
    value of its numeral. *)
Fixpoint normalise (v : value) : value :=
  match v with
  | JNum x => if is_finite x then JNum (numeral_value (Number_toString x)) else JNull
  | JArr elements => JArr (map normalise elements)
  | JObj properties =>
    JObj (object_of_members (map (fun p => (fst p, normalise (snd p))) properties))
  | _ => v
  end.

(** The values that come back as they are: the numbers in them are
    finite and none is the negative zero. *)
Fixpoint storable (v : value) : bool :=
  match v with
  | JNum x => is_finite x && negb (is_negative_zero x)
  | JArr elements => forallb storable elements
  | JObj properties =>
    ordered properties && forallb (fun p => storable (snd p)) properties
  | _ => true
  end.

(** The objects in the value are objects as JavaScript has them. *)
Fixpoint well_formed (v : value) : bool :=
  match v with
  | JArr elements => forallb well_formed elements
  | JObj properties =>
    ordered properties && forallb (fun p => well_formed (snd p)) properties
  | _ => true
  end.

(** The numbers in the value are finite and none is the negative
    zero. *)
Fixpoint plain_numbers (v : value) : bool :=
  match v with
  | JNum x => is_finite x && negb (is_negative_zero x)
  | JArr elements => forallb plain_numbers elements
  | JObj properties => forallb (fun p => plain_numbers (snd p)) properties
  | _ => true
  end.

(** ** Reading a parsed value at the type [Question[]]

    The source casts the result of [JSON.parse] without a check; the
    cast is right when the value is an array of objects of the
    interface. *)

Definition as_Question (v : value) : option object :=
  match v with
  | JObj q => if is_Question q then Some q else None
  | _ => None
  end.

Fixpoint as_list {A} (read : value -> option A) (vs : list value) : option (list A) :=
  match vs with
  | [] => Some []
  | v :: vs' =>
    match read v, as_list read vs' with
    | Some a, Some l => Some (a :: l)
    | _, _ => None
    end
  end.

Definition as_Questions (v : value) : option (list object) :=
  match v with
  | JArr elements => as_list as_Question elements
  | _ => None
  end.

(* ================================================================= *)
(** * [localStorage]

    The program reads and writes one key, ["questions"]; the store is
    that entry and the room the browser leaves for it.  [setItem] throws
    a QuotaExceededError when the value does not fit. *)

Record Storage := {
  item : option jsstring;
  quota : nat
}.

Inductive DOMException := QuotaExceededError.

Definition getItem (ls : Storage) : option jsstring := item ls.

Definition setItem (text : jsstring) (ls : Storage) : Storage + DOMException :=
  if List.length text <=? quota ls
  then inl {| item := Some text; quota := quota ls |}
  else inr QuotaExceededError.

(** The promise [saveToLocalStorage] returns is settled by the time the
    call returns. *)
Inductive Promise := resolved | rejected (reason : DOMException).

(** Lines 41-50. *)
Definition saveToLocalStorage (questions : list object) (ls : Storage)
  : Promise * Storage :=
  match setItem (JSON_stringify (array questions)) ls with
  | inl ls' => (resolved, ls')
  | inr error => (rejected error, ls)
  end.

(** What a call of [loadFromLocalStorage] does: return the value
    [JSON.parse] built, or the empty array, or let the SyntaxError of
    [JSON.parse] through. *)
Inductive loaded :=
| Returns (v : value)
| Throws.

(** Lines 52-55. *)
Definition loadFromLocalStorage (ls : Storage) : loaded :=
  let savedQuestions := getItem ls in
  if truthy_opt savedQuestions then
    match savedQuestions with
    | Some text =>
      match JSON_parse text with
      | Some v => Returns v
      | None => Throws
      end
    | None => Returns (array [])
    end
  else Returns (array []).

(* ================================================================= *)
(** * The component [AddQuestionForm] *)

(** The [useState] cells (lines 58-68).  [expanded] has the type
    [string | false]; [None] is [false]. *)
Record State := {
  questions : list object;
  questionTitle : jsstring;
  questionType : jsstring;
  isRequired : bool;
  helperText : jsstring;
  additionalFields : object;
  showForm : bool;
  loading : bool;
  error : option jsstring;
  successMessage : option jsstring;
  expanded : option jsstring
}.

(** A call of a state setter.  A handler sees the cells of the render it
    was created in; what it sets shows in the next render. *)
Inductive setState :=
| setQuestions (v : list object)
| setQuestionTitle (v : jsstring)
| setQuestionType (v : jsstring)
| setIsRequired (v : bool)
| setHelperText (v : jsstring)
| setAdditionalFields (f : object -> object)
| setShowForm (v : bool)
| setLoading (v : bool)
| setError (v : option jsstring)
| setSuccessMessage (v : option jsstring)
| setExpanded (v : option jsstring).

Definition apply_setState (s : State) (u : setState) : State :=
  match u with
  | setQuestions v =>
    {| questions := v; questionTitle := questionTitle s;
       questionType := questionType s; isRequired := isRequired s;
       helperText := helperText s; additionalFields := additionalFields s;
       showForm := showForm s; loading := loading s; error := error s;
       successMessage := successMessage s; expanded := expanded s |}
  | setQuestionTitle v =>
    {| questions := questions s; questionTitle := v;
       questionType := questionType s; isRequired := isRequired s;
       helperText := helperText s; additionalFields := additionalFields s;
       showForm := showForm s; loading := loading s; error := error s;
       successMessage := successMessage s; expanded := expanded s |}
  | setQuestionType v =>
    {| questions := questions s; questionTitle := questionTitle s;
       questionType := v; isRequired := isRequired s;
       helperText := helperText s; additionalFields := additionalFields s;
       showForm := showForm s; loading := loading s; error := error s;
       successMessage := successMessage s; expanded := expanded s |}
  | setIsRequired v =>
    {| questions := questions s; questionTitle := questionTitle s;
       questionType := questionType s; isRequired := v;
       helperText := helperText s; additionalFields := additionalFields s;
       showForm := showForm s; loading := loading s; error := error s;
       successMessage := successMessage s; expanded := expanded s |}
  | setHelperText v =>
    {| questions := questions s; questionTitle := questionTitle s;
       questionType := questionType s; isRequired := isRequired s;
       helperText := v; additionalFields := additionalFields s;
       showForm := showForm s; loading := loading s; error := error s;
       successMessage := successMessage s; expanded := expanded s |}
  | setAdditionalFields f =>
    {| questions := questions s; questionTitle := questionTitle s;
       questionType := questionType s; isRequired := isRequired s;
       helperText := helperText s; additionalFields := f (additionalFields s);
       showForm := showForm s; loading := loading s; error := error s;
       successMessage := successMessage s; expanded := expanded s |}
  | setShowForm v =>
    {| questions := questions s; questionTitle := questionTitle s;
       questionType := questionType s; isRequired := isRequired s;
       helperText := helperText s; additionalFields := additionalFields s;
       showForm := v; loading := loading s; error := error s;
       successMessage := successMessage s; expanded := expanded s |}
  | setLoading v =>
    {| questions := questions s; questionTitle := questionTitle s;
       questionType := questionType s; isRequired := isRequired s;
       helperText := helperText s; additionalFields := additionalFields s;
       showForm := showForm s; loading := v; error := error s;
       successMessage := successMessage s; expanded := expanded s |}
  | setError v =>
    {| questions := questions s; questionTitle := questionTitle s;
       questionType := questionType s; isRequired := isRequired s;
       helperText := helperText s; additionalFields := additionalFields s;
       showForm := showForm s; loading := loading s; error := v;
       successMessage := successMessage s; expanded := expanded s |}
  | setSuccessMessage v =>
    {| questions := questions s; questionTitle := questionTitle s;
       questionType := questionType s; isRequired := isRequired s;
       helperText := helperText s; additionalFields := additionalFields s;
       showForm := showForm s; loading := loading s; error := error s;
       successMessage := v; expanded := expanded s |}
  | setExpanded v =>
    {| questions := questions s; questionTitle := questionTitle s;
       questionType := questionType s; isRequired := isRequired s;
       helperText := helperText s; additionalFields := additionalFields s;
       showForm := showForm s; loading := loading s; error := error s;
       successMessage := successMessage s; expanded := v |}
  end.

(** The cells of the next render. *)
Definition render (s : State) (updates : list setState) : State :=
  fold_left apply_setState updates s.

(** A handler: the setter calls it makes and what it does to the store. *)
Definition Handler := State -> Storage -> list setState * Storage.

(** The buffer of a blank form; [[]] is the object literal [{}]. *)
Definition reset_buffer : list setState :=
  [setQuestionTitle []; setQuestionType []; setIsRequired false;
   setHelperText []; setAdditionalFields (fun _ => [])].

(** Lines 70-80. *)
Definition handleAddQuestionClick : Handler := fun s ls =>
  if negb (List.length (questions s) =? 0) || negb (truthy_opt (error s)) then
    (reset_buffer ++ [setShowForm true; setExpanded None], ls)
  else ([], ls).

(** The three call sites of [handleAdditionalFields]: the property
    written and its value, a string of the select (lines 211-227) or the
    number [Number(e.target.value)] (lines 229-252). *)
Inductive FieldValue :=
| numberType_value (v : NumberType)
| min_value (v : number)
| max_value (v : number).

Definition field_key (fv : FieldValue) : jsstring :=
  match fv with
  | numberType_value _ => js "numberType"
  | min_value _ => js "min"
  | max_value _ => js "max"
  end.

Definition field_value (fv : FieldValue) : value :=
  match fv with
  | numberType_value v => JStr (NumberType_string v)
  | min_value v => JNum v
  | max_value v => JNum v
  end.

(** [{ ...prev, [field]: value }]. *)
Definition set_field (fv : FieldValue) (prev : object) : object :=
  spread prev [(field_key fv, field_value fv)].

(** Lines 82-84. *)
Definition handleAdditionalFields (fv : FieldValue) : Handler := fun s ls =>
  ([setAdditionalFields (set_field fv)], ls).

(** Lines 86-90.  The promise is dropped. *)
Definition handleDeleteQuestion (id : jsstring) : Handler := fun s ls =>
  let updatedQuestions :=
    filter (fun q => negb (same_string (Question_id q) id)) (questions s) in
  ([setQuestions updatedQuestions],
   snd (saveToLocalStorage updatedQuestions ls)).

Definition required_fields_message : jsstring :=
  js "Please fill in all required fields.".
Definition added_message : jsstring := js "Question added successfully.".
Definition updated_message : jsstring := js "Question updated successfully.".

(** The properties both branches of [handleSaveChanges] write from the
    buffer, in the order of the source. *)
Definition buffer_properties (s : State) : list (jsstring * value) :=
  [(js "title", JStr (questionTitle s));
   (js "type", JStr (questionType s));
   (js "required", JBool (isRequired s));
   (js "helperText", JStr (helperText s));
   (js "additionalFields", JObj (additionalFields s))].

(** The object literal of lines 100-107; [uuid] is what [uuidv4()]
    returns in this call. *)
Definition newQuestion (uuid : jsstring) (s : State) : object :=
  spread [] ((js "id", JStr uuid) :: buffer_properties s).

(** The function mapped over the list on lines 112-123. *)
Definition updatedQuestion (target : jsstring) (s : State) (q : object) : object :=
  if same_string (Question_id q) target
  then spread q (buffer_properties s)
  else q.

(** Lines 92-130.  The list handed to [saveToLocalStorage] on line 127 is
    [questions], the cell of the current render. *)
Definition handleSaveChanges (uuid : jsstring) : Handler := fun s ls =>
  if str_eqb (trim (questionTitle s)) [] || str_eqb (trim (questionType s)) []
  then ([setError (Some required_fields_message)], ls)
  else
    let updates :=
      match expanded s with
      | None =>
        [setQuestions (questions s ++ [newQuestion uuid s]);
         setSuccessMessage (Some added_message)]
      | Some target =>
        let updatedQuestions := map (updatedQuestion target s) (questions s) in
        [setQuestions updatedQuestions;
         setSuccessMessage (Some updated_message)]
      end in
    (updates ++ [setShowForm false; setExpanded None],
     snd (saveToLocalStorage (questions s) ls)).

(** Lines 132-147. *)
Definition handleAccordionChange (id : jsstring) (isExpanded : bool)
  (uuid : jsstring) : Handler := fun s ls =>
  if isExpanded then
    (setExpanded (Some id) ::
     match find (fun q => same_string (Question_id q) id) (questions s) with
     | Some questionToEdit =>
       [setQuestionTitle (Question_title questionToEdit);
        setQuestionType (Question_type questionToEdit);
        setIsRequired (Question_required questionToEdit);
        setHelperText (Question_helperText questionToEdit);
        setAdditionalFields (fun _ => Question_additionalFields questionToEdit);
        setShowForm false]
     | None => []
     end, ls)
  else handleSaveChanges uuid s ls.

(** The effect of lines 149-158. *)
Definition questionsEffect (s : State) : list setState :=
  if List.length (questions s) =? 0
  then reset_buffer ++ [setExpanded None]
  else [].

(** Every array the handlers pass to [setQuestions] is a new one, so
    the effect, which depends on [questions], runs after each render
    that follows a call of [setQuestions]. *)
Definition sets_questions (updates : list setState) : bool :=
  existsb (fun u => match u with setQuestions _ => true | _ => false end)
    updates.

(** One event: the handler runs, the component renders, the effect runs
    and the component renders again. *)
Definition dispatch (h : Handler) (w : State * Storage) : State * Storage :=
  let (s, ls) := w in
  let (updates, ls') := h s ls in
  let s1 := render s updates in
  (if sets_questions updates then render s1 (questionsEffect s1) else s1, ls').

(** The cells of the first render (lines 58-68). *)
Definition initialState (qs : list object) : State :=
  {| questions := qs; questionTitle := []; questionType := [];
     isRequired := false; helperText := [];
     additionalFields := []; showForm := false;
     loading := false; error := None; successMessage := None;
     expanded := None |}.

(** The first render on the list [qs], then the effect. *)
Definition first_render (qs : list object) : State :=
  let s := initialState qs in render s (questionsEffect s).

(** The component on the store [ls].  It is followed from a value of the
    declared type, [Question[]]: there is no first state here when the
    call of line 58 throws, or returns a value of another type. *)
Definition mount (ls : Storage) : option State :=
  match loadFromLocalStorage ls with
  | Returns v =>
    match as_Questions v with
    | Some qs => Some (first_render qs)
    | None => None
    end
  | Throws => None
  end.

(** Every render evaluates [loadFromLocalStorage()] again (line 58)
    and would fail if the call threw; the stores below are the ones
    where it does not. *)
Definition loads (ls : Storage) : Prop := loadFromLocalStorage ls <> Throws.

(** ** The operations of the controller *)

Definition startNewQuestion : State * Storage -> State * Storage :=
  dispatch handleAddQuestionClick.

Definition startEditQuestion (id : jsstring) : State * Storage -> State * Storage :=
  dispatch (handleAccordionChange id true []).

Definition commitEdit (uuid : jsstring) : State * Storage -> State * Storage :=
  dispatch (handleSaveChanges uuid).

Definition deleteQuestion (id : jsstring) : State * Storage -> State * Storage :=
  dispatch (handleDeleteQuestion id).

(** The calls the markup makes: one constructor for each handler it
    binds and for each setter it calls directly. *)
Inductive Event :=
| ClickAddQuestion
| ClickDelete (id : jsstring)
| ToggleAccordion (id : jsstring) (isExpanded : bool) (uuid : jsstring)
| ToggleNewForm (uuid : jsstring)
| ChangeTitle (v : jsstring)
| ChangeType (v : jsstring)
| ChangeRequired (v : bool)
| ChangeHelperText (v : jsstring)
| ChangeAdditionalField (fv : FieldValue)
| CloseError
| CloseSuccess.

Definition handler_of (e : Event) : Handler :=
  match e with
  | ClickAddQuestion => handleAddQuestionClick
  | ClickDelete id => handleDeleteQuestion id
  | ToggleAccordion id isExpanded uuid => handleAccordionChange id isExpanded uuid
  | ToggleNewForm uuid => handleSaveChanges uuid
  | ChangeTitle v => fun _ ls => ([setQuestionTitle v], ls)
  | ChangeType v => fun _ ls => ([setQuestionType v], ls)
  | ChangeRequired v => fun _ ls => ([setIsRequired v], ls)
  | ChangeHelperText v => fun _ ls => ([setHelperText v], ls)
  | ChangeAdditionalField fv => handleAdditionalFields fv
  | CloseError => fun _ ls => ([setError None], ls)
  | CloseSuccess => fun _ ls => ([setSuccessMessage None], ls)
  end.

Definition run (events : list Event) (w : State * Storage) : State * Storage :=
  fold_left (fun w e => dispatch (handler_of e) w) events w.

(** A buffer [commitEdit] accepts. *)
Definition valid_buffer (s : State) : Prop :=
  trim (questionTitle s) <> [] /\ trim (questionType s) <> [].

(** The panel of question [q] is drawn open (line 169). *)
Definition panel_open (s : State) (q : object) : bool :=
  match expanded s with
  | Some e => same_string (Question_id q) e
  | None => false
  end.

(** ** Sequences of edits

    Between two commits the user may bring the buffer and the open panel
    to anything the form lets them enter; an [Edit] is such a choice,
    with the id [uuidv4()] gives should the commit create a question. *)
Record Edit := {
  edit_target : option jsstring;
  edit_title : jsstring;
  edit_type : jsstring;
  edit_required : bool;
  edit_helperText : jsstring;
  edit_additionalFields : object;
  edit_uuid : jsstring
}.

Definition valid_edit (e : Edit) : Prop :=
  trim (edit_title e) <> [] /\ trim (edit_type e) <> [].

Definition load_edit (e : Edit) (s : State) : State :=
  {| questions := questions s; questionTitle := edit_title e;
     questionType := edit_type e; isRequired := edit_required e;
     helperText := edit_helperText e;
     additionalFields := edit_additionalFields e;
     showForm := showForm s; loading := loading s; error := error s;
     successMessage := successMessage s; expanded := edit_target e |}.

Definition commitEdits (es : list Edit) (w : State * Storage) : State * Storage :=
  fold_left (fun w e => commitEdit (edit_uuid e) (load_edit e (fst w), snd w))
    es w.

(** The ids of the questions a sequence of edits creates. *)
Definition created_ids (es : list Edit) : list (option value) :=
  flat_map (fun e => match edit_target e with
                     | None => [id_string (edit_uuid e)]
                     | Some _ => []
                     end) es.

(** ** What a commit that passes the check leaves behind *)

(** The list a successful commit puts in [questions]. *)
Definition committed (uuid : jsstring) (s : State) : list object :=
  match expanded s with
  | None => questions s ++ [newQuestion uuid s]
  | Some target => map (updatedQuestion target s) (questions s)
  end.

Definition commit_message (s : State) : jsstring :=
  match expanded s with None => added_message | Some _ => updated_message end.

(** The render that follows a successful commit, before the effect. *)
Definition committed_state (uuid : jsstring) (s : State) : State :=
  {| questions := committed uuid s; questionTitle := questionTitle s;
     questionType := questionType s; isRequired := isRequired s;
     helperText := helperText s; additionalFields := additionalFields s;
     showForm := false; loading := loading s; error := error s;
     successMessage := Some (commit_message s); expanded := None |}.

(* ================================================================= *)
(** * The value a text denotes

    What the proofs about [JSON_parse] are stated with. *)

(** What may come after a value inside an array or an object. *)
Definition follows (rest : jsstring) : Prop :=
  match rest with
  | [] => True
  | c :: _ => c = ch "," \/ c = ch "}" \/ c = ch "]"
  end.

(** [text] is read as the value [v] with any fuel from [n] on. *)
Definition reads (n : nat) (text : jsstring) (v : value) : Prop :=
  forall f rest, n <= f -> follows rest ->
  parse_value f (text ++ rest) = Parsed v rest.

(** The text [JSON_stringify] writes for a property. *)
Definition member_text (p : jsstring * value) : jsstring :=
  QuoteJSONString (fst p) ++ ch ":" :: JSON_stringify (snd p).

(** The member [JSON_parse] reads from it. *)
Definition member_value (p : jsstring * value) : jsstring * value :=
  (fst p, normalise (snd p)).

Definition member_reads (n : nat) (p : jsstring * value) : Prop :=
  reads n (JSON_stringify (snd p)) (normalise (snd p)).

(* ================================================================= *)
(** * Worlds and edits used as examples *)

Definition empty_store : Storage := {| item := None; quota := 4096 |}.
Definition full_store : Storage := {| item := None; quota := 0 |}.

(** The form filled with a title and a type, on a first visit. *)
Definition name_typed (ls : Storage) : State * Storage :=
  run [ChangeTitle (js "Name"); ChangeType (js "text")] (initialState [], ls).

(** Two commits on a first visit: a question is created, then edited. *)
Definition create_name : Edit :=
  {| edit_target := None; edit_title := js "Name"; edit_type := js "text";
     edit_required := false; edit_helperText := [];
     edit_additionalFields := []; edit_uuid := js "X" |}.

Definition require_name : Edit :=
  {| edit_target := Some (js "X"); edit_title := js "Name";
     edit_type := js "text"; edit_required := true; edit_helperText := [];
     edit_additionalFields := []; edit_uuid := js "Y" |}.

(** The numbers 0 and 10. *)
Definition zero : number := numeral_value (js "0").
Definition ten : number := numeral_value (js "10").

Definition two_questions : list object :=
  [[(js "id", JStr (js "A")); (js "title", JStr (js "Name"));
    (js "type", JStr (js "text")); (js "required", JBool false);
    (js "helperText", JStr [])];
   [(js "id", JStr (js "B")); (js "title", JStr (js "Age"));
    (js "type", JStr (js "number")); (js "required", JBool true);
    (js "additionalFields",
     JObj [(js "numberType", JStr (js "integer"));
           (js "min", JNum zero); (js "max", JNum ten)])]].

(** A question that was stored without a helper text and edited since,
    its bounds entered maximum first. *)
Definition edited_question : object :=
  [(js "id", JStr (js "B")); (js "title", JStr (js "Age"));
   (js "type", JStr (js "number")); (js "required", JBool true);
   (js "additionalFields",
    JObj [(js "max", JNum ten); (js "min", JNum zero)]);
   (js "helperText", JStr (js "in years"))].

(** A question whose lower bound is NaN. *)
Definition unbounded_question : object :=
  [(js "id", JStr (js "C")); (js "title", JStr (js "Size"));
   (js "type", JStr (js "number")); (js "required", JBool false);
   (js "helperText", JStr []);
   (js "additionalFields", JObj [(js "min", JNum NaN)])].

(** A question whose lower bound is the negative zero, as [Number]
    gives it for the input [-0]. *)
Definition negative_zero : number := numeral_value (js "-0").

Definition signed_question : object :=
  [(js "id", JStr (js "D")); (js "title", JStr (js "Offset"));
   (js "type", JStr (js "number")); (js "required", JBool false);
   (js "helperText", JStr []);
   (js "additionalFields", JObj [(js "min", JNum negative_zero)])].

(** Two questions are created, the panel of the first is opened. *)
Definition editing_first_of_two : State * Storage :=
  run [ChangeTitle (js "Name"); ChangeType (js "text"); ToggleNewForm (js "A");
       ClickAddQuestion;
       ChangeTitle (js "Age"); ChangeType (js "number"); ToggleNewForm (js "B");
       ToggleAccordion (js "A") true []]
      (initialState [], empty_store).

(** Two questions, the panel of the first one open. *)
Definition first_panel_open : State :=
  apply_setState (initialState two_questions) (setExpanded (Some (js "A"))).

(** What [startNewQuestion] is to do, from [w] to [w']. *)
Definition starts_blank_form (w w' : State * Storage) : Prop :=
  questionTitle (fst w') = [] /\ questionType (fst w') = []
  /\ isRequired (fst w') = false /\ helperText (fst w') = []
  /\ additionalFields (fst w') = []
  /\ expanded (fst w') = None /\ showForm (fst w') = true
  /\ questions (fst w') = questions (fst w) /\ snd w' = snd w.

(** On a first visit the blank form is collapsed, which raises the
    error, and a title is typed. *)
Definition error_shown_on_empty_list : State * Storage :=
  run [ToggleNewForm (js "X"); ChangeTitle (js "Draft")]
      (initialState [], empty_store).

(** The panel of a question that is no longer in the list. *)
Definition editing_missing : State :=
  load_edit
    {| edit_target := Some (js "Z"); edit_title := js "Name";
       edit_type := js "text"; edit_required := false; edit_helperText := [];
       edit_additionalFields := []; edit_uuid := [] |}
    (initialState two_questions).

(* ================================================================= *)
(** * The markup and runs of calls *)

(** The blank form is in the markup (line 281). *)
Definition newFormShown (s : State) : bool :=
  showForm s || (List.length (questions s) =? 0).

(** The button that calls [handleAddQuestionClick] is in the markup
    (line 369). *)
Definition addButtonShown (s : State) : bool :=
  negb (truthy_opt (expanded s)).

Definition has_id (qs : list object) (id : jsstring) : bool :=
  existsb (fun q => same_string (Question_id q) id) qs.

(** The element that makes the call is in the markup of the render: a
    panel and its delete button for each question of the list
    (lines 166-185), the blank form and the button under their
    conditions.  There is a field to type in in every render, and the
    two notifications are taken as closable at any time. *)
Definition bound (s : State) (e : Event) : bool :=
  match e with
  | ClickAddQuestion => addButtonShown s
  | ClickDelete id => has_id (questions s) id
  | ToggleAccordion id _ _ => has_id (questions s) id
  | ToggleNewForm _ => newFormShown s
  | _ => true
  end.

(** The id [uuidv4()] gives in a call that can create a question is not
    an id of the list. *)
Definition fresh (s : State) (e : Event) : bool :=
  match e with
  | ToggleAccordion _ false uuid => negb (has_id (questions s) uuid)
  | ToggleNewForm uuid => negb (has_id (questions s) uuid)
  | _ => true
  end.

(** Every call of a run passes the test in the world it is made in. *)
Fixpoint steps (ok : State -> Event -> bool) (events : list Event)
  (w : State * Storage) : bool :=
  match events with
  | [] => true
  | e :: events' =>
    ok (fst w) e && steps ok events' (dispatch (handler_of e) w)
  end.

(** A question with both optional properties, as [handleSaveChanges]
    writes them. *)
Definition complete (q : object) : bool :=
  match get (js "helperText") q, get (js "additionalFields") q with
  | Some (JStr _), Some (JObj _) => true
  | _, _ => false
  end.

(** No panel is asked for while the blank form is, nor on an empty
    list. *)
Definition settled (s : State) : Prop :=
  (showForm s = true -> expanded s = None)
  /\ (questions s = [] -> expanded s = None).

(** ** Invariants of the renders

    [Q] holds of every question and [A] of the buffer object. *)
Definition invariant (Q A : object -> bool) (s : State) : bool :=
  forallb Q (questions s) && A (additionalFields s).

(** A setter call that keeps it so. *)
Definition keeps (Q A : object -> bool) (u : setState) : Prop :=
  match u with
  | setQuestions v => forallb Q v = true
  | setAdditionalFields f => forall o, A o = true -> A (f o) = true
  | _ => True
  end.

(** The questions and the buffer object are objects as JavaScript has
    them. *)
Definition is_object (o : object) : bool := well_formed (JObj o).
Definition objects : State -> bool := invariant is_object is_object.

(** The questions have the type [Question] and the buffer object the
    type [AdditionalFields]: the component is in a state of its declared
    types, where the reads of the handlers are the ones modelled. *)
Definition typed : State -> bool := invariant is_Question is_AdditionalFields.

(** The calls that hand a list to [setQuestions] or to the store. *)
Definition commits_or_deletes (e : Event) : bool :=
  match e with
  | ClickDelete _ => true
  | ToggleNewForm _ => true
  | ToggleAccordion _ isExpanded _ => negb isExpanded
  | _ => false
  end.

(** One question, as a commit writes it. *)
Definition one_question : list object :=
  [[(js "id", JStr (js "X")); (js "title", JStr (js "Name"));
    (js "type", JStr (js "text")); (js "required", JBool false);
    (js "helperText", JStr []); (js "additionalFields", JObj [])]].

(** A first visit, a question created, the button clicked. *)
Definition create_then_add : list Event :=
  [ChangeTitle (js "Name"); ChangeType (js "text"); ToggleNewForm (js "A");
   ClickAddQuestion].

(** Two questions created, the first one deleted. *)
Definition create_two_delete_one : list Event :=
  [ChangeTitle (js "Name"); ChangeType (js "text"); ToggleNewForm (js "A");
   ClickAddQuestion;
   ChangeTitle (js "Age"); ChangeType (js "number"); ToggleNewForm (js "B");
   ClickDelete (js "A")].
Ltac Zify.zify_post_hook ::= Z.to_euclidean_division_equations.

(** Case analysis on every comparison of code units in the goal. *)
Ltac split_tests :=
  repeat (match goal with
          | |- context [N.eqb ?a ?b] => destruct (N.eqb_spec a b)
          | |- context [N.leb ?a ?b] => destruct (N.leb_spec a b)
          | |- context [N.ltb ?a ?b] => destruct (N.ltb_spec a b)
          end; cbn [andb orb negb]; cbv iota).

Lemma str_eqb_eq (a b : jsstring) : str_eqb a b = true <-> a = b.
Proof.
  revert b; induction a as [|x a IH]; intros [|y b]; simpl;
    try (split; congruence).
  rewrite andb_true_iff, N.eqb_eq, IH. split.
  - intros [-> ->]; reflexivity.
  - intros H; injection H; auto.
Qed.

Lemma str_eqb_refl (a : jsstring) : str_eqb a a = true.
Proof. apply str_eqb_eq; reflexivity. Qed.

Lemma str_eqb_neq (a b : jsstring) : str_eqb a b = false <-> a <> b.
Proof.
  rewrite <- str_eqb_eq. destruct (str_eqb a b); split; congruence.
Qed.

Lemma str_eqb_nil (a : jsstring) : str_eqb a [] = true <-> a = [].
Proof. apply str_eqb_eq. Qed.

Lemma hex_value_digit (d : N) : (d < 16)%N -> hex_value (hex_digit d) = Some d.
Proof.
  intros H. unfold hex_value, hex_digit.
  destruct (N.ltb_spec d 10); split_tests; try lia; f_equal; lia.
Qed.

Lemma hex4_escape (c : N) :
  (c < 65536)%N ->
  hex4 (hex_digit ((c / 4096) mod 16)) (hex_digit ((c / 256) mod 16))
       (hex_digit ((c / 16) mod 16)) (hex_digit (c mod 16)) = Some c.
Proof.
  intros H. unfold hex4.
  rewrite !hex_value_digit by (apply N.mod_lt; discriminate).
  f_equal. lia.
Qed.

Lemma parse_chars_UnicodeEscape (c : N) (tail : jsstring) :
  (c < 65536)%N ->
  parse_chars (UnicodeEscape c ++ tail) = cons_fst c (parse_chars tail).
Proof.
  intros H. unfold UnicodeEscape.
  change (parse_chars
            ([ch "\"; ch "u"; hex_digit ((c / 4096) mod 16);
              hex_digit ((c / 256) mod 16); hex_digit ((c / 16) mod 16);
              hex_digit (c mod 16)] ++ tail))
    with (match hex4 (hex_digit ((c / 4096) mod 16))
                 (hex_digit ((c / 256) mod 16))
                 (hex_digit ((c / 16) mod 16)) (hex_digit (c mod 16)) with
          | Some u => cons_fst u (parse_chars tail)
          | None => None
          end).
  rewrite hex4_escape by assumption. reflexivity.
Qed.

Lemma surrogate_bound (c : N) :
  is_high_surrogate c = true \/ is_low_surrogate c = true -> (c < 65536)%N.
Proof.
  unfold is_high_surrogate, is_low_surrogate.
  rewrite !andb_true_iff, !N.leb_le. lia.
Qed.

Lemma parse_chars_raw (c : N) (tail : jsstring) :
  c <> quotation_mark -> c <> ch "\" -> (32 <= c)%N ->
  parse_chars (c :: tail) = cons_fst c (parse_chars tail).
Proof.
  intros H1 H2 H3. unfold quotation_mark in *. change (ch "\") with 92%N in *.
  cbn [parse_chars]. unfold quotation_mark. change (ch "\") with 92%N.
  split_tests; try lia; reflexivity.
Qed.

Lemma parse_chars_quote_unit (c : N) (tail : jsstring) :
  parse_chars (quote_unit c ++ tail) = cons_fst c (parse_chars tail).
Proof.
  unfold quote_unit.
  destruct (N.eqb_spec c 8); [subst; reflexivity|].
  destruct (N.eqb_spec c 9); [subst; reflexivity|].
  destruct (N.eqb_spec c 10); [subst; reflexivity|].
  destruct (N.eqb_spec c 12); [subst; reflexivity|].
  destruct (N.eqb_spec c 13); [subst; reflexivity|].
  destruct (N.eqb_spec c quotation_mark); [subst; reflexivity|].
  destruct (N.eqb_spec c (ch "\")); [subst; reflexivity|].
  destruct (N.ltb_spec c 32); simpl orb.
  - apply parse_chars_UnicodeEscape. lia.
  - destruct (is_high_surrogate c) eqn:Hh; simpl orb.
    + apply parse_chars_UnicodeEscape, surrogate_bound; auto.
    + destruct (is_low_surrogate c) eqn:Hl.
      * apply parse_chars_UnicodeEscape, surrogate_bound; auto.
      * apply parse_chars_raw; assumption.
Qed.

Lemma surrogate_raw (c : N) :
  is_high_surrogate c = true \/ is_low_surrogate c = true ->
  c <> quotation_mark /\ c <> ch "\" /\ (32 <= c)%N.
Proof.
  unfold is_high_surrogate, is_low_surrogate, quotation_mark.
  rewrite !andb_true_iff, !N.leb_le. change (ch "\") with 92%N. lia.
Qed.

Lemma parse_chars_quote_units_bounded (n : nat) :
  forall s rest, List.length s <= n ->
  parse_chars (quote_units s ++ quotation_mark :: rest) = Some (s, rest).
Proof.
  induction n as [|n IH]; intros [|c t] rest Hn; simpl in Hn;
    try reflexivity; try lia.
  cbn [quote_units].
  destruct (is_high_surrogate c) eqn:Hc.
  - destruct t as [|d t'].
    + rewrite parse_chars_UnicodeEscape by (apply surrogate_bound; auto).
      reflexivity.
    + destruct (is_low_surrogate d) eqn:Hd.
      * cbn [app].
        destruct (@surrogate_raw c) as (? & ? & ?); auto.
        destruct (@surrogate_raw d) as (? & ? & ?); auto.
        rewrite !parse_chars_raw by assumption.
        rewrite IH by (simpl in Hn; lia). reflexivity.
      * rewrite <- app_assoc.
        rewrite parse_chars_UnicodeEscape by (apply surrogate_bound; auto).
        rewrite IH by lia. reflexivity.
  - rewrite <- app_assoc, parse_chars_quote_unit, IH by lia. reflexivity.
Qed.

(** A quoted string is read back as the string it quotes. *)
Lemma parse_chars_quote_units (s rest : jsstring) :
  parse_chars (quote_units s ++ quotation_mark :: rest) = Some (s, rest).
Proof. apply (@parse_chars_quote_units_bounded (List.length s)); lia. Qed.

(* ================================================================= *)
(** * Facts about numerals *)

Unset Implicit Arguments.

Lemma follows_cases (rest : jsstring) :
  follows rest ->
  rest = [] \/ exists c t, rest = c :: t /\ (c = 44 \/ c = 125 \/ c = 93)%N.
Proof.
  destruct rest as [|c t]; [left; reflexivity|].
  intros H. right. exists c, t. split; [reflexivity|exact H].
Qed.

Lemma span_digits_split (s : jsstring) :
  fst (span_digits s) ++ snd (span_digits s) = s.
Proof.
  induction s as [|c t IH]; [reflexivity|].
  cbn [span_digits]. destruct (is_digit c); [|reflexivity].
  destruct (span_digits t) as [d r]. cbn [fst snd app] in *. congruence.
Qed.

Lemma span_digits_app (s rest : jsstring) :
  follows rest ->
  span_digits (s ++ rest) = (fst (span_digits s), snd (span_digits s) ++ rest).
Proof.
  intros H. induction s as [|c t IH].
  - destruct (follows_cases rest H) as [->|(c & t & -> & [->| [->| ->]])];
      reflexivity.
  - cbn [app span_digits]. destruct (is_digit c); [|reflexivity].
    rewrite IH. destruct (span_digits t) as [d r]. reflexivity.
Qed.

Lemma scan_fraction_split (s f r : jsstring) :
  scan_fraction s = Some (f, r) -> s = f ++ r.
Proof.
  destruct s as [|c t]; cbn [scan_fraction].
  - intros E; injection E as <- <-; reflexivity.
  - destruct (c =? ch ".")%N.
    + pose proof (span_digits_split t) as S.
      destruct (span_digits t) as [[|d ds] r']; [discriminate|].
      intros E; injection E as <- <-. cbn [fst snd app] in *. congruence.
    + intros E; injection E as <- <-; reflexivity.
Qed.

Lemma scan_fraction_app (s f r rest : jsstring) :
  follows rest -> scan_fraction s = Some (f, r) ->
  scan_fraction (s ++ rest) = Some (f, r ++ rest).
Proof.
  intros H. destruct s as [|c t]; cbn [scan_fraction app].
  - intros E; injection E as <- <-.
    destruct (follows_cases rest H) as [->|(c & t & -> & [->| [->| ->]])];
      reflexivity.
  - destruct (c =? ch ".")%N.
    + rewrite span_digits_app by assumption.
      destruct (span_digits t) as [[|d ds] r']; [discriminate|].
      cbn [fst snd]. intros E; injection E as <- <-; reflexivity.
    + intros E; injection E as <- <-; reflexivity.
Qed.

Lemma scan_sign_split (s : jsstring) : fst (scan_sign s) ++ snd (scan_sign s) = s.
Proof.
  destruct s as [|c t]; [reflexivity|]. cbn [scan_sign].
  destruct ((c =? ch "-") || (c =? ch "+"))%N; reflexivity.
Qed.

Lemma scan_exponent_split (s x r : jsstring) :
  scan_exponent s = Some (x, r) -> s = x ++ r.
Proof.
  destruct s as [|c t]; cbn [scan_exponent].
  - intros E; injection E as <- <-; reflexivity.
  - destruct ((c =? ch "e") || (c =? ch "E"))%N.
    + pose proof (scan_sign_split t) as S1.
      destruct (scan_sign t) as [sign t'].
      pose proof (span_digits_split t') as S2.
      destruct (span_digits t') as [[|d ds] r']; [discriminate|].
      intros E; injection E as <- <-. cbn [fst snd] in *.
      cbn [app]. rewrite <- app_assoc, S2, S1. reflexivity.
    + intros E; injection E as <- <-; reflexivity.
Qed.

Lemma scan_exponent_app (s x r rest : jsstring) :
  follows rest -> scan_exponent s = Some (x, r) ->
  scan_exponent (s ++ rest) = Some (x, r ++ rest).
Proof.
  intros H. destruct s as [|c t]; cbn [scan_exponent app].
  - intros E; injection E as <- <-.
    destruct (follows_cases rest H) as [->|(c & t & -> & [->| [->| ->]])];
      reflexivity.
  - destruct ((c =? ch "e") || (c =? ch "E"))%N.
    + destruct t as [|c' t'].
      * cbn [scan_sign span_digits]. discriminate.
      * cbn [scan_sign app].
        destruct ((c' =? ch "-") || (c' =? ch "+"))%N.
        -- rewrite span_digits_app by assumption.
           destruct (span_digits t') as [[|d ds] r']; [discriminate|].
           cbn [fst snd]. intros E; injection E as <- <-; reflexivity.
        -- change (c' :: t' ++ rest) with ((c' :: t') ++ rest).
           rewrite span_digits_app by assumption.
           destruct (span_digits (c' :: t')) as [[|d ds] r']; [discriminate|].
           cbn [fst snd]. intros E; injection E as <- <-; reflexivity.
    + intros E; injection E as <- <-; reflexivity.
Qed.

Lemma scan_minus_split (s : jsstring) : fst (scan_minus s) ++ snd (scan_minus s) = s.
Proof.
  destruct s as [|c t]; [reflexivity|]. cbn [scan_minus].
  destruct (c =? ch "-")%N; reflexivity.
Qed.

Lemma scan_number_split (s lexeme r : jsstring) :
  scan_number s = Some (lexeme, r) -> s = lexeme ++ r.
Proof.
  unfold scan_number.
  pose proof (scan_minus_split s) as S1.
  destruct (scan_minus s) as [minus s1].
  pose proof (span_digits_split s1) as S2.
  destruct (span_digits s1) as [[|d i'] s2]; [discriminate|].
  destruct ((d =? ch "0")%N && match i' with [] => false | _ :: _ => true end);
    [discriminate|].
  destruct (scan_fraction s2) as [[f s3]|] eqn:F; [|discriminate].
  destruct (scan_exponent s3) as [[x s4]|] eqn:X; [|discriminate].
  intros E; injection E as <- <-. cbn [fst snd] in *.
  apply scan_fraction_split in F. apply scan_exponent_split in X.
  subst. rewrite <- ?app_assoc. cbn [app]. rewrite <- ?app_assoc. reflexivity.
Qed.

Lemma scan_number_app (s lexeme r rest : jsstring) :
  follows rest -> scan_number s = Some (lexeme, r) ->
  scan_number (s ++ rest) = Some (lexeme, r ++ rest).
Proof.
  intros H. unfold scan_number.
  destruct s as [|c t].
  - cbn [scan_minus span_digits]. discriminate.
  - cbn [scan_minus app]. destruct (c =? ch "-")%N.
    + rewrite span_digits_app by assumption.
      destruct (span_digits t) as [[|d i'] s2]; [discriminate|]. cbn [fst snd].
      destruct ((d =? ch "0")%N && match i' with [] => false | _ :: _ => true end);
        [discriminate|].
      destruct (scan_fraction s2) as [[f s3]|] eqn:F; [|discriminate].
      rewrite (scan_fraction_app _ _ _ _ H F).
      destruct (scan_exponent s3) as [[x s4]|] eqn:X; [|discriminate].
      rewrite (scan_exponent_app _ _ _ _ H X).
      intros E; injection E as <- <-; reflexivity.
    + change (c :: t ++ rest) with ((c :: t) ++ rest).
      rewrite span_digits_app by assumption.
      destruct (span_digits (c :: t)) as [[|d i'] s2]; [discriminate|]. cbn [fst snd].
      destruct ((d =? ch "0")%N && match i' with [] => false | _ :: _ => true end);
        [discriminate|].
      destruct (scan_fraction s2) as [[f s3]|] eqn:F; [|discriminate].
      rewrite (scan_fraction_app _ _ _ _ H F).
      destruct (scan_exponent s3) as [[x s4]|] eqn:X; [|discriminate].
      rewrite (scan_exponent_app _ _ _ _ H X).
      intros E; injection E as <- <-; reflexivity.
Qed.

(** A numeral followed by a comma or a bracket is scanned whole. *)
Lemma scan_numeral (s rest : jsstring) :
  is_numeral s = true -> follows rest -> scan_number (s ++ rest) = Some (s, rest).
Proof.
  unfold is_numeral. intros N H.
  destruct (scan_number s) as [[lexeme [|c r]]|] eqn:E; try discriminate.
  pose proof (scan_number_split _ _ _ E) as S. rewrite app_nil_r in S. subst lexeme.
  apply (scan_number_app _ _ _ _ H E).
Qed.

Lemma span_digits_head (s : jsstring) d i r :
  span_digits s = (d :: i, r) -> exists t, s = d :: t /\ is_digit d = true.
Proof.
  destruct s as [|c t]; cbn [span_digits]; [discriminate|].
  destruct (is_digit c) eqn:D; [|discriminate].
  destruct (span_digits t). intros E; injection E as <- <- <-.
  exists t; split; [reflexivity|exact D].
Qed.

Lemma numeral_head (s : jsstring) :
  is_numeral s = true ->
  exists c t, s = c :: t /\ (c = ch "-" \/ is_digit c = true).
Proof.
  unfold is_numeral, scan_number. destruct s as [|c t].
  - cbn. discriminate.
  - intros N. exists c, t. split; [reflexivity|].
    cbn [scan_minus] in N. destruct (N.eqb_spec c (ch "-")); [left; assumption|].
    right. destruct (span_digits (c :: t)) as [[|d i'] s2] eqn:E; [discriminate|].
    destruct (span_digits_head _ _ _ _ E) as (t' & Et & D). injection Et as -> _. exact D.
Qed.

(* ================================================================= *)
(** * Facts about objects *)

Lemma value_induction (P : value -> Prop) :
  P JNull -> (forall b, P (JBool b)) -> (forall x, P (JNum x)) ->
  (forall s, P (JStr s)) ->
  (forall l, Forall P l -> P (JArr l)) ->
  (forall ps, Forall (fun p => P (snd p)) ps -> P (JObj ps)) ->
  forall v, P v.
Proof.
  intros HN HB HX HS HA HO. fix IH 1. intros [| b | x | s | l | ps].
  - exact HN.
  - apply HB.
  - apply HX.
  - apply HS.
  - apply HA. induction l as [|v l IHl]; constructor; [apply IH|exact IHl].
  - apply HO. induction ps as [|[k v] ps IHps]; constructor; [apply IH|exact IHps].
Qed.


Lemma str_eqb_sym (a b : jsstring) : str_eqb a b = str_eqb b a.
Proof.
  destruct (str_eqb a b) eqn:E.
  - apply str_eqb_eq in E. subst. symmetry. apply str_eqb_refl.
  - symmetry. apply str_eqb_neq. apply str_eqb_neq in E. congruence.
Qed.

Lemma get_app_absent (k : jsstring) (o o' : object) :
  get k o = None -> get k (o ++ o') = get k o'.
Proof.
  induction o as [|[k1 v1] t IH]; [reflexivity|].
  cbn [get app]. destruct (str_eqb k1 k); [discriminate|exact IH].
Qed.

Lemma get_app_present (k : jsstring) (o o' : object) (v : value) :
  get k o = Some v -> get k (o ++ o') = Some v.
Proof.
  induction o as [|[k1 v1] t IH]; [discriminate|].
  cbn [get app]. destruct (str_eqb k1 k); [auto|exact IH].
Qed.

Lemma get_absent (k : jsstring) (o : object) :
  (forall p, In p o -> str_eqb (fst p) k = false) -> get k o = None.
Proof.
  induction o as [|[k1 v1] t IH]; [reflexivity|]. intros H.
  cbn [get]. pose proof (H (k1, v1) (or_introl eq_refl)) as E.
  cbn [fst] in E. rewrite E.
  apply IH. intros p Hp. apply H. right; exact Hp.
Qed.

Lemma get_absent_in (k : jsstring) (o : object) :
  get k o = None -> forall p, In p o -> str_eqb (fst p) k = false.
Proof.
  induction o as [|[k1 v1] t IH]; [intros _ p []|].
  cbn [get]. destruct (str_eqb k1 k) eqn:E; [discriminate|].
  intros H p [<-|Hp]; [exact E|exact (IH H p Hp)].
Qed.

Lemma has_key_false (k : jsstring) (o : object) :
  has_key k o = false <-> get k o = None.
Proof. unfold has_key. destruct (get k o); split; congruence. Qed.

Lemma get_overwrite_same (k : jsstring) (v : value) (o : object) :
  has_key k o = true -> get k (overwrite k v o) = Some v.
Proof.
  unfold has_key. induction o as [|[k1 v1] t IH]; [discriminate|].
  cbn [get overwrite]. destruct (str_eqb k1 k) eqn:E.
  - intros _. cbn [get]. rewrite E. reflexivity.
  - intros H. cbn [get]. rewrite E. exact (IH H).
Qed.

Lemma get_overwrite_other (k k' : jsstring) (v : value) (o : object) :
  k <> k' -> get k (overwrite k' v o) = get k o.
Proof.
  intros N. induction o as [|[k1 v1] t IH]; [reflexivity|].
  cbn [get overwrite]. destruct (str_eqb k1 k') eqn:E.
  - apply str_eqb_eq in E. subst k1. cbn [get].
    rewrite (proj2 (str_eqb_neq k' k)) by congruence. reflexivity.
  - cbn [get]. destruct (str_eqb k1 k); [reflexivity|exact IH].
Qed.

Lemma overwrite_same (k : jsstring) (v : value) (o : object) :
  get k o = Some v -> overwrite k v o = o.
Proof.
  induction o as [|[k1 v1] t IH]; [reflexivity|].
  cbn [get overwrite]. destruct (str_eqb k1 k).
  - intros E; injection E as ->; reflexivity.
  - intros E. rewrite (IH E). reflexivity.
Qed.

Lemma get_insert_index_same (n : N) (k : jsstring) (v : value) (o : object) :
  get k o = None -> get k (insert_index n k v o) = Some v.
Proof.
  induction o as [|[k1 v1] t IH].
  - intros _. cbn [insert_index get]. rewrite str_eqb_refl. reflexivity.
  - cbn [get insert_index]. destruct (str_eqb k1 k) eqn:E; [discriminate|].
    intros H. destruct (array_index k1) as [n'|].
    + destruct (n' <? n)%N.
      * cbn [get]. rewrite E. exact (IH H).
      * cbn [get]. rewrite str_eqb_refl. reflexivity.
    + cbn [get]. rewrite str_eqb_refl. reflexivity.
Qed.

Lemma get_insert_index_other (n : N) (k k' : jsstring) (v : value) (o : object) :
  k <> k' -> get k (insert_index n k' v o) = get k o.
Proof.
  intros N. assert (E : str_eqb k' k = false) by (apply str_eqb_neq; congruence).
  induction o as [|[k1 v1] t IH].
  - cbn [insert_index get]. rewrite E. reflexivity.
  - cbn [insert_index]. destruct (array_index k1) as [n'|].
    + destruct (n' <? n)%N.
      * cbn [get]. destruct (str_eqb k1 k); [reflexivity|exact IH].
      * cbn [get]. rewrite E. reflexivity.
    + cbn [get]. rewrite E. reflexivity.
Qed.

(** A property that was defined is read back. *)
Lemma get_define_same (k : jsstring) (v : value) (o : object) :
  get k (define k v o) = Some v.
Proof.
  unfold define. destruct (has_key k o) eqn:H.
  - apply get_overwrite_same, H.
  - apply has_key_false in H. destruct (array_index k) as [n|].
    + apply get_insert_index_same, H.
    + rewrite (get_app_absent k o [(k, v)] H). cbn [get].
      rewrite str_eqb_refl. reflexivity.
Qed.

(** Defining a property leaves the others as they are. *)
Lemma get_define_other (k k' : jsstring) (v : value) (o : object) :
  k <> k' -> get k (define k' v o) = get k o.
Proof.
  intros N. unfold define. destruct (has_key k' o).
  - apply get_overwrite_other, N.
  - destruct (array_index k') as [n|].
    + apply get_insert_index_other, N.
    + destruct (get k o) as [w|] eqn:G.
      * apply get_app_present, G.
      * rewrite (get_app_absent k o _ G). cbn [get].
        rewrite (proj2 (str_eqb_neq k' k)) by congruence. reflexivity.
Qed.

(** Writing the value a property has changes nothing. *)
Lemma define_same (k : jsstring) (v : value) (o : object) :
  get k o = Some v -> define k v o = o.
Proof.
  intros G. unfold define, has_key. rewrite G. apply overwrite_same, G.
Qed.

Lemma insert_index_last (n : N) (k : jsstring) (v : value) (o : object) :
  array_index k = Some n ->
  (forall p, In p o -> comes_before (fst p) k = true) ->
  insert_index n k v o = o ++ [(k, v)].
Proof.
  intros Hk. induction o as [|[k1 v1] t IH]; [reflexivity|]. intros H.
  cbn [insert_index app].
  pose proof (H (k1, v1) (or_introl eq_refl)) as B.
  unfold comes_before in B. cbn [fst] in B. rewrite Hk in B.
  destruct (array_index k1) as [n1|]; [|discriminate].
  rewrite B. f_equal. apply IH. intros p Hp. apply H. right; exact Hp.
Qed.

(** A key that may stand after all the others is defined at the end. *)
Lemma define_last (k : jsstring) (v : value) (o : object) :
  (forall p, In p o -> str_eqb (fst p) k = false /\ comes_before (fst p) k = true) ->
  define k v o = o ++ [(k, v)].
Proof.
  intros H. unfold define.
  rewrite (proj2 (has_key_false k o)) by (apply get_absent; intros p Hp; apply H, Hp).
  destruct (array_index k) as [n|] eqn:E; [|reflexivity].
  apply insert_index_last; [exact E|]. intros p Hp. apply H, Hp.
Qed.

Lemma ordered_app (o o' : object) :
  ordered (o ++ o') = true ->
  forall p q, In p o -> In q o' ->
  str_eqb (fst p) (fst q) = false /\ comes_before (fst p) (fst q) = true.
Proof.
  induction o as [|[k1 v1] t IH]; [intros _ p q []|].
  cbn [app ordered]. rewrite !andb_true_iff, negb_true_iff, forallb_forall.
  intros [[K B] O] p q [<-|Hp] Hq.
  - cbn [fst]. split.
    + rewrite str_eqb_sym.
      apply (get_absent_in k1 (t ++ o') (proj1 (has_key_false _ _) K)).
      apply in_or_app; right; exact Hq.
    + apply (B q). apply in_or_app; right; exact Hq.
  - exact (IH O p q Hp Hq).
Qed.

Lemma spread_ordered (l o : object) :
  ordered (o ++ l) = true -> spread o l = o ++ l.
Proof.
  revert o. induction l as [|[k v] l IH]; intros o H.
  - cbn. rewrite app_nil_r. reflexivity.
  - unfold spread. cbn [fold_left fst snd].
    rewrite define_last.
    + change (spread (o ++ [(k, v)]) l = o ++ (k, v) :: l).
      rewrite IH; rewrite <- app_assoc; [reflexivity|exact H].
    + intros p Hp. exact (ordered_app o ((k, v) :: l) H p (k, v) Hp (or_introl eq_refl)).
Qed.

(** The properties of an object, defined in their order, give the
    object. *)
Lemma object_of_members_ordered (o : object) :
  ordered o = true -> object_of_members o = o.
Proof. intros H. exact (spread_ordered o [] H). Qed.

(** ** The handlers and [JSON.parse] build objects *)

Lemma array_index_print (k : jsstring) (n : N) :
  array_index k = Some n -> k = print_N n.
Proof.
  unfold array_index.
  destruct (str_eqb (print_N (N.of_uint (read_uint k))) k) eqn:E; [|discriminate].
  destruct (N.of_uint (read_uint k) <? 4294967295)%N; [|discriminate].
  cbn [andb]. intros H; injection H as <-. apply str_eqb_eq in E. congruence.
Qed.

Lemma in_overwrite (k : jsstring) (v : value) (o : object) (p : jsstring * value) :
  In p (overwrite k v o) -> p = (k, v) \/ In p o.
Proof.
  induction o as [|[k1 v1] t IH]; [intros []|].
  cbn [overwrite]. destruct (str_eqb k1 k) eqn:E.
  - apply str_eqb_eq in E. subst k1. intros [<-|H]; [left; reflexivity|].
    right; right; exact H.
  - intros [<-|H]; [right; left; reflexivity|].
    destruct (IH H) as [->|H']; [left; reflexivity|right; right; exact H'].
Qed.

Lemma in_insert_index (n : N) (k : jsstring) (v : value) (o : object)
  (p : jsstring * value) :
  In p (insert_index n k v o) -> p = (k, v) \/ In p o.
Proof.
  induction o as [|[k1 v1] t IH]; [intros [<-|[]]; left; reflexivity|].
  cbn [insert_index]. destruct (array_index k1) as [n1|].
  - destruct (n1 <? n)%N.
    + intros [<-|H]; [right; left; reflexivity|].
      destruct (IH H) as [->|H']; [left; reflexivity|right; right; exact H'].
    + intros [<-|H]; [left; reflexivity|right; exact H].
  - intros [<-|H]; [left; reflexivity|right; exact H].
Qed.

Lemma in_define (k : jsstring) (v : value) (o : object) (p : jsstring * value) :
  In p (define k v o) -> p = (k, v) \/ In p o.
Proof.
  unfold define. destruct (has_key k o).
  - apply in_overwrite.
  - destruct (array_index k) as [n|].
    + apply in_insert_index.
    + intros H. apply in_app_or in H. destruct H as [H|[<-|[]]]; auto.
Qed.

Lemma keys_overwrite (k : jsstring) (v : value) (o : object) :
  map fst (overwrite k v o) = map fst o.
Proof.
  induction o as [|[k1 v1] t IH]; [reflexivity|].
  cbn [overwrite]. destruct (str_eqb k1 k); cbn [map fst]; congruence.
Qed.

Lemma has_key_keys (k : jsstring) (o o' : object) :
  map fst o = map fst o' -> has_key k o = has_key k o'.
Proof.
  unfold has_key. revert o'. induction o as [|[k1 v1] t IH]; intros [|[k2 v2] t'] E;
    try discriminate E; [reflexivity|].
  cbn [map fst] in E. injection E as <- E. cbn [get].
  destruct (str_eqb k1 k); [reflexivity|exact (IH t' E)].
Qed.

Lemma forallb_keys (f : jsstring -> bool) (o : object) :
  forallb (fun p => f (fst p)) o = forallb f (map fst o).
Proof.
  induction o as [|p t IH]; [reflexivity|]. cbn [forallb map]. rewrite IH.
  reflexivity.
Qed.

(** Whether a list is ordered is a matter of its keys. *)
Lemma ordered_keys (o o' : object) :
  map fst o = map fst o' -> ordered o = ordered o'.
Proof.
  revert o'. induction o as [|[k1 v1] t IH]; intros [|[k2 v2] t'] E;
    try discriminate E; [reflexivity|].
  cbn [map fst] in E. injection E as <- E. cbn [ordered].
  rewrite (has_key_keys k1 t t' E), (IH t' E), !forallb_keys, E. reflexivity.
Qed.

Lemma ordered_snoc (k : jsstring) (v : value) (o : object) :
  ordered o = true -> get k o = None -> array_index k = None ->
  ordered (o ++ [(k, v)]) = true.
Proof.
  intros O G A. induction o as [|[k1 v1] t IH]; [reflexivity|].
  cbn [app ordered] in *. rewrite !andb_true_iff, negb_true_iff in O |- *.
  destruct O as [[K B] O]. cbn [get] in G.
  destruct (str_eqb k1 k) eqn:E; [discriminate|].
  split; [split|].
  - apply has_key_false. rewrite get_app_absent by (apply has_key_false, K).
    cbn [get]. rewrite str_eqb_sym, E. reflexivity.
  - rewrite forallb_app, B. cbn [forallb fst]. unfold comes_before. rewrite A.
    destruct (array_index k1); reflexivity.
  - exact (IH O G).
Qed.

Lemma forallb_insert_index (f : jsstring * value -> bool) (n : N) (k : jsstring)
  (v : value) (o : object) :
  forallb f (insert_index n k v o) = f (k, v) && forallb f o.
Proof.
  induction o as [|[k1 v1] t IH]; [reflexivity|].
  cbn [insert_index]. destruct (array_index k1) as [n1|]; [|reflexivity].
  destruct (n1 <? n)%N; [|reflexivity].
  cbn [forallb]. rewrite IH. destruct (f (k1, v1)), (f (k, v)); reflexivity.
Qed.

Lemma ordered_insert_index (n : N) (k : jsstring) (v : value) (o : object) :
  ordered o = true -> get k o = None -> array_index k = Some n ->
  ordered (insert_index n k v o) = true.
Proof.
  intros O G A. induction o as [|[k1 v1] t IH]; [reflexivity|].
  cbn [ordered] in O. rewrite !andb_true_iff, negb_true_iff in O.
  destruct O as [[K B] O]. cbn [get] in G.
  destruct (str_eqb k1 k) eqn:E; [discriminate|].
  assert (Hk : has_key k ((k1, v1) :: t) = false).
  { apply has_key_false. cbn [get]. rewrite E. exact G. }
  cbn [insert_index]. destruct (array_index k1) as [n1|] eqn:A1.
  - destruct (N.ltb_spec n1 n) as [L|L].
    + cbn [ordered]. rewrite !andb_true_iff, negb_true_iff. split; [split|].
      * apply has_key_false. rewrite get_insert_index_other.
        -- apply has_key_false, K.
        -- intros ->. rewrite str_eqb_refl in E. discriminate E.
      * rewrite forallb_insert_index, B. cbn [fst]. unfold comes_before.
        rewrite A1, A. apply andb_true_iff. split; [|reflexivity].
        apply N.ltb_lt, L.
      * exact (IH O G).
    + cbn [ordered]. rewrite !andb_true_iff, negb_true_iff.
      assert (Lt : (n < n1)%N).
      { destruct (N.eq_dec n n1) as [<-|Hne]; [|lia].
        apply array_index_print in A, A1. subst k1 k.
        rewrite str_eqb_refl in E. discriminate E. }
      split; [split|].
      * exact Hk.
      * cbn [forallb fst]. apply andb_true_iff. split.
        -- unfold comes_before. rewrite A, A1. apply N.ltb_lt, Lt.
        -- apply forallb_forall. intros p Hp. rewrite forallb_forall in B.
           specialize (B p Hp). unfold comes_before in B |- *. rewrite A1 in B.
           rewrite A. destruct (array_index (fst p)) as [n2|]; [|reflexivity].
           apply N.ltb_lt in B. apply N.ltb_lt. lia.
      * rewrite K, B, O. repeat split.
  - cbn [ordered]. rewrite !andb_true_iff, negb_true_iff. split; [split|].
    + exact Hk.
    + cbn [forallb fst]. apply andb_true_iff. split.
      * unfold comes_before. rewrite A, A1. reflexivity.
      * apply forallb_forall. intros p Hp. rewrite forallb_forall in B.
        specialize (B p Hp). unfold comes_before in B |- *. rewrite A1 in B.
        rewrite A. destruct (array_index (fst p)); [discriminate B|reflexivity].
    + rewrite K, B, O. repeat split.
Qed.

(** CreateDataProperty keeps an object one. *)
Lemma ordered_define (k : jsstring) (v : value) (o : object) :
  ordered o = true -> ordered (define k v o) = true.
Proof.
  intros O. unfold define. destruct (has_key k o) eqn:H.
  - rewrite (ordered_keys _ o (keys_overwrite k v o)). exact O.
  - apply has_key_false in H. destruct (array_index k) as [n|] eqn:A.
    + apply ordered_insert_index; assumption.
    + apply ordered_snoc; assumption.
Qed.

Lemma ordered_spread (ps : list (jsstring * value)) (o : object) :
  ordered o = true -> ordered (spread o ps) = true.
Proof.
  revert o. induction ps as [|p ps IH]; intros o O; [exact O|].
  unfold spread. cbn [fold_left]. apply IH, ordered_define, O.
Qed.

Lemma well_formed_spread (ps : list (jsstring * value)) (o : object) :
  well_formed (JObj o) = true ->
  forallb (fun p => well_formed (snd p)) ps = true ->
  well_formed (JObj (spread o ps)) = true.
Proof.
  revert o. induction ps as [|p ps IH]; intros o O P; [exact O|].
  cbn [forallb] in P. apply andb_true_iff in P. destruct P as [Pp P].
  unfold spread. cbn [fold_left]. apply IH; [|exact P].
  cbn [well_formed] in O |- *. apply andb_true_iff in O. destruct O as [O W].
  apply andb_true_iff. split; [apply ordered_define, O|].
  apply forallb_forall. intros q Hq. rewrite forallb_forall in W.
  destruct (in_define _ _ _ _ Hq) as [->|Hq']; [exact Pp|exact (W q Hq')].
Qed.

Lemma well_formed_get (k : jsstring) (o : object) (v : value) :
  well_formed (JObj o) = true -> get k o = Some v -> well_formed v = true.
Proof.
  cbn [well_formed]. rewrite andb_true_iff, forallb_forall. intros [_ W].
  induction o as [|[k1 v1] t IH]; [discriminate|].
  cbn [get]. destruct (str_eqb k1 k).
  - intros E; injection E as <-. exact (W (k1, v1) (or_introl eq_refl)).
  - apply IH. intros p Hp. apply W. right; exact Hp.
Qed.

(** A storable value is a well-formed one whose numbers are plain. *)
Lemma storable_parts (v : value) :
  storable v = well_formed v && plain_numbers v.
Proof.
  induction v as [| b | x | s | l IH | ps IH] using value_induction;
    cbn [storable well_formed plain_numbers]; try reflexivity.
  - induction IH as [|v l Hv _ IHl]; [reflexivity|].
    cbn [forallb]. rewrite Hv, IHl.
    destruct (well_formed v), (forallb well_formed l), (plain_numbers v);
      reflexivity.
  - rewrite <- andb_assoc. f_equal.
    induction IH as [|p l Hp _ IHl]; [reflexivity|].
    cbn [forallb]. rewrite Hp, IHl.
    destruct (well_formed (snd p)),
      (forallb (fun p => well_formed (snd p)) l), (plain_numbers (snd p));
      reflexivity.
Qed.

(* ================================================================= *)
(** * Facts about JSON text *)

Hypothesis laws : lawful NUM.

Lemma reads_le (n m : nat) (text : jsstring) (v : value) :
  n <= m -> reads n text v -> reads m text v.
Proof. intros H R f rest Hf. apply R. lia. Qed.

Lemma parse_value_quote (f : nat) (t : jsstring) :
  parse_value (S f) (quotation_mark :: t)
  = parsed_of_option
      (match parse_chars t with
       | Some (str, r) => Some (JStr str, r)
       | None => None
       end).
Proof. reflexivity. Qed.

Lemma reads_string (s : jsstring) : reads 1 (QuoteJSONString s) (JStr s).
Proof.
  intros [|f] rest Hf _; [lia|].
  unfold QuoteJSONString. cbn [app]. rewrite <- app_assoc. cbn [app].
  rewrite parse_value_quote, parse_chars_quote_units. reflexivity.
Qed.

Lemma reads_bool (b : bool) : reads 1 (stringify_bool b) (JBool b).
Proof.
  intros [|f] rest Hf _; [lia|]. destruct b; reflexivity.
Qed.

Lemma reads_null : reads 1 (js "null") JNull.
Proof. intros [|f] rest Hf _; [lia|]. reflexivity. Qed.

Lemma parse_value_numeral (f : nat) (c : N) (t : jsstring) :
  c = ch "-" \/ is_digit c = true ->
  parse_value (S f) (c :: t) = parsed_of_option (parse_number (c :: t)).
Proof.
  intros [->|H]; [reflexivity|].
  unfold is_digit in H. rewrite andb_true_iff, !N.leb_le in H.
  assert (c = 48 \/ c = 49 \/ c = 50 \/ c = 51 \/ c = 52 \/ c = 53 \/ c = 54
          \/ c = 55 \/ c = 56 \/ c = 57)%N as E by lia.
  repeat (destruct E as [->|E]; [reflexivity|]). subst; reflexivity.
Qed.

(** A numeral is read as the number it denotes. *)
Lemma reads_numeral (s : jsstring) :
  is_numeral s = true -> reads 1 s (JNum (numeral_value s)).
Proof.
  intros N [|f] rest Hf Hr; [lia|].
  destruct (numeral_head s N) as (c & t & E & H).
  pose proof (scan_numeral s rest N Hr) as P.
  rewrite E in P |- * at 1. cbn [app] in *.
  rewrite parse_value_numeral by assumption.
  unfold parse_number. rewrite P, <- E. reflexivity.
Qed.

Lemma reads_number (x : number) :
  reads 1 (stringify_number x) (normalise (JNum x)).
Proof.
  unfold stringify_number. cbn [normalise].
  destruct (is_finite x) eqn:F; [|apply reads_null].
  apply reads_numeral. apply (proj1 laws), F.
Qed.

Lemma parse_members_quote (f : nat) (k t : jsstring) :
  parse_members (S f)
    (quotation_mark :: quote_units k ++ quotation_mark :: ch ":" :: t)
  = match parse_value f t with
    | Parsed v r2 =>
      match skip_ws r2 with
      | [] => SyntaxError
      | c3 :: t3 =>
        if (c3 =? ch ",")%N
        then parsed_map (cons (k, v)) (parse_members f t3)
        else if (c3 =? ch "}")%N then Parsed [(k, v)] t3
        else SyntaxError
      end
    | SyntaxError => SyntaxError
    | OutOfFuel => OutOfFuel
    end.
Proof.
  change (parse_members (S f)
            (quotation_mark :: quote_units k ++ quotation_mark :: ch ":" :: t))
    with (match parse_chars (quote_units k ++ quotation_mark :: ch ":" :: t) with
          | None => SyntaxError
          | Some (k, r) =>
            match skip_ws r with
            | [] => SyntaxError
            | c2 :: t2 =>
              if (c2 =? ch ":")%N then
                match parse_value f t2 with
                | Parsed v r2 =>
                  match skip_ws r2 with
                  | [] => SyntaxError
                  | c3 :: t3 =>
                    if (c3 =? ch ",")%N
                    then parsed_map (cons (k, v)) (parse_members f t3)
                    else if (c3 =? ch "}")%N then Parsed [(k, v)] t3
                    else SyntaxError
                  end
                | SyntaxError => SyntaxError
                | OutOfFuel => OutOfFuel
                end
              else SyntaxError
            end
          end).
  rewrite parse_chars_quote_units. reflexivity.
Qed.

Lemma member_text_app (p : jsstring * value) (rest : jsstring) :
  member_text p ++ rest
  = quotation_mark :: quote_units (fst p) ++ quotation_mark
      :: ch ":" :: JSON_stringify (snd p) ++ rest.
Proof.
  unfold member_text, QuoteJSONString. cbn [app].
  rewrite <- !app_assoc. reflexivity.
Qed.

Lemma reads_members (n : nat) (l : list (jsstring * value)) :
  l <> [] -> Forall (member_reads n) l ->
  forall f rest, n + List.length l <= f ->
  parse_members f (join_comma (map member_text l) ++ ch "}" :: rest)
  = Parsed (map member_value l) rest.
Proof.
  induction l as [|m l IH]; [congruence|]. intros _ HF f rest Hf.
  inversion HF as [|? ? Hm Hl]; subst.
  destruct f as [|f]; [simpl in Hf; lia|].
  unfold member_reads in Hm.
  destruct l as [|m' l].
  - cbn [map join_comma]. rewrite member_text_app.
    rewrite parse_members_quote.
    rewrite Hm by (simpl in *; try lia; auto). reflexivity.
  - change (join_comma (map member_text (m :: m' :: l)))
      with (member_text m ++ ch "," :: join_comma (map member_text (m' :: l))).
    rewrite <- app_assoc, member_text_app.
    rewrite parse_members_quote. cbn [app].
    rewrite Hm by (simpl in *; try lia; auto).
    change (parsed_map (cons (fst m, normalise (snd m)))
              (parse_members f (join_comma (map member_text (m' :: l)) ++ ch "}" :: rest))
            = Parsed (map member_value (m :: m' :: l)) rest).
    rewrite IH by (try discriminate; try assumption; simpl in *; lia).
    reflexivity.
Qed.

Lemma parse_value_object (f : nat) (t : jsstring) :
  parse_value (S f) (ch "{" :: quotation_mark :: t)
  = parsed_map (fun members => JObj (object_of_members members))
      (parse_members f (quotation_mark :: t)).
Proof. reflexivity. Qed.

Lemma join_members_head (l : list (jsstring * value)) (rest : jsstring) :
  l <> [] ->
  exists t, join_comma (map member_text l) ++ rest = quotation_mark :: t.
Proof.
  destruct l as [|m [|m' l]]; [congruence| |]; intros _.
  - cbn [map join_comma]. rewrite member_text_app. eexists; reflexivity.
  - change (join_comma (map member_text (m :: m' :: l)))
      with (member_text m ++ ch "," :: join_comma (map member_text (m' :: l))).
    rewrite <- app_assoc, member_text_app. eexists; reflexivity.
Qed.

(** An object whose properties are read back is read back. *)
Lemma reads_object (n : nat) (l : list (jsstring * value)) :
  Forall (member_reads n) l ->
  reads (n + List.length l + 1) (SerializeJSONObject (map member_text l))
    (JObj (object_of_members (map member_value l))).
Proof.
  intros HF f rest Hf _. destruct f as [|f]; [lia|].
  unfold SerializeJSONObject. cbn [app]. rewrite <- app_assoc. cbn [app].
  destruct l as [|m l]; [reflexivity|].
  destruct (join_members_head (m :: l) (ch "}" :: rest)) as (t & E);
    [discriminate|].
  rewrite E, parse_value_object, <- E.
  rewrite (reads_members n) by (try discriminate; try assumption; simpl in *; lia).
  reflexivity.
Qed.

Lemma parse_elements_step (f : nat) (s : jsstring) :
  parse_elements (S f) s
  = match parse_value f s with
    | Parsed v r =>
      match skip_ws r with
      | [] => SyntaxError
      | c :: t =>
        if (c =? ch ",")%N then parsed_map (cons v) (parse_elements f t)
        else if (c =? ch "]")%N then Parsed [v] t
        else SyntaxError
      end
    | SyntaxError => SyntaxError
    | OutOfFuel => OutOfFuel
    end.
Proof. reflexivity. Qed.

Lemma reads_elements (n : nat) (l : list value) :
  l <> [] -> Forall (fun v => reads n (JSON_stringify v) (normalise v)) l ->
  forall f rest, n + List.length l <= f ->
  parse_elements f (join_comma (map JSON_stringify l) ++ ch "]" :: rest)
  = Parsed (map normalise l) rest.
Proof.
  induction l as [|e l IH]; [congruence|]. intros _ HF f rest Hf.
  inversion HF as [|? ? He Hl]; subst.
  destruct f as [|f]; [simpl in Hf; lia|].
  rewrite parse_elements_step.
  destruct l as [|e' l].
  - cbn [map join_comma].
    rewrite He by (simpl in *; try lia; auto). reflexivity.
  - change (join_comma (map JSON_stringify (e :: e' :: l)))
      with (JSON_stringify e ++ ch "," :: join_comma (map JSON_stringify (e' :: l))).
    rewrite <- app_assoc. cbn [app].
    rewrite He by (simpl in *; try lia; auto).
    change (parsed_map (cons (normalise e))
              (parse_elements f (join_comma (map JSON_stringify (e' :: l)) ++ ch "]" :: rest))
            = Parsed (map normalise (e :: e' :: l)) rest).
    rewrite IH by (try discriminate; try assumption; simpl in *; lia).
    reflexivity.
Qed.

Lemma parse_value_array (f : nat) (c : N) (t : jsstring) :
  is_json_ws c = false -> c <> ch "]" ->
  parse_value (S f) (ch "[" :: c :: t)
  = parsed_map JArr (parse_elements f (c :: t)).
Proof.
  intros W B.
  change (parse_value (S f) (ch "[" :: c :: t))
    with (match skip_ws (c :: t) with
          | [] => SyntaxError
          | c' :: t' =>
            if (c' =? ch "]")%N then Parsed (JArr []) t'
            else parsed_map JArr (parse_elements f (c' :: t'))
          end).
  cbn [skip_ws]. rewrite W. rewrite (proj2 (N.eqb_neq c (ch "]")) B). reflexivity.
Qed.

(** The first character of the text of a value. *)
Lemma JSON_stringify_head (v : value) :
  exists c t, JSON_stringify v = c :: t /\ is_json_ws c = false /\ c <> ch "]".
Proof.
  destruct v as [| b | x | s | l | ps]; cbn [JSON_stringify].
  - eexists; eexists; split; [reflexivity|split; [reflexivity|discriminate]].
  - destruct b; eexists; eexists;
      (split; [reflexivity|split; [reflexivity|discriminate]]).
  - unfold stringify_number. destruct (is_finite x) eqn:F.
    + destruct (numeral_head _ (proj1 laws x F)) as (c & t & E & H).
      exists c, t. split; [exact E|].
      destruct H as [->|H]; [split; [reflexivity|discriminate]|].
      unfold is_digit in H. rewrite andb_true_iff, !N.leb_le in H.
      split.
      * unfold is_json_ws. rewrite !orb_false_iff, !N.eqb_neq. lia.
      * change (ch "]") with 93%N. lia.
    + eexists; eexists; split; [reflexivity|split; [reflexivity|discriminate]].
  - eexists; eexists; split; [reflexivity|split; [reflexivity|discriminate]].
  - eexists; eexists; split; [reflexivity|split; [reflexivity|discriminate]].
  - eexists; eexists; split; [reflexivity|split; [reflexivity|discriminate]].
Qed.

(** An array whose elements are read back is read back. *)
Lemma reads_array (n : nat) (l : list value) :
  Forall (fun v => reads n (JSON_stringify v) (normalise v)) l ->
  reads (n + List.length l + 1) (SerializeJSONArray (map JSON_stringify l))
    (JArr (map normalise l)).
Proof.
  intros HF f rest Hf _. destruct f as [|f]; [lia|].
  unfold SerializeJSONArray. cbn [app]. rewrite <- app_assoc. cbn [app].
  destruct l as [|e l]; [reflexivity|].
  assert (exists c t, join_comma (map JSON_stringify (e :: l)) ++ ch "]" :: rest = c :: t
                      /\ is_json_ws c = false /\ c <> ch "]")
    as (c & t & E & W & B).
  { destruct (JSON_stringify_head e) as (c & t & Et & W & B).
    destruct l; cbn [map join_comma]; rewrite Et; eexists; eexists;
      (split; [reflexivity|split; assumption]). }
  rewrite E, parse_value_array, <- E by assumption.
  rewrite (reads_elements n);
    [reflexivity|discriminate|assumption|simpl in *; lia].
Qed.

Lemma Forall_bound {A} (R : nat -> A -> Prop) (l : list A) :
  (forall n m a, n <= m -> R n a -> R m a) ->
  Forall (fun a => exists n, R n a) l -> exists n, Forall (R n) l.
Proof.
  intros M H. induction H as [|a l [n Ha] _ [m Hl]].
  - exists 0. constructor.
  - exists (n + m). constructor.
    + apply (M n); [lia|exact Ha].
    + eapply Forall_impl; [|exact Hl]. intros b Hb. apply (M m); [lia|exact Hb].
Qed.

(** The text [JSON_stringify] writes is read as the value [normalise]
    gives. *)
Lemma reads_stringify (v : value) :
  exists n, reads n (JSON_stringify v) (normalise v).
Proof.
  induction v as [| b | x | s | l IH | ps IH] using value_induction.
  - exists 1. apply reads_null.
  - exists 1. apply reads_bool.
  - exists 1. apply reads_number.
  - exists 1. apply reads_string.
  - destruct (Forall_bound (fun n v => reads n (JSON_stringify v) (normalise v)) l)
      as (n & H); [intros n m a; apply reads_le|exact IH|].
    exists (n + List.length l + 1). cbn [JSON_stringify normalise].
    apply reads_array, H.
  - destruct (Forall_bound member_reads ps) as (n & H);
      [intros n m a; apply reads_le|exact IH|].
    exists (n + List.length ps + 1). cbn [JSON_stringify normalise].
    apply (reads_object n ps H).
Qed.

(** A storable value is one that comes back as it is. *)
Lemma normalise_storable (v : value) : storable v = true -> normalise v = v.
Proof.
  induction v as [| b | x | s | l IH | ps IH] using value_induction;
    cbn [storable normalise]; try reflexivity.
  - rewrite andb_true_iff, negb_true_iff. intros [F Z]. rewrite F.
    rewrite (proj1 (proj2 laws) x F Z). reflexivity.
  - intros S. f_equal. rewrite forallb_forall in S. rewrite Forall_forall in IH.
    rewrite <- (map_id l) at 2. apply map_ext_in. intros v Hv. apply IH; auto.
  - rewrite andb_true_iff, forallb_forall. intros [O S]. rewrite Forall_forall in IH.
    replace (map (fun p : jsstring * value => (fst p, normalise (snd p))) ps)
      with ps.
    + rewrite object_of_members_ordered by exact O. reflexivity.
    + rewrite <- (map_id ps) at 1. apply map_ext_in. intros [k v] Hp.
      cbn [fst snd]. f_equal. symmetry. exact (IH (k, v) Hp (S (k, v) Hp)).
Qed.

(* ----------------------------------------------------------------- *)
(** ** The fuel of [JSON_parse] is enough *)

Ltac break_match :=
  match goal with
  | H : context [match ?x with _ => _ end] |- _ => destruct x eqn:?
  | |- context [match ?x with _ => _ end] => destruct x eqn:?
  end.

Lemma skip_ws_length (s : jsstring) : List.length (skip_ws s) <= List.length s.
Proof.
  induction s as [|c t IH]; simpl; [lia|].
  destruct (is_json_ws c); simpl; lia.
Qed.

Lemma cons_fst_inv {A B} (a : A) (p : option (list A * B)) l r :
  cons_fst a p = Some (l, r) -> exists l', p = Some (l', r).
Proof.
  destruct p as [[l' r']|]; simpl; [|discriminate].
  intros H; injection H as <- <-. eauto.
Qed.

Lemma parse_chars_length_bounded (n : nat) :
  forall s str r, List.length s <= n ->
  parse_chars s = Some (str, r) -> List.length r < List.length s.
Proof.
  induction n as [|n IH]; intros [|c t] str r Hn H; simpl in Hn;
    try discriminate; try lia.
  cbn [parse_chars] in H.
  repeat (break_match; try discriminate).
  all: try (injection H as <- <-; simpl; lia).
  all: apply cons_fst_inv in H; destruct H as (l' & H);
       apply IH in H; simpl in *; subst; simpl in *; lia.
Qed.

Lemma parse_chars_length (s str r : jsstring) :
  parse_chars s = Some (str, r) -> List.length r < List.length s.
Proof. apply (parse_chars_length_bounded (List.length s)); lia. Qed.

Lemma parse_number_length (s : jsstring) v r :
  parse_number s = Some (v, r) -> List.length r < List.length s.
Proof.
  unfold parse_number. destruct (scan_number s) as [[lexeme rest]|] eqn:E;
    [|discriminate].
  intros H; injection H as _ <-.
  pose proof (scan_number_split _ _ _ E) as S.
  assert (lexeme <> []) as N.
  { revert E. unfold scan_number.
    destruct (scan_minus s) as [minus s1].
    destruct (span_digits s1) as [[|d i'] s2]; [discriminate|].
    destruct ((d =? ch "0")%N && match i' with [] => false | _ :: _ => true end);
      [discriminate|].
    destruct (scan_fraction s2) as [[f s3]|]; [|discriminate].
    destruct (scan_exponent s3) as [[x s4]|]; [|discriminate].
    intros E; injection E as <- _. destruct minus; discriminate. }
  subst s. rewrite length_app. destruct lexeme; [congruence|simpl; lia].
Qed.

Lemma strip_prefix_length (p s r : jsstring) :
  strip_prefix p s = Some r -> List.length r + List.length p = List.length s.
Proof.
  revert s; induction p as [|x p IH]; intros [|y s] H; simpl in *;
    try discriminate; try (injection H as <-; simpl; lia).
  destruct (x =? y)%N; [|discriminate]. apply IH in H. lia.
Qed.

Lemma parse_literal_length (s : jsstring) v r :
  parse_literal s = Parsed v r -> List.length r < List.length s.
Proof.
  unfold parse_literal. intros H.
  repeat (break_match; try discriminate); injection H as <- <-;
    match goal with
    | E : strip_prefix _ _ = Some _ |- _ =>
      apply strip_prefix_length in E; simpl in E; lia
    end.
Qed.

Lemma parse_literal_fuel (s : jsstring) : parse_literal s <> OutOfFuel.
Proof. unfold parse_literal. repeat break_match; discriminate. Qed.

(** Every successful parser takes at least one code unit. *)
Lemma parse_length (f : nat) :
  (forall s v r, parse_value f s = Parsed v r -> List.length r < List.length s)
  /\ (forall s v r, parse_elements f s = Parsed v r ->
                    List.length r < List.length s)
  /\ (forall s v r, parse_members f s = Parsed v r ->
                    List.length r < List.length s).
Proof.
  induction f as [|f (IHv & IHe & IHm)];
    [repeat split; intros; discriminate|].
  repeat split; intros s v r H.
  - cbn [parse_value] in H. unfold parsed_map, parsed_of_option in H.
    repeat (break_match; try discriminate); inversion H; subst; clear H;
      repeat match goal with
      | E : skip_ws ?x = _ |- _ =>
        let L := fresh "L" in
        pose proof (skip_ws_length x) as L; rewrite E in L; clear E
      | E : Some _ = Some _ |- _ => inversion E; subst; clear E
      | E : parse_chars _ = Some _ |- _ => apply parse_chars_length in E
      | E : parse_number _ = Some _ |- _ => apply parse_number_length in E
      | E : parse_literal _ = Parsed _ _ |- _ => apply parse_literal_length in E
      | E : parse_elements f _ = Parsed _ _ |- _ => apply IHe in E
      | E : parse_members f _ = Parsed _ _ |- _ => apply IHm in E
      end; simpl in *; lia.
  - cbn [parse_elements] in H. unfold parsed_map in H.
    repeat (break_match; try discriminate); inversion H; subst; clear H;
      repeat match goal with
      | E : skip_ws ?x = _ |- _ =>
        let L := fresh "L" in
        pose proof (skip_ws_length x) as L; rewrite E in L; clear E
      | E : parse_value f _ = Parsed _ _ |- _ => apply IHv in E
      | E : parse_elements f _ = Parsed _ _ |- _ => apply IHe in E
      end; simpl in *; lia.
  - cbn [parse_members] in H. unfold parsed_map in H.
    repeat (break_match; try discriminate); inversion H; subst; clear H;
      repeat match goal with
      | E : skip_ws ?x = _ |- _ =>
        let L := fresh "L" in
        pose proof (skip_ws_length x) as L; rewrite E in L; clear E
      | E : parse_chars _ = Some _ |- _ => apply parse_chars_length in E
      | E : parse_value f _ = Parsed _ _ |- _ => apply IHv in E
      | E : parse_members f _ = Parsed _ _ |- _ => apply IHm in E
      end; simpl in *; lia.
Qed.

(** With twice the length of the text as fuel no parser runs out. *)
Lemma parse_fuel (f : nat) :
  (forall s, 2 * List.length s < f -> parse_value f s <> OutOfFuel)
  /\ (forall s, 2 * List.length s + 1 < f -> parse_elements f s <> OutOfFuel)
  /\ (forall s, 2 * List.length s + 1 < f -> parse_members f s <> OutOfFuel).
Proof.
  induction f as [|f (IHv & IHe & IHm)]; [repeat split; intros; lia|].
  destruct (parse_length f) as (Lv & Le & Lm).
  repeat split; intros s Hf.
  - cbn [parse_value]. unfold parsed_map, parsed_of_option.
    repeat (break_match; try discriminate);
      try apply parse_literal_fuel;
      exfalso;
      repeat match goal with
      | E : skip_ws ?x = _ |- _ =>
        let L := fresh "L" in
        pose proof (skip_ws_length x) as L; rewrite E in L; clear E
      end;
      match goal with
      | E : parse_elements f _ = OutOfFuel |- _ =>
        revert E; apply IHe; simpl in *; lia
      | E : parse_members f _ = OutOfFuel |- _ =>
        revert E; apply IHm; simpl in *; lia
      end.
  - cbn [parse_elements]. unfold parsed_map.
    repeat (break_match; try discriminate);
      exfalso;
      repeat match goal with
      | E : skip_ws ?x = _ |- _ =>
        let L := fresh "L" in
        pose proof (skip_ws_length x) as L; rewrite E in L; clear E
      | E : parse_value f _ = Parsed _ _ |- _ => apply Lv in E
      end;
      match goal with
      | E : parse_elements f _ = OutOfFuel |- _ =>
        revert E; apply IHe; simpl in *; lia
      | E : parse_value f _ = OutOfFuel |- _ =>
        revert E; apply IHv; simpl in *; lia
      end.
  - cbn [parse_members]. unfold parsed_map.
    repeat (break_match; try discriminate);
      exfalso;
      repeat match goal with
      | E : skip_ws ?x = _ |- _ =>
        let L := fresh "L" in
        pose proof (skip_ws_length x) as L; rewrite E in L; clear E
      | E : parse_value f _ = Parsed _ _ |- _ => apply Lv in E
      | E : parse_chars _ = Some _ |- _ => apply parse_chars_length in E
      end;
      match goal with
      | E : parse_members f _ = OutOfFuel |- _ =>
        revert E; apply IHm; simpl in *; lia
      | E : parse_value f _ = OutOfFuel |- _ =>
        revert E; apply IHv; simpl in *; lia
      end.
Qed.

Lemma parsed_map_fuel {A B} (g : A -> B) (p : parsed A) :
  parsed_map g p <> OutOfFuel -> p <> OutOfFuel.
Proof. destruct p; simpl; congruence. Qed.

Lemma parse_value_step_stable (f1 f2 : nat) (s : jsstring) :
  (forall x, parse_elements f2 x <> OutOfFuel ->
             parse_elements f1 x = parse_elements f2 x) ->
  (forall x, parse_members f2 x <> OutOfFuel ->
             parse_members f1 x = parse_members f2 x) ->
  parse_value (S f2) s <> OutOfFuel ->
  parse_value (S f1) s = parse_value (S f2) s.
Proof.
  intros He Hm. cbn [parse_value].
  destruct (skip_ws s) as [|c t]; [reflexivity|].
  destruct (c =? ch "[")%N.
  { destruct (skip_ws t) as [|c' t']; [reflexivity|].
    destruct (c' =? ch "]")%N; [reflexivity|].
    intros H. apply parsed_map_fuel in H. rewrite He by exact H. reflexivity. }
  destruct (c =? ch "{")%N; [|reflexivity].
  destruct (skip_ws t) as [|c' t']; [reflexivity|].
  destruct (c' =? ch "}")%N; [reflexivity|].
  intros H. apply parsed_map_fuel in H. rewrite Hm by exact H. reflexivity.
Qed.

Lemma parse_elements_step_stable (f1 f2 : nat) (s : jsstring) :
  (forall x, parse_value f2 x <> OutOfFuel ->
             parse_value f1 x = parse_value f2 x) ->
  (forall x, parse_elements f2 x <> OutOfFuel ->
             parse_elements f1 x = parse_elements f2 x) ->
  parse_elements (S f2) s <> OutOfFuel ->
  parse_elements (S f1) s = parse_elements (S f2) s.
Proof.
  intros Hv He. cbn [parse_elements].
  destruct (parse_value f2 s) as [v r| |] eqn:E; intros H;
    [|rewrite Hv, E by congruence; reflexivity|congruence].
  rewrite Hv, E by congruence.
  destruct (skip_ws r) as [|c t]; [reflexivity|].
  destruct (c =? ch ",")%N; [|reflexivity].
  apply parsed_map_fuel in H. rewrite He by exact H. reflexivity.
Qed.

Lemma parse_members_step_stable (f1 f2 : nat) (s : jsstring) :
  (forall x, parse_value f2 x <> OutOfFuel ->
             parse_value f1 x = parse_value f2 x) ->
  (forall x, parse_members f2 x <> OutOfFuel ->
             parse_members f1 x = parse_members f2 x) ->
  parse_members (S f2) s <> OutOfFuel ->
  parse_members (S f1) s = parse_members (S f2) s.
Proof.
  intros Hv Hm. cbn [parse_members].
  destruct (skip_ws s) as [|c t]; [reflexivity|].
  destruct (c =? quotation_mark)%N; [|reflexivity].
  destruct (parse_chars t) as [[k r]|]; [|reflexivity].
  destruct (skip_ws r) as [|c2 t2]; [reflexivity|].
  destruct (c2 =? ch ":")%N; [|reflexivity].
  destruct (parse_value f2 t2) as [v r2| |] eqn:E; intros H;
    [|rewrite Hv, E by congruence; reflexivity|congruence].
  rewrite Hv, E by congruence.
  destruct (skip_ws r2) as [|c3 t3]; [reflexivity|].
  destruct (c3 =? ch ",")%N; [|reflexivity].
  apply parsed_map_fuel in H. rewrite Hm by exact H. reflexivity.
Qed.

(** More fuel does not change an answer. *)
Lemma parse_stable_succ (f : nat) :
  (forall s, parse_value f s <> OutOfFuel -> parse_value (S f) s = parse_value f s)
  /\ (forall s, parse_elements f s <> OutOfFuel ->
                parse_elements (S f) s = parse_elements f s)
  /\ (forall s, parse_members f s <> OutOfFuel ->
                parse_members (S f) s = parse_members f s).
Proof.
  induction f as [|f (IHv & IHe & IHm)];
    [repeat split; intros s H; exfalso; apply H; reflexivity|].
  repeat split; intros s H.
  - apply parse_value_step_stable; assumption.
  - apply parse_elements_step_stable; assumption.
  - apply parse_members_step_stable; assumption.
Qed.

Lemma parse_value_stable (f f' : nat) (s : jsstring) :
  f <= f' -> parse_value f s <> OutOfFuel -> parse_value f' s = parse_value f s.
Proof.
  induction 1 as [|f' Hle IH]; [reflexivity|]. intros H.
  rewrite <- (IH H). apply parse_stable_succ. rewrite (IH H). exact H.
Qed.

(** [JSON.parse] always answers: a value or a SyntaxError. *)
Lemma parse_text_total (s : jsstring) : parse_text s <> OutOfFuel.
Proof.
  unfold parse_text.
  destruct (parse_fuel (2 * List.length s + 1)) as (Hv & _).
  specialize (Hv s). 
  destruct (parse_value (2 * List.length s + 1) s) as [v r| |];
    [destruct (skip_ws r); discriminate|discriminate|].
  exfalso. apply Hv; [lia|reflexivity].
Qed.

(** A text that is read as [v] with some fuel is parsed as [v]. *)
Lemma JSON_parse_reads (n : nat) (text : jsstring) (v : value) :
  reads n text v -> JSON_parse text = Some v.
Proof.
  intros R. unfold JSON_parse, parse_text.
  set (f := 2 * List.length text + 1).
  pose proof (R (Nat.max n f) [] (Nat.le_max_l _ _) I) as Hbig.
  rewrite app_nil_r in Hbig.
  destruct (parse_fuel f) as (Hv & _).
  assert (Hf : parse_value f text <> OutOfFuel) by (apply Hv; unfold f; lia).
  rewrite <- (parse_value_stable f (Nat.max n f) text (Nat.le_max_r n f) Hf), Hbig.
  reflexivity.
Qed.

(** [JSON.parse (JSON.stringify v)] is [normalise v]. *)
Lemma JSON_parse_stringify (v : value) :
  JSON_parse (JSON_stringify v) = Some (normalise v).
Proof.
  destruct (reads_stringify v) as (n & R). exact (JSON_parse_reads n _ _ R).
Qed.

(** A storable value comes back as it is. *)
Lemma JSON_round_trip (v : value) :
  storable v = true -> JSON_parse (JSON_stringify v) = Some v.
Proof.
  intros S. rewrite JSON_parse_stringify, normalise_storable by exact S.
  reflexivity.
Qed.

Lemma truthy_stringify (v : value) : truthy (JSON_stringify v) = true.
Proof.
  destruct (JSON_stringify_head v) as (c & t & E & _). rewrite E. reflexivity.
Qed.

Lemma load_stringify (v : value) (q : nat) :
  loadFromLocalStorage {| item := Some (JSON_stringify v); quota := q |}
  = Returns (normalise v).
Proof.
  unfold loadFromLocalStorage, getItem. cbn [item truthy_opt].
  rewrite truthy_stringify, JSON_parse_stringify. reflexivity.
Qed.

Lemma load_storable (v : value) (q : nat) :
  storable v = true ->
  loadFromLocalStorage {| item := Some (JSON_stringify v); quota := q |}
  = Returns v.
Proof.
  intros S. rewrite load_stringify, normalise_storable by exact S. reflexivity.
Qed.

(* ================================================================= *)
(** * Facts about the component *)

Ltac distinct_keys := let E := fresh in intros E; vm_compute in E; discriminate E.

Lemma same_string_eq (v : option value) (s : jsstring) :
  same_string v s = true <-> v = id_string s.
Proof.
  unfold same_string, id_string. destruct v as [[| | |s'| |]|]; try (split; discriminate).
  rewrite str_eqb_eq. split; congruence.
Qed.

Lemma same_string_neq (v : option value) (s : jsstring) :
  same_string v s = false <-> v <> id_string s.
Proof.
  rewrite <- same_string_eq. destruct (same_string v s); split; congruence.
Qed.

Lemma effect_questions (s : State) :
  questions (render s (questionsEffect s)) = questions s.
Proof. unfold questionsEffect. destruct (_ =? 0); reflexivity. Qed.

Lemma effect_showForm (s : State) :
  showForm (render s (questionsEffect s)) = showForm s.
Proof. unfold questionsEffect. destruct (_ =? 0); reflexivity. Qed.

Lemma effect_error (s : State) :
  error (render s (questionsEffect s)) = error s.
Proof. unfold questionsEffect. destruct (_ =? 0); reflexivity. Qed.

Lemma effect_successMessage (s : State) :
  successMessage (render s (questionsEffect s)) = successMessage s.
Proof. unfold questionsEffect. destruct (_ =? 0); reflexivity. Qed.

Lemma effect_expanded (s : State) :
  expanded (render s (questionsEffect s))
  = match questions s with [] => None | _ :: _ => expanded s end.
Proof. unfold questionsEffect. destruct (questions s); reflexivity. Qed.

Lemma effect_nonempty (s : State) :
  questions s <> [] -> render s (questionsEffect s) = s.
Proof.
  intros H. unfold questionsEffect. destruct (questions s); [congruence|].
  reflexivity.
Qed.

(** The effect finds the first render as it is. *)
Lemma first_render_eq (qs : list object) : first_render qs = initialState qs.
Proof. destruct qs; reflexivity. Qed.

Lemma valid_buffer_test (s : State) :
  valid_buffer s ->
  str_eqb (trim (questionTitle s)) [] || str_eqb (trim (questionType s)) []
  = false.
Proof.
  intros [H1 H2]. apply orb_false_iff. split; apply str_eqb_neq; assumption.
Qed.

Lemma invalid_buffer_test (s : State) :
  trim (questionTitle s) = [] \/ trim (questionType s) = [] ->
  str_eqb (trim (questionTitle s)) [] || str_eqb (trim (questionType s)) []
  = true.
Proof.
  intros [H|H]; rewrite H; [reflexivity|apply orb_true_r].
Qed.

Lemma commitEdit_valid (uuid : jsstring) (s : State) (ls : Storage) :
  valid_buffer s ->
  commitEdit uuid (s, ls)
  = (render (committed_state uuid s) (questionsEffect (committed_state uuid s)),
     snd (saveToLocalStorage (questions s) ls)).
Proof.
  intros H. unfold commitEdit, dispatch, handleSaveChanges.
  rewrite (valid_buffer_test s H).
  unfold committed_state, committed, commit_message.
  destruct (expanded s); reflexivity.
Qed.

Lemma commitEdit_invalid (uuid : jsstring) (s : State) (ls : Storage) :
  trim (questionTitle s) = [] \/ trim (questionType s) = [] ->
  commitEdit uuid (s, ls)
  = (apply_setState s (setError (Some required_fields_message)), ls).
Proof.
  intros H. unfold commitEdit, dispatch, handleSaveChanges.
  rewrite (invalid_buffer_test s H). reflexivity.
Qed.

Lemma commitEdit_cases (uuid : jsstring) (s : State) (ls : Storage) :
  ((trim (questionTitle s) = [] \/ trim (questionType s) = [])
   /\ commitEdit uuid (s, ls)
      = (apply_setState s (setError (Some required_fields_message)), ls))
  \/ (valid_buffer s
      /\ commitEdit uuid (s, ls)
         = (render (committed_state uuid s)
              (questionsEffect (committed_state uuid s)),
            snd (saveToLocalStorage (questions s) ls))).
Proof.
  destruct (str_eqb (trim (questionTitle s)) []) eqn:E1.
  { left. apply str_eqb_eq in E1.
    split; [|apply commitEdit_invalid]; left; exact E1. }
  destruct (str_eqb (trim (questionType s)) []) eqn:E2.
  { left. apply str_eqb_eq in E2.
    split; [|apply commitEdit_invalid]; right; exact E2. }
  right. apply str_eqb_neq in E1, E2.
  split; [|apply commitEdit_valid]; split; assumption.
Qed.

Lemma deleteQuestion_eq (id : jsstring) (s : State) (ls : Storage) :
  deleteQuestion id (s, ls)
  = (let s1 := apply_setState s
                 (setQuestions
                    (filter (fun q => negb (same_string (Question_id q) id))
                       (questions s))) in
     render s1 (questionsEffect s1),
     snd (saveToLocalStorage
            (filter (fun q => negb (same_string (Question_id q) id)) (questions s))
            ls)).
Proof. reflexivity. Qed.

(** ** The objects [handleSaveChanges] builds *)

Lemma newQuestion_eq (uuid : jsstring) (s : State) :
  newQuestion uuid s = (js "id", JStr uuid) :: buffer_properties s.
Proof. reflexivity. Qed.

(** An update keeps the id, *)
Lemma updated_id (s : State) (q : object) :
  Question_id (spread q (buffer_properties s)) = Question_id q.
Proof.
  unfold Question_id, spread, buffer_properties. cbn [fold_left fst snd].
  rewrite !get_define_other by distinct_keys. reflexivity.
Qed.

(** and gives the five properties the values of the buffer. *)
Lemma updated_properties (s : State) (q : object) :
  let q' := spread q (buffer_properties s) in
  get (js "title") q' = Some (JStr (questionTitle s))
  /\ get (js "type") q' = Some (JStr (questionType s))
  /\ get (js "required") q' = Some (JBool (isRequired s))
  /\ get (js "helperText") q' = Some (JStr (helperText s))
  /\ get (js "additionalFields") q' = Some (JObj (additionalFields s)).
Proof.
  unfold spread, buffer_properties. cbn [fold_left fst snd].
  repeat split;
    repeat (rewrite get_define_other by distinct_keys);
    apply get_define_same.
Qed.

(** Every other property is as it was. *)
Lemma updated_others (s : State) (q : object) (k : jsstring) :
  ~ In k (map fst (buffer_properties s)) ->
  get k (spread q (buffer_properties s)) = get k q.
Proof.
  unfold spread, buffer_properties. cbn [fold_left fst snd map In]. intros H.
  rewrite !get_define_other by (intros E; apply H; rewrite E; tauto).
  reflexivity.
Qed.

Lemma updatedQuestion_id (t : jsstring) (s : State) (q : object) :
  Question_id (updatedQuestion t s q) = Question_id q.
Proof.
  unfold updatedQuestion. destruct (same_string _ _); [apply updated_id|reflexivity].
Qed.

Lemma ids_updated (target : jsstring) (s : State) (qs : list object) :
  ids (map (updatedQuestion target s) qs) = ids qs.
Proof.
  unfold ids. rewrite map_map. apply map_ext. intros q. apply updatedQuestion_id.
Qed.

Lemma updated_absent (target : jsstring) (s : State) (qs : list object) :
  ~ In (id_string target) (ids qs) -> map (updatedQuestion target s) qs = qs.
Proof.
  induction qs as [|q qs IH]; [reflexivity|]. simpl. intros H.
  rewrite IH by tauto. unfold updatedQuestion.
  destruct (same_string (Question_id q) target) eqn:E; [|reflexivity].
  apply same_string_eq in E. tauto.
Qed.

Lemma filter_absent (id : jsstring) (qs : list object) :
  ~ In (id_string id) (ids qs) ->
  filter (fun q => negb (same_string (Question_id q) id)) qs = qs.
Proof.
  induction qs as [|q qs IH]; [reflexivity|]. simpl. intros H.
  destruct (same_string (Question_id q) id) eqn:E.
  - apply same_string_eq in E. tauto.
  - simpl. rewrite IH by tauto. reflexivity.
Qed.

Lemma filter_removes (id : jsstring) (qs : list object) :
  ~ In (id_string id)
      (ids (filter (fun q => negb (same_string (Question_id q) id)) qs)).
Proof.
  unfold ids. rewrite in_map_iff. intros (q & E & H).
  apply filter_In in H. destruct H as [_ H].
  apply negb_true_iff, same_string_neq in H. contradiction.
Qed.

Lemma filter_idempotent (id : jsstring) (qs : list object) :
  filter (fun q => negb (same_string (Question_id q) id))
    (filter (fun q => negb (same_string (Question_id q) id)) qs)
  = filter (fun q => negb (same_string (Question_id q) id)) qs.
Proof. apply filter_absent, filter_removes. Qed.

(** ** The store *)

Lemma saveToLocalStorage_fits (qs : list object) (ls : Storage) :
  List.length (JSON_stringify (array qs)) <= quota ls ->
  saveToLocalStorage qs ls
  = (resolved, {| item := Some (JSON_stringify (array qs)); quota := quota ls |}).
Proof.
  intros H. unfold saveToLocalStorage, setItem.
  apply Nat.leb_le in H. rewrite H. reflexivity.
Qed.

Lemma saveToLocalStorage_full (qs : list object) (ls : Storage) :
  quota ls < List.length (JSON_stringify (array qs)) ->
  saveToLocalStorage qs ls = (rejected QuotaExceededError, ls).
Proof.
  intros H. unfold saveToLocalStorage, setItem.
  apply Nat.leb_gt in H. rewrite H. reflexivity.
Qed.

Lemma saveToLocalStorage_cases (qs : list object) (ls : Storage) :
  (fst (saveToLocalStorage qs ls) = resolved
   /\ snd (saveToLocalStorage qs ls)
      = {| item := Some (JSON_stringify (array qs)); quota := quota ls |})
  \/ (fst (saveToLocalStorage qs ls) = rejected QuotaExceededError
      /\ snd (saveToLocalStorage qs ls) = ls).
Proof.
  destruct (Nat.le_gt_cases (List.length (JSON_stringify (array qs))) (quota ls))
    as [H|H].
  - left. rewrite (saveToLocalStorage_fits _ _ H). auto.
  - right. rewrite (saveToLocalStorage_full _ _ H). auto.
Qed.

Lemma saveToLocalStorage_again (qs : list object) (ls : Storage) :
  snd (saveToLocalStorage qs (snd (saveToLocalStorage qs ls)))
  = snd (saveToLocalStorage qs ls).
Proof.
  destruct (Nat.le_gt_cases (List.length (JSON_stringify (array qs))) (quota ls))
    as [H|H].
  - rewrite (saveToLocalStorage_fits qs ls H). cbn [snd].
    rewrite saveToLocalStorage_fits by exact H. reflexivity.
  - rewrite (saveToLocalStorage_full qs ls H). cbn [snd].
    rewrite (saveToLocalStorage_full qs ls H). reflexivity.
Qed.

(** What [loadFromLocalStorage] returns after a write that fits. *)
Lemma load_saved (qs : list object) (ls : Storage) :
  List.length (JSON_stringify (array qs)) <= quota ls ->
  loadFromLocalStorage (snd (saveToLocalStorage qs ls))
  = Returns (normalise (array qs))
  /\ (storable (array qs) = true ->
      loadFromLocalStorage (snd (saveToLocalStorage qs ls)) = Returns (array qs)).
Proof.
  intros H. rewrite (saveToLocalStorage_fits _ _ H). cbn [snd].
  split; [apply load_stringify|apply load_storable].
Qed.

Lemma storable_filter (p : object -> bool) (qs : list object) :
  storable (array qs) = true -> storable (array (filter p qs)) = true.
Proof.
  unfold array. cbn [storable]. rewrite !forallb_forall.
  intros H v Hv. apply in_map_iff in Hv. destruct Hv as (q & <- & Hq).
  apply filter_In in Hq. apply H, in_map, Hq.
Qed.

(** A list of questions is read back at its type. *)
Lemma as_Questions_array (qs : list object) :
  forallb is_Question qs = true -> as_Questions (array qs) = Some qs.
Proof.
  unfold as_Questions, array.
  induction qs as [|q qs IH]; [reflexivity|].
  cbn [forallb map as_list as_Question]. rewrite andb_true_iff. intros [Hq H].
  rewrite Hq, (IH H). reflexivity.
Qed.

Lemma as_Questions_inv (v : value) (qs : list object) :
  as_Questions v = Some qs -> v = array qs /\ forallb is_Question qs = true.
Proof.
  unfold as_Questions, array. destruct v as [| | | |l|]; try discriminate.
  revert qs. induction l as [|v l IH]; intros qs.
  - intros E; injection E as <-. split; reflexivity.
  - cbn [as_list]. destruct (as_Question v) as [q|] eqn:Eq; [|discriminate].
    destruct (as_list as_Question l) as [qs'|]; [|discriminate].
    intros E; injection E as <-.
    destruct (IH qs' eq_refl) as [E1 E2]. injection E1 as ->.
    unfold as_Question in Eq. destruct v as [| | | | |o]; try discriminate.
    destruct (is_Question o) eqn:T; [|discriminate]. injection Eq as ->.
    cbn [map forallb]. rewrite T, E2. split; reflexivity.
Qed.

Lemma commitEdit_questions (uuid : jsstring) (s : State) (ls : Storage) :
  valid_buffer s -> questions (fst (commitEdit uuid (s, ls))) = committed uuid s.
Proof.
  intros H. rewrite (commitEdit_valid uuid s ls H). cbn [fst].
  apply effect_questions.
Qed.

Lemma ids_committed (uuid : jsstring) (s : State) :
  ids (committed uuid s)
  = ids (questions s)
    ++ match expanded s with None => [id_string uuid] | Some _ => [] end.
Proof.
  unfold committed. destruct (expanded s).
  - rewrite ids_updated, app_nil_r. reflexivity.
  - unfold ids. rewrite map_app. reflexivity.
Qed.

Lemma valid_load_edit (e : Edit) (s : State) :
  valid_edit e -> valid_buffer (load_edit e s).
Proof. intros H; exact H. Qed.

Lemma commitEdits_ids (es : list Edit) :
  Forall valid_edit es ->
  forall w, ids (questions (fst (commitEdits es w)))
            = ids (questions (fst w)) ++ created_ids es.
Proof.
  induction 1 as [|e es He _ IH]; intros w.
  - simpl. rewrite app_nil_r. reflexivity.
  - cbn [commitEdits fold_left]. fold (commitEdits es).
    rewrite IH, commitEdit_questions by (apply valid_load_edit; exact He).
    rewrite ids_committed. cbn [load_edit questions expanded created_ids flat_map].
    rewrite <- app_assoc. reflexivity.
Qed.

(** A second [deleteQuestion id] changes nothing at all. *)
Lemma deleteQuestion_idempotent (id : jsstring) (w : State * Storage) :
  deleteQuestion id (deleteQuestion id w) = deleteQuestion id w.
Proof.
  destruct w as [s ls]. rewrite (deleteQuestion_eq id s ls). cbv zeta.
  rewrite deleteQuestion_eq. cbv zeta.
  rewrite effect_questions. cbn [apply_setState questions].
  rewrite filter_idempotent, saveToLocalStorage_again.
  f_equal. destruct s as [qs t ty r h a sf l e m x].
  unfold questionsEffect. cbn [apply_setState questions].
  destruct (filter (fun q => negb (same_string (Question_id q) id)) qs);
    reflexivity.
Qed.

Lemma saveToLocalStorage_loads (qs : list object) (ls : Storage) :
  loads ls -> loads (snd (saveToLocalStorage qs ls)).
Proof.
  intros H. destruct (saveToLocalStorage_cases qs ls) as [[_ E]|[_ E]];
    rewrite E; [|exact H].
  unfold loads. rewrite load_stringify. discriminate.
Qed.

Lemma handleSaveChanges_loads (uuid : jsstring) (s : State) (ls : Storage) :
  loads ls -> loads (snd (handleSaveChanges uuid s ls)).
Proof.
  intros H. unfold handleSaveChanges.
  destruct (_ || _); [exact H|]. apply saveToLocalStorage_loads, H.
Qed.

(** The handlers write nothing but texts of [JSON.stringify], which
    [JSON.parse] reads. *)
Lemma dispatch_loads (e : Event) (w : State * Storage) :
  loads (snd w) -> loads (snd (dispatch (handler_of e) w)).
Proof.
  destruct w as [s ls]. cbn [snd]. intros H. unfold dispatch.
  destruct (handler_of e s ls) as [updates ls'] eqn:E. cbn [snd].
  assert (loads ls'); [|assumption].
  destruct e; cbn [handler_of] in E;
    try (injection E as _ <-; exact H).
  - unfold handleAddQuestionClick in E.
    destruct (_ || _); injection E as _ <-; exact H.
  - unfold handleDeleteQuestion in E. injection E as _ <-.
    apply saveToLocalStorage_loads, H.
  - unfold handleAccordionChange in E. destruct isExpanded.
    + injection E as _ <-; exact H.
    + replace ls' with (snd (handleSaveChanges uuid s ls)) by (rewrite E; reflexivity).
      apply handleSaveChanges_loads, H.
  - replace ls' with (snd (handleSaveChanges uuid s ls)) by (rewrite E; reflexivity).
    apply handleSaveChanges_loads, H.
Qed.

Lemma run_loads (events : list Event) (w : State * Storage) :
  loads (snd w) -> loads (snd (run events w)).
Proof.
  revert w. induction events as [|e events IH]; intros w H; [exact H|].
  cbn [run fold_left]. apply IH, dispatch_loads, H.
Qed.

Lemma mount_loads (ls : Storage) (s : State) : mount ls = Some s -> loads ls.
Proof.
  unfold mount, loads. destruct (loadFromLocalStorage ls); discriminate.
Qed.

(** ** The objects of the component are JavaScript objects *)

Lemma parse_number_well_formed (s : jsstring) v r :
  parse_number s = Some (v, r) -> well_formed v = true.
Proof.
  unfold parse_number. destruct (scan_number s) as [[lexeme rest]|]; [|discriminate].
  intros E; injection E as <- _. reflexivity.
Qed.

Lemma parse_literal_well_formed (s : jsstring) v r :
  parse_literal s = Parsed v r -> well_formed v = true.
Proof.
  unfold parse_literal.
  repeat (break_match; try discriminate); intros E; injection E as <- _;
    reflexivity.
Qed.

Lemma parse_well_formed (f : nat) :
  (forall s v r, parse_value f s = Parsed v r -> well_formed v = true)
  /\ (forall s vs r, parse_elements f s = Parsed vs r ->
                     forallb well_formed vs = true)
  /\ (forall s ms r, parse_members f s = Parsed ms r ->
                     forallb (fun p => well_formed (snd p)) ms = true).
Proof.
  induction f as [|f (IHv & IHe & IHm)];
    [repeat split; intros; discriminate|].
  repeat split; intros s v r H.
  - cbn [parse_value] in H. unfold parsed_map, parsed_of_option in H.
    repeat (break_match; try discriminate); inversion H; subst; clear H;
      repeat match goal with
      | E : Some _ = Some _ |- _ => inversion E; subst; clear E
      end; try reflexivity.
    + cbn [well_formed]. eapply IHe; eassumption.
    + apply (well_formed_spread _ []); [reflexivity|]. eapply IHm; eassumption.
    + eapply parse_number_well_formed; eassumption.
    + eapply parse_literal_well_formed; eassumption.
  - cbn [parse_elements] in H. unfold parsed_map in H.
    repeat (break_match; try discriminate); inversion H; subst; clear H;
      cbn [forallb]; apply andb_true_iff; split;
      try reflexivity; try (eapply IHv; eassumption);
      try (eapply IHe; eassumption).
  - cbn [parse_members] in H. unfold parsed_map in H.
    repeat (break_match; try discriminate); inversion H; subst; clear H;
      cbn [forallb snd]; apply andb_true_iff; split;
      try reflexivity; try (eapply IHv; eassumption);
      try (eapply IHm; eassumption).
Qed.

(** What [JSON.parse] returns is made of objects. *)
Lemma JSON_parse_well_formed (text : jsstring) (v : value) :
  JSON_parse text = Some v -> well_formed v = true.
Proof.
  unfold JSON_parse, parse_text.
  destruct (parse_value (2 * List.length text + 1) text) as [v' r| |] eqn:E;
    try discriminate.
  destruct (skip_ws r); [|discriminate]. intros H; injection H as <-.
  exact (proj1 (parse_well_formed _) _ _ _ E).
Qed.

Lemma load_well_formed (ls : Storage) (v : value) :
  loadFromLocalStorage ls = Returns v -> well_formed v = true.
Proof.
  unfold loadFromLocalStorage.
  destruct (truthy_opt (getItem ls)); [|intros H; injection H as <-; reflexivity].
  destruct (getItem ls) as [text|]; [|intros H; injection H as <-; reflexivity].
  destruct (JSON_parse text) as [v'|] eqn:E; [|discriminate].
  intros H; injection H as <-. exact (JSON_parse_well_formed _ _ E).
Qed.

Lemma well_formed_array (qs : list object) :
  well_formed (array qs) = forallb is_object qs.
Proof.
  unfold array. cbn [well_formed]. induction qs as [|q qs IH]; [reflexivity|].
  cbn [map forallb]. rewrite IH. reflexivity.
Qed.

Section Invariants.

Variables Q A : object -> bool.
Hypothesis empty_object : A [] = true.
Hypothesis field_set : forall fv o, A o = true -> A (set_field fv o) = true.
Hypothesis fields_read :
  forall q, Q q = true -> A (Question_additionalFields q) = true.
Hypothesis question_updated :
  forall s q, Q q = true -> A (additionalFields s) = true ->
              Q (spread q (buffer_properties s)) = true.
Hypothesis question_created :
  forall uuid s, A (additionalFields s) = true -> Q (newQuestion uuid s) = true.

Lemma render_invariant (updates : list setState) (s : State) :
  Forall (keeps Q A) updates -> invariant Q A s = true ->
  invariant Q A (render s updates) = true.
Proof.
  unfold render. intros F. revert s.
  induction F as [|u updates Hu _ IH]; intros s O; [exact O|].
  cbn [fold_left]. apply IH. unfold invariant in O |- *.
  apply andb_true_iff in O. destruct O as [HQ HA].
  destruct u; cbn [apply_setState questions additionalFields];
    cbn [keeps] in Hu; apply andb_true_iff; split;
    try assumption; auto.
Qed.

Lemma reset_buffer_keeps : Forall (keeps Q A) reset_buffer.
Proof.
  unfold reset_buffer. repeat constructor. intros o _. exact empty_object.
Qed.

Lemma questionsEffect_keeps (s : State) : Forall (keeps Q A) (questionsEffect s).
Proof.
  unfold questionsEffect. destruct (List.length (questions s) =? 0).
  - apply Forall_app. split; [apply reset_buffer_keeps|repeat constructor].
  - constructor.
Qed.

Lemma handler_keeps (e : Event) (s : State) (ls : Storage) :
  invariant Q A s = true -> Forall (keeps Q A) (fst (handler_of e s ls)).
Proof.
  intros O. unfold invariant in O.
  apply andb_true_iff in O. destruct O as [HQ HA].
  assert (Save : forall uuid, Forall (keeps Q A) (fst (handleSaveChanges uuid s ls))).
  { intros uuid. unfold handleSaveChanges.
    destruct (str_eqb (trim (questionTitle s)) [] || str_eqb (trim (questionType s)) []);
      [repeat constructor|].
    cbn [fst]. apply Forall_app. split; [|repeat constructor].
    destruct (expanded s) as [target|].
    - constructor; [|repeat constructor]. cbn [keeps].
      apply forallb_forall. intros q' Hq'. apply in_map_iff in Hq'.
      destruct Hq' as (q & <- & Hq). rewrite forallb_forall in HQ.
      unfold updatedQuestion. destruct (same_string (Question_id q) target).
      + apply question_updated; [exact (HQ q Hq)|exact HA].
      + exact (HQ q Hq).
    - constructor; [|repeat constructor]. cbn [keeps].
      rewrite forallb_app. apply andb_true_iff. split; [exact HQ|].
      cbn [forallb]. rewrite andb_true_r. apply question_created, HA. }
  destruct e; cbn [handler_of]; try (repeat constructor; fail).
  - unfold handleAddQuestionClick.
    destruct (negb (List.length (questions s) =? 0) || negb (truthy_opt (error s)));
      [|constructor].
    cbn [fst]. apply Forall_app. split; [apply reset_buffer_keeps|repeat constructor].
  - unfold handleDeleteQuestion. cbn [fst]. constructor; [|constructor].
    cbn [keeps]. apply forallb_forall. intros q Hq.
    apply filter_In in Hq. rewrite forallb_forall in HQ. exact (HQ q (proj1 Hq)).
  - unfold handleAccordionChange. destruct isExpanded; [|apply Save].
    cbn [fst]. constructor; [exact I|].
    destruct (find _ (questions s)) as [q|] eqn:F; [|constructor].
    apply find_some in F. rewrite forallb_forall in HQ.
    repeat constructor. cbn [keeps]. intros _ _.
    exact (fields_read _ (HQ q (proj1 F))).
  - apply Save.
  - unfold handleAdditionalFields. cbn [fst]. constructor; [|constructor].
    cbn [keeps]. intros o W. apply field_set, W.
Qed.

Lemma dispatch_invariant (e : Event) (w : State * Storage) :
  invariant Q A (fst w) = true ->
  invariant Q A (fst (dispatch (handler_of e) w)) = true.
Proof.
  destruct w as [s ls]. cbn [fst]. intros O. unfold dispatch.
  pose proof (handler_keeps e s ls O) as H.
  destruct (handler_of e s ls) as [updates ls']. cbn [fst] in H |- *.
  pose proof (render_invariant _ _ H O) as O1.
  destruct (sets_questions updates); [|exact O1].
  apply render_invariant; [apply questionsEffect_keeps|exact O1].
Qed.

Lemma run_invariant (events : list Event) (w : State * Storage) :
  invariant Q A (fst w) = true -> invariant Q A (fst (run events w)) = true.
Proof.
  unfold run. revert w. induction events as [|e events IH]; intros w O; [exact O|].
  cbn [fold_left]. apply IH, dispatch_invariant, O.
Qed.

Lemma first_render_invariant (qs : list object) :
  forallb Q qs = true -> invariant Q A (first_render qs) = true.
Proof.
  intros W. unfold first_render. apply render_invariant.
  - apply questionsEffect_keeps.
  - unfold invariant, initialState. cbn [questions additionalFields].
    rewrite W, empty_object. reflexivity.
Qed.

End Invariants.

Lemma buffer_properties_well_formed (s : State) :
  is_object (additionalFields s) = true ->
  forallb (fun p => well_formed (snd p)) (buffer_properties s) = true.
Proof.
  unfold is_object. intros HA.
  unfold buffer_properties. cbn [forallb snd]. rewrite HA. reflexivity.
Qed.

Lemma Question_additionalFields_well_formed (q : object) :
  is_object q = true -> is_object (Question_additionalFields q) = true.
Proof.
  unfold is_object. intros W. unfold Question_additionalFields, object_of.
  destruct (get (js "additionalFields") q) as [v|] eqn:G; [|reflexivity].
  pose proof (well_formed_get _ _ _ W G) as Wv.
  destruct v; try reflexivity. exact Wv.
Qed.

(** Whatever the user does, the objects of the component stay objects:
    their keys are distinct and in the order of the language. *)
Lemma run_objects (events : list Event) (w : State * Storage) :
  objects (fst w) = true -> objects (fst (run events w)) = true.
Proof.
  apply run_invariant.
  - reflexivity.
  - intros fv o W. unfold is_object, set_field.
    apply well_formed_spread; [exact W|]. cbn [forallb snd].
    destruct fv; reflexivity.
  - apply Question_additionalFields_well_formed.
  - intros s q Wq Wa. apply well_formed_spread; [exact Wq|].
    exact (buffer_properties_well_formed _ Wa).
  - intros uuid s Wa. unfold is_object, newQuestion.
    apply (well_formed_spread _ []); [reflexivity|].
    cbn [forallb snd well_formed]. exact (buffer_properties_well_formed _ Wa).
Qed.

Lemma first_render_objects (qs : list object) :
  well_formed (array qs) = true -> objects (first_render qs) = true.
Proof.
  intros W. apply first_render_invariant; [reflexivity|].
  rewrite <- well_formed_array. exact W.
Qed.

(** The component starts on objects. *)
Lemma mount_objects (ls : Storage) (s : State) :
  mount ls = Some s -> objects s = true.
Proof.
  unfold mount. destruct (loadFromLocalStorage ls) as [v|] eqn:L; [|discriminate].
  destruct (as_Questions v) as [qs|] eqn:E; [|discriminate].
  intros H; injection H as <-. apply first_render_objects.
  destruct (as_Questions_inv _ _ E) as [<- _]. exact (load_well_formed _ _ L).
Qed.

(** A list of the component whose numbers are plain is storable. *)
Lemma objects_storable (s : State) :
  objects s = true -> plain_numbers (array (questions s)) = true ->
  storable (array (questions s)) = true.
Proof.
  unfold objects, invariant. rewrite andb_true_iff. intros [HQ _] P.
  rewrite storable_parts, well_formed_array. apply andb_true_iff.
  split; [exact HQ|exact P].
Qed.

(** ** The component stays in its declared types *)

Lemma is_AdditionalFields_set_field (fv : FieldValue) (o : object) :
  is_AdditionalFields o = true -> is_AdditionalFields (set_field fv o) = true.
Proof.
  unfold is_AdditionalFields, set_field, spread. cbn [fold_left fst snd].
  rewrite !andb_true_iff. intros [[H1 H2] H3].
  destruct fv as [t|x|x]; cbn [field_key field_value];
    repeat (first [rewrite get_define_same
                  |rewrite get_define_other by distinct_keys]);
    repeat split; try assumption; try reflexivity.
  destruct t; reflexivity.
Qed.

Lemma is_AdditionalFields_read (q : object) :
  is_Question q = true -> is_AdditionalFields (Question_additionalFields q) = true.
Proof.
  unfold is_Question. rewrite !andb_true_iff. intros [_ H].
  unfold Question_additionalFields, object_of.
  destruct (get (js "additionalFields") q) as [v|]; [|reflexivity].
  cbn [is_optional is_AdditionalFields_value] in H.
  destruct v; try discriminate H. exact H.
Qed.

Lemma is_Question_updated (s : State) (q : object) :
  is_Question q = true -> is_AdditionalFields (additionalFields s) = true ->
  is_Question (spread q (buffer_properties s)) = true.
Proof.
  intros Hq Ha. pose proof (updated_id s q) as Ei. unfold Question_id in Ei.
  destruct (updated_properties s q) as (E1 & E2 & E3 & E4 & E5).
  cbv zeta in E1, E2, E3, E4, E5.
  unfold is_Question in Hq |- *. rewrite Ei, E1, E2, E3, E4, E5.
  rewrite !andb_true_iff in Hq. destruct Hq as [[[[[Hi _] _] _] _] _].
  rewrite Hi. cbn [is_string is_boolean is_optional is_AdditionalFields_value andb].
  exact Ha.
Qed.

Lemma is_Question_created (uuid : jsstring) (s : State) :
  is_AdditionalFields (additionalFields s) = true ->
  is_Question (newQuestion uuid s) = true.
Proof.
  intros Ha.
  assert (Ei : get (js "id") (newQuestion uuid s) = Some (JStr uuid)).
  { unfold newQuestion, spread, buffer_properties. cbn [fold_left fst snd].
    repeat (rewrite get_define_other by distinct_keys). apply get_define_same. }
  assert (E : newQuestion uuid s
              = spread (define (js "id") (JStr uuid) []) (buffer_properties s))
    by reflexivity.
  destruct (updated_properties s (define (js "id") (JStr uuid) []))
    as (E1 & E2 & E3 & E4 & E5).
  cbv zeta in E1, E2, E3, E4, E5. rewrite <- E in E1, E2, E3, E4, E5.
  unfold is_Question. rewrite Ei, E1, E2, E3, E4, E5.
  cbn [is_string is_boolean is_optional is_AdditionalFields_value andb].
  exact Ha.
Qed.

(** From a state of the declared types the component reaches such
    states only. *)
Lemma run_typed (events : list Event) (w : State * Storage) :
  typed (fst w) = true -> typed (fst (run events w)) = true.
Proof.
  apply run_invariant.
  - reflexivity.
  - apply is_AdditionalFields_set_field.
  - apply is_AdditionalFields_read.
  - apply is_Question_updated.
  - apply is_Question_created.
Qed.

(** The component starts in one. *)
Lemma mount_typed (ls : Storage) (s : State) :
  mount ls = Some s -> typed s = true.
Proof.
  unfold mount. destruct (loadFromLocalStorage ls) as [v|]; [|discriminate].
  destruct (as_Questions v) as [qs|] eqn:E; [|discriminate].
  intros H; injection H as <-.
  apply first_render_invariant; [reflexivity|].
  exact (proj2 (as_Questions_inv _ _ E)).
Qed.

(* ================================================================= *)
(** * The claims *)

(* ----------------------------------------------------------------- *)
(** ** C1: the list a commit writes to the store *)

(** The store receives the list of the render the handler ran in. *)
Lemma commitEdit_store (uuid : jsstring) (s : State) (ls : Storage) :
  valid_buffer s ->
  snd (commitEdit uuid (s, ls)) = snd (saveToLocalStorage (questions s) ls).
Proof. intros H. rewrite (commitEdit_valid uuid s ls H). reflexivity. Qed.

(** So after a commit whose write fits, the store holds the list as it
    was before the commit. *)
Lemma commitEdit_loads_previous (uuid : jsstring) (s : State) (ls : Storage) :
  valid_buffer s -> storable (array (questions s)) = true ->
  List.length (JSON_stringify (array (questions s))) <= quota ls ->
  loadFromLocalStorage (snd (commitEdit uuid (s, ls)))
  = Returns (array (questions s)).
Proof.
  intros Hv Hs Hq. rewrite (commitEdit_store uuid s ls Hv).
  exact (proj2 (load_saved _ _ Hq) Hs).
Qed.

(* ----------------------------------------------------------------- *)
(** ** C2: what [loadFromLocalStorage] returns *)

(** C2, amended: [loadFromLocalStorage] returns the empty list when the
    entry is absent or the empty string; on any other entry it returns
    the value the text denotes when the text is JSON, which is the list
    of questions, in its order, when the text was written from one, and
    it throws the SyntaxError of [JSON.parse] when the text is not
    JSON. *)
Theorem loadFromLocalStorage_cases (ls : Storage) :
  (getItem ls = None -> loadFromLocalStorage ls = Returns (array []))
  /\ (getItem ls = Some [] -> loadFromLocalStorage ls = Returns (array []))
  /\ (forall text v, getItem ls = Some text -> text <> [] ->
                     JSON_parse text = Some v -> loadFromLocalStorage ls = Returns v)
  /\ (forall qs, getItem ls = Some (JSON_stringify (array qs)) ->
                 storable (array qs) = true ->
                 loadFromLocalStorage ls = Returns (array qs))
  /\ (forall text, getItem ls = Some text -> text <> [] ->
                   JSON_parse text = None -> loadFromLocalStorage ls = Throws).
Proof.
  destruct ls as [i q]. unfold getItem. cbn [item]. repeat split.
  - intros ->. reflexivity.
  - intros ->. reflexivity.
  - intros text v -> Hn Hp. unfold loadFromLocalStorage, getItem. cbn [item].
    destruct text; [congruence|]. cbn [truthy_opt truthy]. rewrite Hp.
    reflexivity.
  - intros qs -> Hs. apply load_storable, Hs.
  - intros text -> Hn Hp. unfold loadFromLocalStorage, getItem. cbn [item].
    destruct text; [congruence|]. cbn [truthy_opt truthy]. rewrite Hp.
    reflexivity.
Qed.

(* ----------------------------------------------------------------- *)
(** ** C3: a commit with an empty title or type *)

(** C3: a commit with an empty title or an empty type sets the error
    message and changes nothing else: not the list, not the open panel,
    not the form, not the store. *)
Theorem commitEdit_rejects_empty_fields
  (uuid : jsstring) (s : State) (ls : Storage) :
  trim (questionTitle s) = [] \/ trim (questionType s) = [] ->
  error (fst (commitEdit uuid (s, ls))) = Some required_fields_message
  /\ questions (fst (commitEdit uuid (s, ls))) = questions s
  /\ expanded (fst (commitEdit uuid (s, ls))) = expanded s
  /\ showForm (fst (commitEdit uuid (s, ls))) = showForm s
  /\ snd (commitEdit uuid (s, ls)) = ls.
Proof.
  intros H. rewrite (commitEdit_invalid uuid s ls H). repeat split.
Qed.

(* ----------------------------------------------------------------- *)
(** ** C4: ids and their order across commits *)

(** C4: after any sequence of commits with valid buffers, the ids of the
    list are the ids it had, in their places, followed by the ids of the
    questions created, in the order of their creation; they are distinct
    when the ids at the start and the generated ones are. *)
Theorem commitEdits_preserve_ids (es : list Edit) (w : State * Storage) :
  Forall valid_edit es ->
  NoDup (ids (questions (fst w)) ++ created_ids es) ->
  ids (questions (fst (commitEdits es w)))
  = ids (questions (fst w)) ++ created_ids es
  /\ NoDup (ids (questions (fst (commitEdits es w))))
  /\ forall n id, nth_error (ids (questions (fst w))) n = Some id ->
                  nth_error (ids (questions (fst (commitEdits es w)))) n
                  = Some id.
Proof.
  intros Hv Hn. pose proof (commitEdits_ids es Hv w) as E.
  rewrite E. repeat split; [exact Hn|].
  intros n id H. rewrite nth_error_app1; [exact H|].
  apply nth_error_Some. congruence.
Qed.

(* ----------------------------------------------------------------- *)
(** ** C5: [deleteQuestion] removes, persists and is idempotent *)

(** C5: [deleteQuestion id] keeps the questions whose id is not [id], in
    their order, and hands that list to the store; when it fits, the
    store then holds its text, which is read back as the list.  With
    [id] absent the list stays as it is, and a second [deleteQuestion id]
    changes nothing, in the list or elsewhere. *)
Theorem deleteQuestion_removes_and_persists
  (id : jsstring) (s : State) (ls : Storage) :
  let w1 := deleteQuestion id (s, ls) in
  questions (fst w1)
  = filter (fun q => negb (same_string (Question_id q) id)) (questions s)
  /\ (forall q, In q (questions (fst w1))
                <-> In q (questions s) /\ Question_id q <> id_string id)
  /\ snd w1 = snd (saveToLocalStorage (questions (fst w1)) ls)
  /\ (List.length (JSON_stringify (array (questions (fst w1)))) <= quota ls ->
      item (snd w1) = Some (JSON_stringify (array (questions (fst w1))))
      /\ (storable (array (questions (fst w1))) = true ->
          loadFromLocalStorage (snd w1) = Returns (array (questions (fst w1)))))
  /\ (~ In (id_string id) (ids (questions s)) -> questions (fst w1) = questions s)
  /\ questions (fst (deleteQuestion id w1)) = questions (fst w1)
  /\ deleteQuestion id w1 = w1.
Proof.
  cbv zeta. rewrite deleteQuestion_idempotent.
  assert (E : questions (fst (deleteQuestion id (s, ls)))
              = filter (fun q => negb (same_string (Question_id q) id))
                  (questions s))
    by (rewrite deleteQuestion_eq; cbn [fst]; apply effect_questions).
  rewrite !E.
  split; [reflexivity|].
  split.
  { intros q. rewrite filter_In, negb_true_iff, same_string_neq. reflexivity. }
  split; [reflexivity|].
  split.
  { intros H. rewrite deleteQuestion_eq. cbn [snd]. split.
    - rewrite (saveToLocalStorage_fits _ _ H). reflexivity.
    - exact (proj2 (load_saved _ _ H)). }
  split; [apply filter_absent|].
  split; reflexivity.
Qed.

(* ----------------------------------------------------------------- *)
(** ** C6: deleting the question whose panel is open *)

(** C6, amended: after [deleteQuestion id] on the id whose panel is open,
    no question of the list has its panel drawn open, and when the list
    is left empty [expanded] is reset and the buffer is blank. *)
Theorem deleteQuestion_closes_panels (id : jsstring) (s : State) (ls : Storage) :
  expanded s = Some id ->
  let s' := fst (deleteQuestion id (s, ls)) in
  (forall q, In q (questions s') -> panel_open s' q = false)
  /\ (questions s' = [] ->
      expanded s' = None /\ questionTitle s' = [] /\ questionType s' = []
      /\ isRequired s' = false /\ helperText s' = []
      /\ additionalFields s' = []).
Proof.
  intros He. cbv zeta. rewrite deleteQuestion_eq. cbn [fst].
  set (qs := filter (fun q => negb (same_string (Question_id q) id)) (questions s)).
  split.
  - intros q. rewrite effect_questions. cbn [apply_setState questions].
    intros Hq. unfold panel_open. rewrite effect_expanded.
    cbn [apply_setState questions expanded]. rewrite He.
    destruct qs as [|q0 qs0] eqn:E; [reflexivity|].
    apply same_string_neq. intros Hid.
    apply (filter_removes id (questions s)).
    fold qs. rewrite E, <- Hid. apply in_map. exact Hq.
  - rewrite effect_questions. cbn [apply_setState questions].
    intros E. unfold questionsEffect. cbn [apply_setState questions].
    rewrite E. repeat split.
Qed.

(* ----------------------------------------------------------------- *)
(** ** C7: [startNewQuestion] *)

(** C7, amended: when the list is not empty or no error message is up,
    [startNewQuestion] blanks the buffer, closes every panel, shows the
    form and leaves the list and the store as they are; otherwise it
    does nothing. *)
Theorem startNewQuestion_guarded (w : State * Storage) :
  (questions (fst w) <> [] \/ truthy_opt (error (fst w)) = false ->
   starts_blank_form w (startNewQuestion w))
  /\ (questions (fst w) = [] /\ truthy_opt (error (fst w)) = true ->
      startNewQuestion w = w).
Proof.
  destruct w as [s ls]. unfold startNewQuestion, dispatch, handleAddQuestionClick.
  cbn [fst snd]. split.
  - intros H.
    assert (G : negb (List.length (questions s) =? 0)
                || negb (truthy_opt (error s)) = true).
    { destruct H as [H|H].
      - destruct (questions s); [congruence|reflexivity].
      - rewrite H. apply orb_true_r. }
    rewrite G. repeat split.
  - intros [H1 H2]. rewrite H1, H2. reflexivity.
Qed.

(* ----------------------------------------------------------------- *)
(** ** C8: the round trip through the store *)

(** C8, amended: for every list of questions that JSON can hold (its
    objects as JavaScript orders them, its numbers finite and none the
    negative zero), [loadFromLocalStorage] after a [saveToLocalStorage]
    that resolves returns the list; saving the list that
    [loadFromLocalStorage] returns leaves what it returns as it is,
    whether the write resolves or not, and leaves the entry itself as it
    is when the entry is the text of the list. *)
Theorem save_load_round_trip (qs : list object) (ls : Storage) :
  storable (array qs) = true ->
  (fst (saveToLocalStorage qs ls) = resolved ->
   loadFromLocalStorage (snd (saveToLocalStorage qs ls)) = Returns (array qs))
  /\ (loadFromLocalStorage ls = Returns (array qs) ->
      loadFromLocalStorage (snd (saveToLocalStorage qs ls)) = Returns (array qs))
  /\ (item ls = Some (JSON_stringify (array qs)) ->
      loadFromLocalStorage ls = Returns (array qs)
      /\ snd (saveToLocalStorage qs ls) = ls).
Proof.
  intros Hs. split; [|split].
  - intros H.
    destruct (saveToLocalStorage_cases qs ls) as [[_ E]|[E _]];
      [|congruence].
    rewrite E. apply load_storable, Hs.
  - intros E.
    destruct (saveToLocalStorage_cases qs ls) as [[_ H]|[_ H]]; rewrite H.
    + apply load_storable, Hs.
    + exact E.
  - intros H. destruct ls as [i q]. cbn [item] in H. subst i.
    split; [apply load_storable, Hs|].
    destruct (saveToLocalStorage_cases qs
                {| item := Some (JSON_stringify (array qs)); quota := q |})
      as [[_ E]|[_ E]]; exact E.
Qed.

(* ----------------------------------------------------------------- *)
(** ** C9: a commit whose write fails *)

(** Whatever the write does, a valid commit leaves the error message as
    it was and sets the message of success: the promise of
    [saveToLocalStorage] is not looked at. *)
Lemma commitEdit_ignores_promise
  (uuid : jsstring) (s : State) (ls : Storage) :
  valid_buffer s ->
  questions (fst (commitEdit uuid (s, ls))) = committed uuid s
  /\ error (fst (commitEdit uuid (s, ls))) = error s
  /\ successMessage (fst (commitEdit uuid (s, ls))) = Some (commit_message s)
  /\ (forall reason, fst (saveToLocalStorage (questions s) ls) = rejected reason ->
      snd (commitEdit uuid (s, ls)) = ls).
Proof.
  intros Hv. rewrite (commitEdit_valid uuid s ls Hv). cbn [fst snd].
  rewrite effect_questions, effect_error, effect_successMessage.
  repeat split. intros reason Hr.
  destruct (saveToLocalStorage_cases (questions s) ls) as [[H _]|[_ H]];
    [congruence|exact H].
Qed.

(* ----------------------------------------------------------------- *)
(** ** C10: a commit whose target is not in the list *)

(** C10: a valid commit whose target is an id the list does not have
    leaves the list as it is, sets the message of an update, hides the
    form and resets [expanded]. *)
Theorem commitEdit_missing_target
  (uuid id : jsstring) (s : State) (ls : Storage) :
  expanded s = Some id -> ~ In (id_string id) (ids (questions s)) ->
  valid_buffer s ->
  questions (fst (commitEdit uuid (s, ls))) = questions s
  /\ successMessage (fst (commitEdit uuid (s, ls))) = Some updated_message
  /\ showForm (fst (commitEdit uuid (s, ls))) = false
  /\ expanded (fst (commitEdit uuid (s, ls))) = None.
Proof.
  intros He Hn Hv. rewrite (commitEdit_valid uuid s ls Hv). cbn [fst].
  rewrite effect_questions, effect_successMessage, effect_showForm,
    effect_expanded.
  unfold committed_state, committed, commit_message.
  cbn [questions successMessage showForm expanded]. rewrite He.
  rewrite (updated_absent id s (questions s) Hn).
  repeat split. destruct (questions s); reflexivity.
Qed.

(* ================================================================= *)
(** * Further properties of the component *)

Lemma has_id_In (qs : list object) (id : jsstring) :
  has_id qs id = true <-> In (id_string id) (ids qs).
Proof.
  unfold has_id, ids. rewrite existsb_exists, in_map_iff.
  split; intros (q & H1 & H2).
  - apply same_string_eq in H2. eauto.
  - exists q. split; [assumption|]. apply same_string_eq. assumption.
Qed.

Lemma find_id_In (qs : list object) (id : jsstring) :
  In (id_string id) (ids qs) ->
  exists q, find (fun q => same_string (Question_id q) id) qs = Some q
            /\ In q qs /\ Question_id q = id_string id.
Proof.
  induction qs as [|q0 qs IH]; simpl; [tauto|]. intros H.
  destruct (same_string (Question_id q0) id) eqn:E.
  - exists q0. apply same_string_eq in E. auto.
  - destruct H as [H|H]; [apply same_string_neq in E; contradiction|].
    destruct (IH H) as (q & H1 & H2 & H3). exists q. auto.
Qed.

Lemma find_id_absent (qs : list object) (id : jsstring) :
  ~ In (id_string id) (ids qs) ->
  find (fun q => same_string (Question_id q) id) qs = None.
Proof.
  induction qs as [|q0 qs IH]; simpl; [reflexivity|]. intros H.
  destruct (same_string (Question_id q0) id) eqn:E.
  - apply same_string_eq in E. tauto.
  - apply IH. tauto.
Qed.

Lemma startEditQuestion_found (id : jsstring) (q : object) (s : State)
  (ls : Storage) :
  find (fun q => same_string (Question_id q) id) (questions s) = Some q ->
  startEditQuestion id (s, ls)
  = ({| questions := questions s; questionTitle := Question_title q;
        questionType := Question_type q; isRequired := Question_required q;
        helperText := Question_helperText q;
        additionalFields := Question_additionalFields q;
        showForm := false; loading := loading s; error := error s;
        successMessage := successMessage s; expanded := Some id |}, ls).
Proof.
  intros H. unfold startEditQuestion, dispatch, handleAccordionChange.
  rewrite H. reflexivity.
Qed.

(** The properties of an object of type [Question] are what the reads
    of [handleAccordionChange] give. *)
Lemma is_Question_properties (q : object) :
  is_Question q = true ->
  get (js "title") q = Some (JStr (Question_title q))
  /\ get (js "type") q = Some (JStr (Question_type q))
  /\ get (js "required") q = Some (JBool (Question_required q))
  /\ (get (js "helperText") q = Some (JStr (Question_helperText q))
      \/ get (js "helperText") q = None /\ Question_helperText q = [])
  /\ (get (js "additionalFields") q = Some (JObj (Question_additionalFields q))
      \/ get (js "additionalFields") q = None /\ Question_additionalFields q = []).
Proof.
  unfold is_Question, Question_title, Question_type, Question_required,
    Question_helperText, Question_additionalFields.
  rewrite !andb_true_iff. intros [[[[[_ H1] H2] H3] H4] H5].
  destruct (get (js "title") q) as [[]|]; try discriminate H1.
  destruct (get (js "type") q) as [[]|]; try discriminate H2.
  destruct (get (js "required") q) as [[]|]; try discriminate H3.
  destruct (get (js "helperText") q) as [[]|]; try discriminate H4.
  - destruct (get (js "additionalFields") q) as [[]|]; try discriminate H5;
      cbn; auto 10.
  - destruct (get (js "additionalFields") q) as [[]|]; try discriminate H5;
      cbn; auto 10.
Qed.

(** X1: opening the panel of a question of the list, the questions
    being of the declared type, puts the properties of the first
    question with that id in the buffer, an absent helper text as the
    empty string and absent additional fields as the empty object, marks
    that id as expanded and hides the blank form; the list and the store
    stay as they are. *)
Theorem startEditQuestion_loads_question
  (id : jsstring) (s : State) (ls : Storage) :
  forallb is_Question (questions s) = true ->
  In (id_string id) (ids (questions s)) ->
  let s' := fst (startEditQuestion id (s, ls)) in
  exists q,
    find (fun q => same_string (Question_id q) id) (questions s) = Some q
    /\ In q (questions s) /\ Question_id q = id_string id
    /\ get (js "title") q = Some (JStr (questionTitle s'))
    /\ get (js "type") q = Some (JStr (questionType s'))
    /\ get (js "required") q = Some (JBool (isRequired s'))
    /\ helperText s'
       = match get (js "helperText") q with Some (JStr h) => h | _ => [] end
    /\ additionalFields s'
       = match get (js "additionalFields") q with Some (JObj a) => a | _ => [] end
    /\ expanded s' = Some id
    /\ showForm s' = false
    /\ questions s' = questions s
    /\ snd (startEditQuestion id (s, ls)) = ls.
Proof.
  intros Ht H. cbv zeta.
  destruct (find_id_In (questions s) id H) as (q & H1 & H2 & H3).
  exists q. rewrite (startEditQuestion_found id q s ls H1).
  rewrite forallb_forall in Ht.
  destruct (is_Question_properties q (Ht q H2)) as (P1 & P2 & P3 & _).
  cbn [fst snd questionTitle questionType isRequired helperText additionalFields
       expanded showForm questions].
  repeat split; assumption.
Qed.

(** X2: opening a panel for an id the list does not have only records
    the id in [expanded]: the buffer, the blank form, the list and the
    store stay as they are. *)
Theorem startEditQuestion_missing (id : jsstring) (s : State) (ls : Storage) :
  ~ In (id_string id) (ids (questions s)) ->
  startEditQuestion id (s, ls) = (apply_setState s (setExpanded (Some id)), ls).
Proof.
  intros H. unfold startEditQuestion, dispatch, handleAccordionChange.
  rewrite (find_id_absent _ _ H). reflexivity.
Qed.

Lemma find_app {A} (p : A -> bool) (l l' : list A) :
  find p (l ++ l') = match find p l with Some x => Some x | None => find p l' end.
Proof.
  induction l as [|a l IH]; [reflexivity|]. simpl.
  destruct (p a); [reflexivity|exact IH].
Qed.

Lemma find_updated (t : jsstring) (s : State) (qs : list object) :
  In (id_string t) (ids qs) ->
  exists q, In q qs
            /\ find (fun q => same_string (Question_id q) t)
                 (map (updatedQuestion t s) qs)
               = Some (spread q (buffer_properties s)).
Proof.
  induction qs as [|q qs IH]; simpl; [tauto|]. intros H.
  rewrite updatedQuestion_id.
  destruct (same_string (Question_id q) t) eqn:E.
  - exists q. split; [left; reflexivity|]. unfold updatedQuestion. rewrite E.
    reflexivity.
  - destruct H as [H|H]; [apply same_string_neq in E; contradiction|].
    destruct (IH H) as (q' & Hq' & F). exists q'. split; [right; exact Hq'|exact F].
Qed.

Lemma committed_nonempty (uuid : jsstring) (s : State) :
  match expanded s with
  | None => True
  | Some t => In (id_string t) (ids (questions s))
  end ->
  committed uuid s <> [].
Proof.
  unfold committed. destruct (expanded s) as [t|].
  - destruct (questions s); simpl; [tauto|discriminate].
  - intros _ H. apply app_eq_nil in H. destruct H as [_ H]. discriminate H.
Qed.

(** X3: after a commit that is accepted, opening the panel of the
    question it created (its id being new to the list) or updated (its
    id being in the list) brings back the buffer that was committed. *)
Theorem commitEdit_then_reopen (uuid : jsstring) (s : State) (ls : Storage) :
  valid_buffer s ->
  match expanded s with
  | None => ~ In (id_string uuid) (ids (questions s))
  | Some t => In (id_string t) (ids (questions s))
  end ->
  let id := match expanded s with None => uuid | Some t => t end in
  let w1 := commitEdit uuid (s, ls) in
  let s2 := fst (startEditQuestion id w1) in
  questionTitle s2 = questionTitle s /\ questionType s2 = questionType s
  /\ isRequired s2 = isRequired s /\ helperText s2 = helperText s
  /\ additionalFields s2 = additionalFields s
  /\ expanded s2 = Some id /\ questions s2 = questions (fst w1).
Proof.
  intros Hv Hid. cbv zeta. rewrite (commitEdit_valid uuid s ls Hv).
  rewrite effect_nonempty
    by (apply committed_nonempty; destruct (expanded s); [exact Hid|exact I]).
  set (id := match expanded s with None => uuid | Some t => t end).
  assert (F : exists q,
            find (fun q => same_string (Question_id q) id)
              (questions (committed_state uuid s)) = Some q
            /\ Question_title q = questionTitle s
            /\ Question_type q = questionType s
            /\ Question_required q = isRequired s
            /\ Question_helperText q = helperText s
            /\ Question_additionalFields q = additionalFields s).
  { unfold id, committed_state, committed. cbn [questions].
    destruct (expanded s) as [t|].
    - destruct (find_updated t s (questions s) Hid) as (q & _ & F).
      exists (spread q (buffer_properties s)). split; [exact F|].
      destruct (updated_properties s q) as (P1 & P2 & P3 & P4 & P5).
      unfold Question_title, Question_type, Question_required,
        Question_helperText, Question_additionalFields.
      rewrite P1, P2, P3, P4, P5. repeat split.
    - exists (newQuestion uuid s). split; [|repeat split].
      rewrite find_app, (find_id_absent _ _ Hid). cbn [find].
      replace (same_string (Question_id (newQuestion uuid s)) uuid) with true;
        [reflexivity|].
      symmetry. apply same_string_eq. reflexivity. }
  destruct F as (q & F & P1 & P2 & P3 & P4 & P5).
  rewrite (startEditQuestion_found id _ _ _ F). cbn [fst].
  cbn [questionTitle questionType isRequired helperText additionalFields expanded
       questions].
  repeat split; assumption.
Qed.

Lemma unique_by_id (qs : list object) (q q' : object) :
  NoDup (ids qs) -> In q qs -> In q' qs -> Question_id q = Question_id q' ->
  q = q'.
Proof.
  induction qs as [|q0 qs IH]; simpl; [tauto|].
  intros Hn H H' E. inversion Hn as [|? ? Hnot Hn']; subst.
  destruct H as [->|H], H' as [->|H'].
  - reflexivity.
  - exfalso. apply Hnot. rewrite E. apply in_map, H'.
  - exfalso. apply Hnot. rewrite <- E. apply in_map, H.
  - apply IH; assumption.
Qed.

Lemma map_fixed {A} (f : A -> A) (l : list A) :
  (forall a, In a l -> f a = a) -> map f l = l.
Proof.
  induction l as [|a l IH]; [reflexivity|]. intros H. simpl.
  rewrite H, IH; [reflexivity|intros; apply H; right; assumption|left; reflexivity].
Qed.

(** Writing back to a question what was read from it gives the
    question, when it has both optional properties. *)
Lemma updated_unedited (q : object) (s : State) :
  is_Question q = true -> complete q = true ->
  questionTitle s = Question_title q -> questionType s = Question_type q ->
  isRequired s = Question_required q -> helperText s = Question_helperText q ->
  additionalFields s = Question_additionalFields q ->
  spread q (buffer_properties s) = q.
Proof.
  intros Ht Hc E1 E2 E3 E4 E5.
  destruct (is_Question_properties q Ht) as (P1 & P2 & P3 & P4 & P5).
  assert (P4' : get (js "helperText") q = Some (JStr (Question_helperText q))).
  { destruct P4 as [P4|[P4 _]]; [exact P4|].
    unfold complete in Hc. rewrite P4 in Hc. discriminate Hc. }
  assert (P5' : get (js "additionalFields") q
                = Some (JObj (Question_additionalFields q))).
  { destruct P5 as [P5|[P5 _]]; [exact P5|].
    unfold complete in Hc. rewrite P5 in Hc.
    destruct (get (js "helperText") q) as [[]|]; discriminate Hc. }
  unfold spread, buffer_properties. cbn [fold_left fst snd].
  rewrite E1, E2, E3, E4, E5.
  rewrite (define_same _ _ _ P1), (define_same _ _ _ P2), (define_same _ _ _ P3),
    (define_same _ _ _ P4'), (define_same _ _ _ P5').
  reflexivity.
Qed.

(** X4: with distinct ids, opening the panel of a question of the
    declared type that has a title, a type and both optional properties,
    and collapsing it without a change, leaves the list as it is and
    hands this very list to the store, which then holds it when it
    fits. *)
Theorem open_then_collapse_unedited
  (uuid id : jsstring) (q : object) (s : State) (ls : Storage) :
  NoDup (ids (questions s)) -> In q (questions s) ->
  Question_id q = id_string id ->
  is_Question q = true -> complete q = true ->
  trim (Question_title q) <> [] -> trim (Question_type q) <> [] ->
  let w2 := dispatch (handleAccordionChange id false uuid)
              (startEditQuestion id (s, ls)) in
  questions (fst w2) = questions s
  /\ expanded (fst w2) = None /\ showForm (fst w2) = false
  /\ snd w2 = snd (saveToLocalStorage (questions s) ls)
  /\ (List.length (JSON_stringify (array (questions s))) <= quota ls ->
      item (snd w2) = Some (JSON_stringify (array (questions (fst w2))))
      /\ (storable (array (questions s)) = true ->
          loadFromLocalStorage (snd w2) = Returns (array (questions (fst w2))))).
Proof.
  intros Hn Hq Hid Hty Hc Ht Htp. cbv zeta.
  assert (Hin : In (id_string id) (ids (questions s)))
    by (rewrite <- Hid; apply in_map, Hq).
  destruct (find_id_In (questions s) id Hin) as (q' & F & Hq' & E).
  assert (q' = q) by (apply (unique_by_id (questions s)); congruence). subst q'.
  rewrite (startEditQuestion_found _ _ _ _ F).
  match goal with
  | |- context [dispatch _ (?s1, ls)] =>
    change (dispatch (handleAccordionChange id false uuid) (s1, ls))
      with (commitEdit uuid (s1, ls));
    assert (Hv : valid_buffer s1) by (split; assumption);
    rewrite (commitEdit_valid uuid s1 ls Hv);
    assert (C : committed uuid s1 = questions s)
  end.
  { unfold committed. cbn [expanded questions].
    apply map_fixed. intros q' Hq''. unfold updatedQuestion.
    destruct (same_string (Question_id q') id) eqn:E'; [|reflexivity].
    apply same_string_eq in E'.
    assert (q' = q) by (apply (unique_by_id (questions s)); congruence).
    subst q'. apply updated_unedited; try assumption; reflexivity. }
  rewrite effect_nonempty.
  2:{ unfold committed_state. cbn [questions]. rewrite C.
      destruct (questions s); [contradiction|discriminate]. }
  unfold committed_state. cbn [fst snd questions expanded showForm].
  rewrite C.
  repeat split.
  - rewrite (saveToLocalStorage_fits _ _ H). reflexivity.
  - exact (proj2 (load_saved _ _ H)).
Qed.

Lemma filter_keeps_id (id e : jsstring) (qs : list object) :
  In (id_string e) (ids qs) -> e <> id ->
  In (id_string e) (ids (filter (fun q => negb (same_string (Question_id q) id)) qs)).
Proof.
  unfold ids. rewrite !in_map_iff. intros (q & E & H) Hne.
  exists q. split; [exact E|]. apply filter_In. split; [exact H|].
  apply negb_true_iff, same_string_neq. rewrite E. unfold id_string. congruence.
Qed.

(** X5: deleting a question while the panel of another one is open
    changes the list only: the buffer, [expanded], the form and the
    messages stay, and the open panel is still drawn open. *)
Theorem deleteQuestion_keeps_other_edit
  (id e : jsstring) (s : State) (ls : Storage) :
  expanded s = Some e -> In (id_string e) (ids (questions s)) -> e <> id ->
  fst (deleteQuestion id (s, ls))
  = apply_setState s
      (setQuestions
         (filter (fun q => negb (same_string (Question_id q) id)) (questions s)))
  /\ exists q, In q (questions (fst (deleteQuestion id (s, ls))))
               /\ panel_open (fst (deleteQuestion id (s, ls))) q = true.
Proof.
  intros He Hin Hne.
  pose proof (filter_keeps_id id e (questions s) Hin Hne) as Hk.
  assert (E : fst (deleteQuestion id (s, ls))
              = apply_setState s
                  (setQuestions
                     (filter (fun q => negb (same_string (Question_id q) id))
                        (questions s)))).
  { rewrite deleteQuestion_eq. cbn [fst]. apply effect_nonempty.
    cbn [apply_setState questions]. intros H. rewrite H in Hk. exact Hk. }
  split; [exact E|]. rewrite E. cbn [apply_setState questions].
  unfold ids in Hk. apply in_map_iff in Hk. destruct Hk as (q & Hq & Hq').
  exists q. split; [exact Hq'|].
  unfold panel_open. cbn [expanded]. rewrite He. apply same_string_eq, Hq.
Qed.

(** X7: with distinct ids at most one panel is drawn open. *)
Theorem one_panel_open (s : State) (i j : nat) (q1 q2 : object) :
  NoDup (ids (questions s)) ->
  nth_error (questions s) i = Some q1 -> nth_error (questions s) j = Some q2 ->
  panel_open s q1 = true -> panel_open s q2 = true -> i = j.
Proof.
  intros Hn H1 H2 P1 P2. unfold panel_open in *.
  destruct (expanded s) as [e|]; [|discriminate].
  apply same_string_eq in P1, P2.
  assert (E1 : nth_error (ids (questions s)) i = Some (id_string e))
    by (unfold ids; rewrite nth_error_map, H1; cbn; congruence).
  assert (E2 : nth_error (ids (questions s)) j = Some (id_string e))
    by (unfold ids; rewrite nth_error_map, H2; cbn; congruence).
  apply (proj1 (NoDup_nth_error (ids (questions s))) Hn).
  - apply nth_error_Some. congruence.
  - congruence.
Qed.

(** X8: a commit that is rejected, followed by closing the error
    notification, gives back the state and the store exactly, when no
    error was up before. *)
Theorem rejected_commit_then_close (uuid : jsstring) (s : State) (ls : Storage) :
  trim (questionTitle s) = [] \/ trim (questionType s) = [] ->
  error s = None ->
  dispatch (handler_of CloseError) (commitEdit uuid (s, ls)) = (s, ls).
Proof.
  intros H He. rewrite (commitEdit_invalid uuid s ls H).
  destruct s. cbn in He. subst. reflexivity.
Qed.

Lemma trimStart_nil (s : jsstring) :
  trimStart s = [] <-> forallb is_white_space s = true.
Proof.
  induction s as [|c t IH]; simpl; [tauto|].
  destruct (is_white_space c); simpl; [exact IH|].
  split; discriminate.
Qed.

Lemma trimStart_keeps (s : jsstring) (c : N) :
  In c s -> is_white_space c = false -> trimStart s <> [].
Proof.
  intros Hin Hc H. apply trimStart_nil in H.
  rewrite forallb_forall in H. rewrite (H c Hin) in Hc. discriminate.
Qed.

Lemma trimStart_head (s : jsstring) (c : N) (t : jsstring) :
  trimStart s = c :: t -> is_white_space c = false.
Proof.
  induction s as [|d s IH]; simpl; [discriminate|].
  destruct (is_white_space d) eqn:E; [exact IH|].
  intros H. injection H as -> _. exact E.
Qed.

(** [trim] leaves nothing exactly when the string is white space only. *)
Lemma trim_nil (s : jsstring) :
  trim s = [] <-> forallb is_white_space s = true.
Proof.
  rewrite <- trimStart_nil. unfold trim, trimEnd. split.
  - intros H. destruct (trimStart s) as [|c t] eqn:E; [reflexivity|].
    exfalso. apply (f_equal (@rev N)) in H. rewrite rev_involutive in H.
    simpl in H. revert H.
    apply (trimStart_keeps _ c).
    + apply in_or_app. right. left. reflexivity.
    + apply (trimStart_head s c t E).
  - intros ->. reflexivity.
Qed.

(** X9: [handleSaveChanges] stops at the error exactly when the title or
    the type is made of white space only (the empty string included). *)
Theorem handleSaveChanges_rejects_blank
  (uuid : jsstring) (s : State) (ls : Storage) :
  handleSaveChanges uuid s ls = ([setError (Some required_fields_message)], ls)
  <-> (forallb is_white_space (questionTitle s) = true
       \/ forallb is_white_space (questionType s) = true).
Proof.
  rewrite <- !trim_nil. unfold handleSaveChanges.
  destruct (str_eqb (trim (questionTitle s)) []) eqn:E1;
    [apply str_eqb_eq in E1|apply str_eqb_neq in E1];
    (destruct (str_eqb (trim (questionType s)) []) eqn:E2;
     [apply str_eqb_eq in E2|apply str_eqb_neq in E2]); cbn [orb];
    try (split; [intros _; tauto|reflexivity]).
  split; [|tauto].
  destruct (expanded s); discriminate.
Qed.

Lemma commitEdit_settled (uuid : jsstring) (s : State) (ls : Storage) :
  settled s -> settled (fst (commitEdit uuid (s, ls))).
Proof.
  intros H.
  destruct (commitEdit_cases uuid s ls) as [[_ E]|[_ E]]; rewrite E; cbn [fst].
  - exact H.
  - unfold settled. rewrite effect_showForm, effect_expanded, effect_questions.
    cbn [committed_state showForm expanded questions].
    split; [discriminate|]. intros ->. reflexivity.
Qed.

Lemma dispatch_settled (e : Event) (w : State * Storage) :
  bound (fst w) e = true -> settled (fst w) ->
  settled (fst (dispatch (handler_of e) w)).
Proof.
  destruct w as [s ls]. cbn [fst]. intros Hb H.
  destruct e; cbn [handler_of];
    try (destruct H as [H1 H2]; split; cbn; assumption).
  - unfold dispatch, handleAddQuestionClick.
    destruct (_ || _); [|exact H]. split; reflexivity.
  - change (dispatch (handleDeleteQuestion id) (s, ls))
      with (deleteQuestion id (s, ls)).
    rewrite deleteQuestion_eq. cbn [fst]. destruct H as [H1 H2].
    unfold settled.
    rewrite effect_showForm, effect_expanded, effect_questions.
    cbn [apply_setState showForm expanded questions].
    split.
    + intros Hs. destruct (filter _ _); [reflexivity|apply H1, Hs].
    + intros ->. reflexivity.
  - destruct isExpanded.
    + change (dispatch (handleAccordionChange id true uuid) (s, ls))
        with (startEditQuestion id (s, ls)).
      cbn [bound] in Hb. apply has_id_In in Hb.
      destruct (find_id_In _ _ Hb) as (q & F & Hq & _).
      rewrite (startEditQuestion_found id q s ls F). cbn [fst].
      split; cbn [showForm questions expanded]; [discriminate|].
      intros E. rewrite E in Hq. destruct Hq.
    + change (dispatch (handleAccordionChange id false uuid) (s, ls))
        with (commitEdit uuid (s, ls)).
      apply commitEdit_settled, H.
  - apply (commitEdit_settled uuid s ls H).
Qed.

Lemma first_render_settled (qs : list object) : settled (first_render qs).
Proof.
  rewrite first_render_eq. split; [discriminate|reflexivity].
Qed.

Lemma run_settled (events : list Event) (w : State * Storage) :
  steps bound events w = true -> settled (fst w) ->
  settled (fst (run events w)).
Proof.
  revert w. induction events as [|e events IH]; intros w Hs H; [exact H|].
  cbn [steps] in Hs. apply andb_true_iff in Hs. destruct Hs as [Hb Hs].
  cbn [run fold_left]. apply IH; [exact Hs|].
  apply dispatch_settled; assumption.
Qed.

(** X6: in every state reached from the first render, on any list of
    questions and any store, through calls the markup can make, the
    blank form and an open panel are never drawn together, and the
    button to add a question is there whenever the list is empty. *)
Theorem never_two_forms
  (qs : list object) (ls : Storage) (events : list Event) :
  steps bound events (first_render qs, ls) = true ->
  let s' := fst (run events (first_render qs, ls)) in
  (newFormShown s' = true ->
   forall q, In q (questions s') -> panel_open s' q = false)
  /\ (questions s' = [] -> addButtonShown s' = true).
Proof.
  intros Hs. cbv zeta.
  destruct (run_settled events (first_render qs, ls) Hs (first_render_settled qs))
    as [H1 H2].
  set (s' := fst (run events (first_render qs, ls))) in *. split.
  - unfold newFormShown, panel_open. intros Hn q Hq.
    apply orb_true_iff in Hn. destruct Hn as [Hn|Hn].
    + rewrite (H1 Hn). reflexivity.
    + destruct (questions s'); [destruct Hq|discriminate Hn].
  - intros E. unfold addButtonShown. rewrite (H2 E). reflexivity.
Qed.

Lemma NoDup_ids_filter (p : object -> bool) (qs : list object) :
  NoDup (ids qs) -> NoDup (ids (filter p qs)).
Proof.
  induction qs as [|q qs IH]; simpl; [auto|]. intros H.
  inversion H as [|? ? Hn Hd]; subst.
  destruct (p q); [|apply IH, Hd]. simpl. constructor; [|apply IH, Hd].
  intros Hin. apply Hn. unfold ids in *. apply in_map_iff in Hin.
  destruct Hin as (q' & E & Hq'). apply filter_In in Hq'.
  rewrite <- E. apply in_map. tauto.
Qed.

Lemma NoDup_snoc {A} (l : list A) (a : A) :
  NoDup l -> ~ In a l -> NoDup (l ++ [a]).
Proof.
  intros Hl Ha. apply NoDup_app; [exact Hl|repeat constructor; intros []|].
  intros x Hx [<-|[]]. exact (Ha Hx).
Qed.

Lemma commitEdit_NoDup (uuid : jsstring) (s : State) (ls : Storage) :
  NoDup (ids (questions s)) -> has_id (questions s) uuid = false ->
  NoDup (ids (questions (fst (commitEdit uuid (s, ls))))).
Proof.
  intros Hn Hf.
  destruct (commitEdit_cases uuid s ls) as [[_ E]|[_ E]]; rewrite E; cbn [fst].
  - exact Hn.
  - rewrite effect_questions. cbn [committed_state questions].
    rewrite ids_committed. destruct (expanded s).
    + rewrite app_nil_r. exact Hn.
    + apply NoDup_snoc; [exact Hn|]. intros H. apply has_id_In in H.
      congruence.
Qed.

Lemma dispatch_NoDup (e : Event) (w : State * Storage) :
  fresh (fst w) e = true -> NoDup (ids (questions (fst w))) ->
  NoDup (ids (questions (fst (dispatch (handler_of e) w)))).
Proof.
  destruct w as [s ls]. cbn [fst]. intros Hf H.
  destruct e; cbn [handler_of]; try exact H.
  - unfold dispatch, handleAddQuestionClick. destruct (_ || _); exact H.
  - change (dispatch (handleDeleteQuestion id) (s, ls))
      with (deleteQuestion id (s, ls)).
    rewrite deleteQuestion_eq. cbn [fst]. rewrite effect_questions.
    apply NoDup_ids_filter, H.
  - destruct isExpanded.
    + unfold dispatch, handleAccordionChange.
      destruct (find _ _); exact H.
    + change (dispatch (handleAccordionChange id false uuid) (s, ls))
        with (commitEdit uuid (s, ls)).
      apply commitEdit_NoDup; [exact H|].
      cbn [fresh] in Hf. apply negb_true_iff, Hf.
  - apply (commitEdit_NoDup uuid s ls H). cbn [fresh] in Hf.
    apply negb_true_iff, Hf.
Qed.

(** X11: any run of calls, deletes and panel changes included, keeps
    the ids of the list distinct, as long as each id [uuidv4()] gives is
    not in the list at the time. *)
Theorem run_keeps_ids_unique (events : list Event) (w : State * Storage) :
  NoDup (ids (questions (fst w))) -> steps fresh events w = true ->
  NoDup (ids (questions (fst (run events w)))).
Proof.
  revert w. induction events as [|e events IH]; intros w H Hs; [exact H|].
  cbn [steps] in Hs. apply andb_true_iff in Hs. destruct Hs as [Hf Hs].
  cbn [run fold_left]. apply IH; [|exact Hs].
  apply dispatch_NoDup; assumption.
Qed.

(** X14: when [loadFromLocalStorage] does not throw on the store the
    component starts on, it does not throw after any calls that follow,
    from any state: the component never leaves a text it cannot read
    back. *)
Theorem mounted_store_always_loads
  (ls : Storage) (s : State) (events : list Event) :
  loadFromLocalStorage ls <> Throws ->
  loadFromLocalStorage (snd (run events (s, ls))) <> Throws.
Proof. intros H. exact (run_loads events (s, ls) H). Qed.

Lemma mount_saved (qs : list object) (q : nat) :
  storable (array qs) = true -> forallb is_Question qs = true ->
  mount {| item := Some (JSON_stringify (array qs)); quota := q |}
  = Some (initialState qs).
Proof.
  intros Hs Ht. unfold mount. rewrite (load_storable _ _ Hs).
  rewrite (as_Questions_array _ Ht), first_render_eq. reflexivity.
Qed.

(** X10: after a [deleteQuestion] whose write fits, the list left being
    of the declared type and one that JSON can hold, a new mount starts
    from the list as the delete left it, with a blank buffer and nothing
    open. *)
Theorem reload_after_delete (id : jsstring) (s : State) (ls : Storage) :
  let w1 := deleteQuestion id (s, ls) in
  List.length (JSON_stringify (array (questions (fst w1)))) <= quota ls ->
  storable (array (questions (fst w1))) = true ->
  forallb is_Question (questions (fst w1)) = true ->
  mount (snd w1) = Some (initialState (questions (fst w1))).
Proof.
  cbv zeta. rewrite deleteQuestion_eq. cbn [fst snd].
  rewrite effect_questions. cbn [apply_setState questions].
  intros H Hs Ht. rewrite (saveToLocalStorage_fits _ _ H).
  apply mount_saved; assumption.
Qed.

(** X12: a commit that is accepted with a panel open keeps the length
    of the list, gives the buffer's fields to every question with the
    open id, at its place and under its id, and leaves every other
    question as it is. *)
Theorem commitEdit_updates_in_place
  (uuid target : jsstring) (s : State) (ls : Storage) :
  valid_buffer s -> expanded s = Some target ->
  List.length (questions (fst (commitEdit uuid (s, ls))))
  = List.length (questions s)
  /\ forall n q,
       nth_error (questions s) n = Some q ->
       exists q',
         nth_error (questions (fst (commitEdit uuid (s, ls)))) n = Some q'
         /\ q' = (if same_string (Question_id q) target
                  then spread q (buffer_properties s)
                  else q)
         /\ Question_id q' = Question_id q
         /\ (Question_id q <> id_string target -> q' = q)
         /\ (Question_id q = id_string target ->
             get (js "title") q' = Some (JStr (questionTitle s))
             /\ get (js "type") q' = Some (JStr (questionType s))
             /\ get (js "required") q' = Some (JBool (isRequired s))
             /\ get (js "helperText") q' = Some (JStr (helperText s))
             /\ get (js "additionalFields") q' = Some (JObj (additionalFields s))
             /\ forall k, ~ In k (map fst (buffer_properties s)) ->
                          get k q' = get k q).
Proof.
  intros Hv He. rewrite (commitEdit_questions uuid s ls Hv).
  unfold committed. rewrite He. split; [apply length_map|].
  intros n q H. exists (updatedQuestion target s q).
  rewrite nth_error_map, H. split; [reflexivity|].
  split; [reflexivity|].
  split; [apply updatedQuestion_id|].
  unfold updatedQuestion. split.
  - intros Hne. apply same_string_neq in Hne. rewrite Hne. reflexivity.
  - intros Heq. apply same_string_eq in Heq. rewrite Heq.
    destruct (updated_properties s q) as (P1 & P2 & P3 & P4 & P5).
    repeat split; try assumption. intros k Hk. apply updated_others, Hk.
Qed.

(** X13: changing the type after an additional field was set does not
    reset the additional fields: the question then created has the new
    type and the field that was set. *)
Theorem constraints_survive_type_change
  (fv : FieldValue) (v uuid : jsstring) (s : State) (ls : Storage) :
  expanded s = None -> trim (questionTitle s) <> [] -> trim v <> [] ->
  questions
    (fst (run [ChangeAdditionalField fv; ChangeType v; ToggleNewForm uuid]
            (s, ls)))
  = questions s
    ++ [[(js "id", JStr uuid); (js "title", JStr (questionTitle s));
         (js "type", JStr v); (js "required", JBool (isRequired s));
         (js "helperText", JStr (helperText s));
         (js "additionalFields", JObj (set_field fv (additionalFields s)))]]
  /\ get (field_key fv) (set_field fv (additionalFields s)) = Some (field_value fv)
  /\ (forall k, k <> field_key fv ->
                get k (set_field fv (additionalFields s))
                = get k (additionalFields s)).
Proof.
  intros He Ht Hv.
  change (run [ChangeAdditionalField fv; ChangeType v; ToggleNewForm uuid] (s, ls))
    with (commitEdit uuid
            (apply_setState
               (apply_setState s (setAdditionalFields (set_field fv)))
               (setQuestionType v), ls)).
  rewrite commitEdit_questions by (split; assumption).
  unfold committed. cbn [apply_setState expanded]. rewrite He.
  split; [reflexivity|]. unfold set_field, spread. cbn [fold_left fst snd].
  split; [apply get_define_same|]. intros k Hk. apply get_define_other, Hk.
Qed.

(** X15: the list and the store change through a commit or a delete
    only: typing, opening a panel, the button to add a question and
    closing a notification leave both as they are. *)
Theorem list_and_store_change_by_commit_or_delete
  (e : Event) (w : State * Storage) :
  commits_or_deletes e = false ->
  questions (fst (dispatch (handler_of e) w)) = questions (fst w)
  /\ snd (dispatch (handler_of e) w) = snd w.
Proof.
  destruct w as [s ls]. intros H.
  destruct e; try discriminate H; cbn [handler_of]; try (split; reflexivity).
  - unfold dispatch, handleAddQuestionClick.
    destruct (_ || _); split; reflexivity.
  - destruct isExpanded; [|discriminate H].
    unfold dispatch, handleAccordionChange.
    destruct (find _ _); split; reflexivity.
Qed.

End FormBuilder.

(* ================================================================= *)
(** * The examples

    The statements below are about the component over the numbers of
    [example_numbers]. *)

#[global] Existing Instance example_numbers.

(** The instance has the laws. *)
Lemma example_numbers_lawful : lawful example_numbers.
Proof.
  split; [|split].
  - intros [text] F.
    change (is_numeral (if str_eqb text (js "-0") then js "0" else text) = true).
    destruct (str_eqb text (js "-0")); [reflexivity|exact F].
  - intros [text] _ Z.
    change (Numeral (if str_eqb text (js "-0") then js "0" else text)
            = Numeral text).
    change (str_eqb text (js "-0") = false) in Z. rewrite Z. reflexivity.
  - reflexivity.
Qed.

(** Evaluates each part of a statement about an example. *)
Ltac evaluate :=
  cbv zeta;
  repeat match goal with |- _ /\ _ => split end;
  vm_compute; first [reflexivity | discriminate].

Lemma mount_empty_store : mount empty_store = Some (initialState []).
Proof. reflexivity. Qed.

(** The first scenario of the specification: a question is created,
    made required, then deleted. *)
Example scenario_create_edit_delete :
  let w1 := commitEdits [create_name] (initialState [], empty_store) in
  let w2 := commitEdits [require_name] w1 in
  let w3 := deleteQuestion (js "X") w2 in
  questions (fst w1)
  = [[(js "id", JStr (js "X")); (js "title", JStr (js "Name"));
      (js "type", JStr (js "text")); (js "required", JBool false);
      (js "helperText", JStr []); (js "additionalFields", JObj [])]]
  /\ questions (fst w2)
     = [[(js "id", JStr (js "X")); (js "title", JStr (js "Name"));
         (js "type", JStr (js "text")); (js "required", JBool true);
         (js "helperText", JStr []); (js "additionalFields", JObj [])]]
  /\ questions (fst w3) = []
  /\ loadFromLocalStorage (snd w3) = Returns (array []).
Proof. evaluate. Qed.

(** A visit to a store written earlier: the second question was stored
    without a helper text.  Its panel is opened, a helper text entered,
    the panel collapsed, the first question deleted.  The collapse
    gives the question the property [helperText] after the ones it had
    and writes the list as it was before; the deletion writes the list
    with the edited question, which the next visit starts on. *)
Example scenario_edit_stored_question :
  let ls := {| item := Some (JSON_stringify (array two_questions)); quota := 4096 |} in
  let w1 := run [ToggleAccordion (js "B") true [];
                 ChangeHelperText (js "in years");
                 ToggleAccordion (js "B") false (js "U")]
              (first_render two_questions, ls) in
  let w2 := run [ClickDelete (js "A")] w1 in
  let edited :=
    [(js "id", JStr (js "B")); (js "title", JStr (js "Age"));
     (js "type", JStr (js "number")); (js "required", JBool true);
     (js "additionalFields",
      JObj [(js "numberType", JStr (js "integer"));
            (js "min", JNum zero); (js "max", JNum ten)]);
     (js "helperText", JStr (js "in years"))] in
  mount ls = Some (first_render two_questions)
  /\ questions (fst w1) = [nth 0 two_questions []; edited]
  /\ loadFromLocalStorage (snd w1) = Returns (array two_questions)
  /\ questions (fst w2) = [edited]
  /\ loadFromLocalStorage (snd w2) = Returns (array [edited])
  /\ mount (snd w2) = Some (first_render [edited]).
Proof. evaluate. Qed.

(* ----------------------------------------------------------------- *)
(** ** C1 *)

(** C1, at a first question: the list in [questions] after the commit has
    the new question, the list written to the store is the one before
    the commit; the message is set and no panel stays open. *)
Theorem commitEdit_writes_previous_list :
  let w := commitEdit (js "X") (name_typed empty_store) in
  questions (fst w)
  = [[(js "id", JStr (js "X")); (js "title", JStr (js "Name"));
      (js "type", JStr (js "text")); (js "required", JBool false);
      (js "helperText", JStr []); (js "additionalFields", JObj [])]]
  /\ item (snd w) = Some (js "[]")
  /\ loadFromLocalStorage (snd w) = Returns (array [])
  /\ successMessage (fst w) = Some added_message
  /\ expanded (fst w) = None.
Proof. evaluate. Qed.

(* ----------------------------------------------------------------- *)
(** ** C2 *)

(** C2 as stated fails: a stored text that is not JSON makes
    [loadFromLocalStorage] throw. *)
Lemma load_unparseable_throws :
  JSON_parse (js "{") = None
  /\ loadFromLocalStorage {| item := Some (js "{"); quota := 4096 |} = Throws
  /\ loadFromLocalStorage {| item := Some (js "{"); quota := 4096 |}
     <> Returns (array []).
Proof. evaluate. Qed.

Lemma loadFromLocalStorage_cases_witness :
  loadFromLocalStorage empty_store = Returns (array [])
  /\ loadFromLocalStorage {| item := Some (js " [ true , null ] "); quota := 0 |}
     = Returns (JArr [JBool true; JNull])
  /\ loadFromLocalStorage
       {| item := Some (JSON_stringify (array (edited_question :: two_questions)));
          quota := 0 |}
     = Returns (array (edited_question :: two_questions))
  /\ loadFromLocalStorage {| item := Some (js "[1,"); quota := 0 |} = Throws.
Proof.
  split; [|split; [|split]].
  - apply (proj1 (loadFromLocalStorage_cases example_numbers_lawful empty_store)).
    reflexivity.
  - apply (proj1 (proj2 (proj2 (loadFromLocalStorage_cases example_numbers_lawful
             {| item := Some (js " [ true , null ] "); quota := 0 |}))))
      with (text := js " [ true , null ] ").
    + reflexivity.
    + discriminate.
    + vm_compute. reflexivity.
  - apply (proj1 (proj2 (proj2 (proj2 (loadFromLocalStorage_cases
             example_numbers_lawful
             {| item := Some (JSON_stringify
                                (array (edited_question :: two_questions)));
                quota := 0 |}))))).
    + reflexivity.
    + vm_compute. reflexivity.
  - apply (proj2 (proj2 (proj2 (proj2 (loadFromLocalStorage_cases
             example_numbers_lawful
             {| item := Some (js "[1,"); quota := 0 |}))))) with (text := js "[1,").
    + reflexivity.
    + discriminate.
    + vm_compute. reflexivity.
Defined.

(* ----------------------------------------------------------------- *)
(** ** C3 *)

Lemma commitEdit_rejects_empty_fields_witness :
  let s := fst (name_typed empty_store) in
  let s' := apply_setState s (setQuestionType (js " ")) in
  (trim (questionTitle s') = [] \/ trim (questionType s') = [])
  /\ error (fst (commitEdit (js "X") (s', empty_store)))
     = Some required_fields_message
  /\ questions (fst (commitEdit (js "X") (s', empty_store))) = []
  /\ snd (commitEdit (js "X") (s', empty_store)) = empty_store.
Proof.
  cbv zeta.
  assert (H : trim (questionTitle
                      (apply_setState (fst (name_typed empty_store))
                         (setQuestionType (js " ")))) = []
              \/ trim (questionType
                         (apply_setState (fst (name_typed empty_store))
                            (setQuestionType (js " ")))) = [])
    by (right; reflexivity).
  split; [exact H|].
  destruct (commitEdit_rejects_empty_fields (js "X")
              (apply_setState (fst (name_typed empty_store))
                 (setQuestionType (js " ")))
              empty_store H) as (H1 & H2 & _ & _ & H5).
  split; [exact H1|]. split; [rewrite H2; reflexivity|exact H5].
Defined.

(* ----------------------------------------------------------------- *)
(** ** C4 *)

Lemma valid_create_name : valid_edit (number := example_number) create_name.
Proof. split; discriminate. Qed.

Lemma valid_require_name : valid_edit (number := example_number) require_name.
Proof. split; discriminate. Qed.

Lemma commitEdits_preserve_ids_witness :
  ids (questions (fst (commitEdits [create_name; require_name]
                         (initialState [], empty_store))))
  = [id_string (js "X")]
  /\ NoDup (ids (questions (fst (commitEdits [create_name; require_name]
                                   (initialState [], empty_store))))).
Proof.
  assert (Hv : Forall valid_edit [create_name; require_name])
    by (apply Forall_cons; [exact valid_create_name|];
        apply Forall_cons; [exact valid_require_name|apply Forall_nil]).
  assert (Hn : NoDup (ids (number := example_number)
                        (questions (fst (initialState [], empty_store)))
                      ++ created_ids [create_name; require_name]))
    by (apply NoDup_cons; [intros []|apply NoDup_nil]).
  destruct (commitEdits_preserve_ids [create_name; require_name]
              (initialState [], empty_store) Hv Hn) as (H1 & H2 & _).
  split; [rewrite H1; reflexivity|exact H2].
Defined.

(* ----------------------------------------------------------------- *)
(** ** C5 *)

Lemma deleteQuestion_removes_and_persists_witness :
  questions (fst (deleteQuestion (js "A") (initialState two_questions, empty_store)))
  = [[(js "id", JStr (js "B")); (js "title", JStr (js "Age"));
      (js "type", JStr (js "number")); (js "required", JBool true);
      (js "additionalFields",
       JObj [(js "numberType", JStr (js "integer"));
             (js "min", JNum zero); (js "max", JNum ten)])]]
  /\ loadFromLocalStorage
       (snd (deleteQuestion (js "A") (initialState two_questions, empty_store)))
     = Returns
         (array
            (questions
               (fst (deleteQuestion (js "A")
                       (initialState two_questions, empty_store)))))
  /\ questions
       (fst (deleteQuestion (js "C") (initialState two_questions, empty_store)))
     = two_questions.
Proof.
  destruct (deleteQuestion_removes_and_persists example_numbers_lawful (js "A")
              (initialState two_questions) empty_store)
    as (H1 & _ & _ & H4 & _ & _ & _).
  destruct (deleteQuestion_removes_and_persists example_numbers_lawful (js "C")
              (initialState two_questions) empty_store)
    as (_ & _ & _ & _ & H5 & _ & _).
  split; [rewrite H1; reflexivity|]. split.
  - apply H4.
    + apply Nat.leb_le. vm_compute. reflexivity.
    + vm_compute. reflexivity.
  - apply H5. simpl. intros [H|[H|[]]]; discriminate H.
Defined.

(* ----------------------------------------------------------------- *)
(** ** C6 *)

(** C6 as stated fails: the question whose panel is open is deleted while
    another one remains, and [expanded] still holds the deleted id. *)
Lemma deleteQuestion_keeps_expanded :
  expanded (fst editing_first_of_two) = Some (js "A")
  /\ ids (questions (fst (deleteQuestion (js "A") editing_first_of_two)))
     = [id_string (js "B")]
  /\ expanded (fst (deleteQuestion (js "A") editing_first_of_two))
     = Some (js "A")
  /\ expanded (fst (deleteQuestion (js "A") editing_first_of_two)) <> None.
Proof. evaluate. Qed.

Lemma deleteQuestion_closes_panels_witness :
  expanded first_panel_open = Some (js "A")
  /\ (forall q,
        In q (questions (fst (deleteQuestion (js "A")
                                (first_panel_open, empty_store)))) ->
        panel_open (fst (deleteQuestion (js "A") (first_panel_open, empty_store)))
          q = false).
Proof.
  assert (H : expanded first_panel_open = Some (js "A")) by reflexivity.
  split; [exact H|].
  exact (proj1 (deleteQuestion_closes_panels (js "A") first_panel_open
                  empty_store H)).
Defined.

(* ----------------------------------------------------------------- *)
(** ** C7 *)

(** C7 as stated fails: with an empty list and the error message up, the
    click on the button changes nothing. *)
Lemma startNewQuestion_ignored :
  startNewQuestion error_shown_on_empty_list = error_shown_on_empty_list
  /\ ~ starts_blank_form error_shown_on_empty_list
         (startNewQuestion error_shown_on_empty_list).
Proof.
  split; [reflexivity|]. intros (H & _). vm_compute in H. discriminate H.
Qed.

Lemma startNewQuestion_guarded_witness :
  (questions (fst (initialState two_questions, empty_store)) <> []
   \/ truthy_opt (error (fst (initialState two_questions, empty_store))) = false)
  /\ starts_blank_form (initialState two_questions, empty_store)
       (startNewQuestion (initialState two_questions, empty_store))
  /\ startNewQuestion error_shown_on_empty_list = error_shown_on_empty_list.
Proof.
  assert (H : questions (fst (initialState two_questions, empty_store)) <> []
              \/ truthy_opt (error (fst (initialState two_questions, empty_store)))
                 = false) by (right; reflexivity).
  split; [exact H|]. split.
  - exact (proj1 (startNewQuestion_guarded
                    (initialState two_questions, empty_store)) H).
  - apply (proj2 (startNewQuestion_guarded error_shown_on_empty_list)).
    split; vm_compute; reflexivity.
Defined.

(* ----------------------------------------------------------------- *)
(** ** C8 *)

(** C8 as stated fails, in four ways.  The write is rejected and
    [loadFromLocalStorage] returns what the store held, not the list.
    The write resolves, and a bound that is NaN comes back as [null].
    The write resolves, and a bound that is the negative zero comes
    back as the zero.  On a store without the entry,
    [loadFromLocalStorage] returns the empty list, and saving that list
    creates the entry. *)
Lemma round_trip_fails :
  (fst (saveToLocalStorage two_questions full_store) = rejected QuotaExceededError
   /\ loadFromLocalStorage (snd (saveToLocalStorage two_questions full_store))
      = Returns (array [])
   /\ loadFromLocalStorage (snd (saveToLocalStorage two_questions full_store))
      <> Returns (array two_questions))
  /\ (fst (saveToLocalStorage [unbounded_question] empty_store) = resolved
      /\ get (js "additionalFields") unbounded_question
         = Some (JObj [(js "min", JNum NaN)])
      /\ exists q,
           loadFromLocalStorage
             (snd (saveToLocalStorage [unbounded_question] empty_store))
           = Returns (array [q])
           /\ get (js "additionalFields") q = Some (JObj [(js "min", JNull)])
           /\ q <> unbounded_question)
  /\ (fst (saveToLocalStorage [signed_question] empty_store) = resolved
      /\ is_negative_zero negative_zero = true
      /\ get (js "additionalFields") signed_question
         = Some (JObj [(js "min", JNum negative_zero)])
      /\ exists q,
           loadFromLocalStorage
             (snd (saveToLocalStorage [signed_question] empty_store))
           = Returns (array [q])
           /\ get (js "additionalFields") q = Some (JObj [(js "min", JNum zero)])
           /\ zero <> negative_zero
           /\ q <> signed_question)
  /\ (item empty_store = None
      /\ loadFromLocalStorage empty_store = Returns (array [])
      /\ item (snd (saveToLocalStorage [] empty_store)) = Some (js "[]")
      /\ snd (saveToLocalStorage [] empty_store) <> empty_store).
Proof.
  split; [|split; [|split]].
  - evaluate.
  - split; [evaluate|]. split; [evaluate|].
    exists [(js "id", JStr (js "C")); (js "title", JStr (js "Size"));
            (js "type", JStr (js "number")); (js "required", JBool false);
            (js "helperText", JStr []);
            (js "additionalFields", JObj [(js "min", JNull)])].
    evaluate.
  - split; [evaluate|]. split; [evaluate|]. split; [evaluate|].
    exists [(js "id", JStr (js "D")); (js "title", JStr (js "Offset"));
            (js "type", JStr (js "number")); (js "required", JBool false);
            (js "helperText", JStr []);
            (js "additionalFields", JObj [(js "min", JNum zero)])].
    evaluate.
  - evaluate.
Qed.

Lemma save_load_round_trip_witness :
  storable (array (edited_question :: two_questions)) = true
  /\ fst (saveToLocalStorage (edited_question :: two_questions) empty_store)
     = resolved
  /\ loadFromLocalStorage
       (snd (saveToLocalStorage (edited_question :: two_questions) empty_store))
     = Returns (array (edited_question :: two_questions))
  /\ loadFromLocalStorage (snd (saveToLocalStorage [] empty_store))
     = Returns (array [])
  /\ snd (saveToLocalStorage two_questions
            (snd (saveToLocalStorage two_questions empty_store)))
     = snd (saveToLocalStorage two_questions empty_store).
Proof.
  assert (S : storable (array (edited_question :: two_questions)) = true)
    by (vm_compute; reflexivity).
  assert (H : fst (saveToLocalStorage (edited_question :: two_questions)
                     empty_store) = resolved)
    by (vm_compute; reflexivity).
  assert (S2 : storable (array two_questions) = true)
    by (vm_compute; reflexivity).
  split; [exact S|]. split; [exact H|]. split; [|split].
  - exact (proj1 (save_load_round_trip example_numbers_lawful
                    (edited_question :: two_questions) empty_store S) H).
  - apply (proj1 (proj2 (save_load_round_trip example_numbers_lawful []
                           empty_store eq_refl))).
    reflexivity.
  - apply (proj2 (proj2 (save_load_round_trip example_numbers_lawful two_questions
                           (snd (saveToLocalStorage two_questions empty_store))
                           S2))).
    vm_compute. reflexivity.
Defined.

(* ----------------------------------------------------------------- *)
(** ** C9 *)

(** C9, at a store without room: the buffer is valid, the write of the
    commit is rejected, the list in [questions] has the new question,
    and no error is raised; the message says the question was added. *)
Theorem commitEdit_save_failure_unreported :
  let w := name_typed full_store in
  valid_buffer (fst w)
  /\ fst (saveToLocalStorage (questions (fst w)) (snd w))
     = rejected QuotaExceededError
  /\ questions (fst (commitEdit (js "X") w))
     = [[(js "id", JStr (js "X")); (js "title", JStr (js "Name"));
         (js "type", JStr (js "text")); (js "required", JBool false);
         (js "helperText", JStr []); (js "additionalFields", JObj [])]]
  /\ snd (commitEdit (js "X") w) = full_store
  /\ error (fst (commitEdit (js "X") w)) = None
  /\ successMessage (fst (commitEdit (js "X") w)) = Some added_message.
Proof.
  cbv zeta. split; [split; discriminate|]. evaluate.
Qed.

(* ----------------------------------------------------------------- *)
(** ** C10 *)

Lemma commitEdit_missing_target_witness :
  expanded editing_missing = Some (js "Z")
  /\ ~ In (id_string (js "Z")) (ids (questions editing_missing))
  /\ valid_buffer editing_missing
  /\ questions (fst (commitEdit (js "X") (editing_missing, empty_store)))
     = two_questions
  /\ expanded (fst (commitEdit (js "X") (editing_missing, empty_store))) = None.
Proof.
  assert (He : expanded editing_missing = Some (js "Z")) by reflexivity.
  assert (Hn : ~ In (id_string (js "Z")) (ids (questions editing_missing)))
    by (simpl; intros [H|[H|[]]]; discriminate H).
  assert (Hv : valid_buffer editing_missing) by (split; discriminate).
  destruct (commitEdit_missing_target (js "X") (js "Z") editing_missing
              empty_store He Hn Hv) as (H1 & _ & _ & H4).
  split; [exact He|]. split; [exact Hn|]. split; [exact Hv|].
  split; [rewrite H1; reflexivity|exact H4].
Defined.

(* ----------------------------------------------------------------- *)
(** ** The further properties *)

Lemma startEditQuestion_loads_question_witness :
  let s' := fst (startEditQuestion (js "B")
                   (initialState two_questions, empty_store)) in
  forallb is_Question (questions (initialState two_questions)) = true
  /\ In (id_string (js "B")) (ids (questions (initialState two_questions)))
  /\ exists q,
       find (fun q => same_string (Question_id q) (js "B"))
         (questions (initialState two_questions)) = Some q
       /\ get (js "title") q = Some (JStr (questionTitle s'))
       /\ helperText s'
          = match get (js "helperText") q with Some (JStr h) => h | _ => [] end
       /\ additionalFields s'
          = match get (js "additionalFields") q with
            | Some (JObj a) => a
            | _ => []
            end.
Proof.
  cbv zeta.
  assert (T : forallb is_Question (questions (initialState two_questions)) = true)
    by (vm_compute; reflexivity).
  assert (H : In (id_string (js "B")) (ids (questions (initialState two_questions))))
    by (right; left; reflexivity).
  split; [exact T|]. split; [exact H|].
  destruct (startEditQuestion_loads_question (js "B")
              (initialState two_questions) empty_store T H)
    as (q & H1 & _ & _ & H2 & _ & _ & H3 & H4 & _).
  exists q. split; [exact H1|]. split; [exact H2|]. split; [exact H3|exact H4].
Defined.

Lemma startEditQuestion_missing_witness :
  ~ In (id_string (js "Z")) (ids (questions (initialState two_questions)))
  /\ startEditQuestion (js "Z") (initialState two_questions, empty_store)
     = (apply_setState (initialState two_questions) (setExpanded (Some (js "Z"))),
        empty_store).
Proof.
  assert (H : ~ In (id_string (js "Z")) (ids (questions (initialState two_questions))))
    by (simpl; intros [H|[H|[]]]; discriminate H).
  split; [exact H|].
  exact (startEditQuestion_missing (js "Z") (initialState two_questions)
           empty_store H).
Defined.

Lemma commitEdit_then_reopen_witness :
  let s := fst (name_typed empty_store) in
  valid_buffer s
  /\ questionTitle
       (fst (startEditQuestion (js "X") (commitEdit (js "X") (s, empty_store))))
     = js "Name"
  /\ expanded
       (fst (startEditQuestion (js "X") (commitEdit (js "X") (s, empty_store))))
     = Some (js "X").
Proof.
  cbv zeta.
  assert (Hv : valid_buffer (fst (name_typed empty_store)))
    by (split; discriminate).
  assert (Hf : match expanded (fst (name_typed empty_store)) with
               | None => ~ In (id_string (js "X"))
                           (ids (questions (fst (name_typed empty_store))))
               | Some t => In (id_string t)
                             (ids (questions (fst (name_typed empty_store))))
               end) by (intros []).
  destruct (commitEdit_then_reopen (js "X") (fst (name_typed empty_store))
              empty_store Hv Hf)
    as (H1 & _ & _ & _ & _ & H6 & _).
  split; [exact Hv|]. split; [exact H1|exact H6].
Defined.

Lemma open_then_collapse_unedited_witness :
  questions
    (fst (dispatch (handleAccordionChange (js "X") false (js "Y"))
            (startEditQuestion (js "X") (initialState one_question, empty_store))))
  = one_question
  /\ loadFromLocalStorage
       (snd (dispatch (handleAccordionChange (js "X") false (js "Y"))
               (startEditQuestion (js "X")
                  (initialState one_question, empty_store))))
     = Returns (array one_question).
Proof.
  assert (Hn : NoDup (ids (number := example_number)
                        (questions (initialState one_question))))
    by (apply NoDup_cons; [intros []|apply NoDup_nil]).
  assert (Hq : In (A := @object example_number)
                 [(js "id", JStr (js "X")); (js "title", JStr (js "Name"));
                  (js "type", JStr (js "text")); (js "required", JBool false);
                  (js "helperText", JStr []); (js "additionalFields", JObj [])]
                 (questions (initialState one_question)))
    by (left; reflexivity).
  destruct (open_then_collapse_unedited example_numbers_lawful (js "Y") (js "X")
              _ (initialState one_question) empty_store Hn Hq eq_refl eq_refl
              eq_refl)
    as (H1 & _ & _ & _ & H5); try discriminate.
  split; [exact H1|].
  rewrite (proj2 (H5 ltac:(apply Nat.leb_le; vm_compute; reflexivity)) eq_refl).
  rewrite H1. reflexivity.
Defined.

Lemma deleteQuestion_keeps_other_edit_witness :
  expanded first_panel_open = Some (js "A")
  /\ fst (deleteQuestion (js "B") (first_panel_open, empty_store))
     = apply_setState first_panel_open
         (setQuestions
            (filter (fun q => negb (same_string (Question_id q) (js "B")))
               (questions first_panel_open))).
Proof.
  assert (He : expanded first_panel_open = Some (js "A")) by reflexivity.
  assert (Hin : In (id_string (js "A")) (ids (questions first_panel_open)))
    by (left; reflexivity).
  assert (Hne : js "A" <> js "B") by discriminate.
  split; [exact He|].
  exact (proj1 (deleteQuestion_keeps_other_edit (js "B") (js "A")
                  first_panel_open empty_store He Hin Hne)).
Defined.

Lemma never_two_forms_witness :
  steps bound create_then_add (first_render [], empty_store) = true
  /\ (newFormShown (fst (run create_then_add (first_render [], empty_store)))
      = true ->
      forall q,
        In q (questions (fst (run create_then_add (first_render [], empty_store)))) ->
        panel_open (fst (run create_then_add (first_render [], empty_store))) q
        = false)
  /\ steps bound [ToggleAccordion (js "B") true []; ClickDelete (js "B")]
       (first_render (edited_question :: two_questions), full_store) = true.
Proof.
  assert (Hs : steps bound create_then_add (first_render [], empty_store) = true)
    by (vm_compute; reflexivity).
  split; [exact Hs|]. split.
  - exact (proj1 (never_two_forms [] empty_store create_then_add Hs)).
  - vm_compute. reflexivity.
Defined.

Lemma one_panel_open_witness :
  NoDup (ids (questions first_panel_open))
  /\ (forall j q2,
        nth_error (questions first_panel_open) j = Some q2 ->
        panel_open first_panel_open q2 = true -> 0 = j).
Proof.
  assert (Hn : NoDup (ids (questions first_panel_open))).
  { apply NoDup_cons; [|apply NoDup_cons; [intros []|apply NoDup_nil]].
    intros [H|[]]. discriminate H. }
  split; [exact Hn|]. intros j q2 H2 P2.
  exact (one_panel_open first_panel_open 0 j _ q2 Hn eq_refl H2 eq_refl P2).
Defined.

Lemma rejected_commit_then_close_witness :
  (trim (questionTitle (initialState two_questions)) = []
   \/ trim (questionType (initialState two_questions)) = [])
  /\ dispatch (handler_of CloseError)
       (commitEdit (js "X") (initialState two_questions, empty_store))
     = (initialState two_questions, empty_store).
Proof.
  assert (H : trim (questionTitle (initialState two_questions)) = []
              \/ trim (questionType (initialState two_questions)) = [])
    by (left; reflexivity).
  split; [exact H|].
  exact (rejected_commit_then_close (js "X") (initialState two_questions)
           empty_store H eq_refl).
Defined.

Lemma handleSaveChanges_rejects_blank_witness :
  handleSaveChanges (js "X")
    (apply_setState (initialState two_questions) (setQuestionTitle (js "  ")))
    empty_store
  = ([setError (Some required_fields_message)], empty_store).
Proof.
  apply (proj2 (handleSaveChanges_rejects_blank (js "X")
                  (apply_setState (initialState two_questions)
                     (setQuestionTitle (js "  ")))
                  empty_store)).
  left. reflexivity.
Defined.

Lemma run_keeps_ids_unique_witness :
  steps fresh create_two_delete_one (initialState [], empty_store) = true
  /\ NoDup (ids (questions
                   (fst (run create_two_delete_one
                           (initialState [], empty_store))))).
Proof.
  assert (Hs : steps fresh create_two_delete_one (initialState [], empty_store)
               = true) by (vm_compute; reflexivity).
  split; [exact Hs|].
  apply (run_keeps_ids_unique create_two_delete_one
           (initialState [], empty_store)); [apply NoDup_nil|exact Hs].
Defined.

Lemma mounted_store_always_loads_witness :
  loadFromLocalStorage
    {| item := Some (JSON_stringify (array [edited_question])); quota := 4096 |}
  <> Throws
  /\ loadFromLocalStorage
       (snd (run [ToggleAccordion (js "B") true []; ChangeRequired false;
                  ToggleAccordion (js "B") false []; ClickDelete (js "B")]
               (first_render [edited_question],
                {| item := Some (JSON_stringify (array [edited_question]));
                   quota := 4096 |})))
     <> Throws.
Proof.
  assert (H : loadFromLocalStorage
                {| item := Some (JSON_stringify (array [edited_question]));
                   quota := 4096 |} <> Throws)
    by (vm_compute; discriminate).
  split; [exact H|].
  exact (mounted_store_always_loads example_numbers_lawful _
           (first_render [edited_question]) _ H).
Defined.

Lemma reload_after_delete_witness :
  mount (snd (deleteQuestion (js "A") (initialState two_questions, empty_store)))
  = Some (initialState
            (questions
               (fst (deleteQuestion (js "A")
                       (initialState two_questions, empty_store))))).
Proof.
  apply (reload_after_delete example_numbers_lawful (js "A")
           (initialState two_questions) empty_store).
  - apply Nat.leb_le. vm_compute. reflexivity.
  - vm_compute. reflexivity.
  - vm_compute. reflexivity.
Defined.

Lemma commitEdit_updates_in_place_witness :
  valid_buffer (number := example_number)
    (load_edit require_name (initialState one_question))
  /\ List.length
       (questions
          (fst (commitEdit (js "Y")
                  (load_edit require_name (initialState one_question),
                   empty_store))))
     = 1.
Proof.
  assert (Hv : valid_buffer (number := example_number)
                 (load_edit require_name (initialState one_question)))
    by (split; discriminate).
  split; [exact Hv|].
  exact (proj1 (commitEdit_updates_in_place (js "Y") (js "X")
                  (load_edit require_name (initialState one_question))
                  empty_store Hv eq_refl)).
Defined.

Lemma constraints_survive_type_change_witness :
  questions
    (fst (run [ChangeAdditionalField (max_value ten);
               ChangeAdditionalField (min_value zero); ChangeType (js "number");
               ToggleNewForm (js "X")]
            (load_edit create_name (initialState []), empty_store)))
  = [[(js "id", JStr (js "X")); (js "title", JStr (js "Name"));
      (js "type", JStr (js "number")); (js "required", JBool false);
      (js "helperText", JStr []);
      (js "additionalFields", JObj [(js "max", JNum ten); (js "min", JNum zero)])]].
Proof.
  apply (proj1 (constraints_survive_type_change (min_value zero) (js "number")
                  (js "X")
                  (apply_setState (load_edit create_name (initialState []))
                     (setAdditionalFields (set_field (max_value ten))))
                  empty_store eq_refl
                  ltac:(discriminate) ltac:(discriminate))).
Defined.

Lemma list_and_store_change_by_commit_or_delete_witness :
  questions
    (fst (dispatch (handler_of (ToggleAccordion (js "A") true []))
            (initialState two_questions, empty_store)))
  = questions (fst (initialState two_questions, empty_store))
  /\ snd (dispatch (handler_of (ToggleAccordion (js "A") true []))
            (initialState two_questions, empty_store))
     = snd (initialState two_questions, empty_store).
Proof.
  exact (list_and_store_change_by_commit_or_delete
           (ToggleAccordion (js "A") true [])
           (initialState two_questions, empty_store) eq_refl).
Defined.
